(** * Linux gamepad backend (internal/gamepad/gamepad_linux.go)

    A shallow embedding of the Linux evdev backend of the gamepad package:
    capability probing ([openGamepad]), the per-device event reader
    ([update]), the absolute-state resynchronizer ([pollAbsState]), the
    value-application logic ([handleAbsEvent]), the public queries, and the
    watcher of the device directory ([nativeGamepads_init],
    [nativeGamepads_update]).

    Conventions.
    - Go [int], [int32], [uint16], [uint32] values are [Z]; where the source
      relies on wrap-around ([uint16] and [uint32] arithmetic, [int32]
      shifts, [byte(x)]) the wrap-around is written out.
    - [float64] is Rocq's primitive binary64 [float] (IEEE 754, round to
      nearest even), so the arithmetic of [handleAbsEvent] is the one the
      hardware performs.
    - [[]byte] buffers filled by the kernel are [list byte].
    - Go's fixed-size arrays are lists; an index expression goes through
      [idx] / [upd], which return [None] where Go panics (index out of range).
    - The kernel is an oracle: a [device] record gives the replies to
      [unix.Open] and to each [ioctl], a [dirsys] record the replies to the
      calls on the device directory; the [sys] record logs the [Open] and
      [Close] calls the code makes.
    - Not modelled: the finalizer set on a new entry, the texts of the
      error messages, and the methods that hold no logic
      ([hasOwnStandardLayoutMapping], the three count getters,
      [buttonValue], [vibrate]). *)

From Stdlib Require Import ZArith Lia Bool String Ascii Floats Uint63.
From Stdlib.Strings Require Import Byte.
From stdpp Require Import list strings.

Open Scope Z_scope.

(** ** Constants *)

(** Modelled from the spec: the event types, synchronization sub-codes and
    code ranges of the Linux input ABI.  They are declared outside the file
    (golang.org/x/sys/unix and the package's Linux API declarations); the
    values are those of linux/input-event-codes.h. *)
Definition EV_SYN : Z := 0.
Definition EV_KEY : Z := 1.
Definition EV_ABS : Z := 3.
Definition EV_CNT : Z := 32.
Definition _SYN_REPORT : Z := 0.
Definition _SYN_DROPPED : Z := 3.
Definition _BTN_MISC : Z := 256.
Definition _KEY_CNT : Z := 768.
Definition _ABS_HAT0X : Z := 16.
Definition _ABS_HAT3Y : Z := 23.
Definition _ABS_CNT : Z := 64.

(** Modelled from the spec: the four direction bits of a hat's 4-bit mask
    and the centered value, declared in the package's platform-independent
    file. *)
Definition hatCentered : Z := 0.
Definition hatUp : Z := 1.
Definition hatRight : Z := 2.
Definition hatDown : Z := 4.
Definition hatLeft : Z := 8.

(** ** Arrays, bytes and machine integers *)

(** [a[i]]: [None] is Go's index-out-of-range panic. *)
Definition idx {A : Type} (l : list A) (i : Z) : option A :=
  if i <? 0 then None else l !! Z.to_nat i.

(** [a[i] = v]. *)
Definition upd {A : Type} (l : list A) (i : Z) (v : A) : option (list A) :=
  if (0 <=? i) && (i <? Z.of_nat (length l)) then Some (<[Z.to_nat i := v]> l)
  else None.

Definition byteZ (b : byte) : Z := Z.of_N (Byte.to_N b).

(** [make([]byte, n)] after the kernel wrote [data] into it. *)
Definition fill (n : nat) (data : list byte) : list byte :=
  take n (data ++ repeat Byte.x00 n).

(** [byte(x)] of an unsigned value. *)
Definition byte_of (x : Z) : Z := x mod 256.

(** The value of an [int32] after an operation that may overflow. *)
Definition int32_wrap (z : Z) : Z := (z + 2 ^ 31) mod 2 ^ 32 - 2 ^ 31.

(** The value of a [uint16] after an operation that may overflow. *)
Definition uint16_wrap (z : Z) : Z := z mod 2 ^ 16.

(** [float64(v)] for an integer [v] of at most 63 bits. *)
Definition float64_of_int (z : Z) : float :=
  if z <? 0 then PrimFloat.opp (PrimFloat.of_uint63 (Uint63.of_Z (- z)))
  else PrimFloat.of_uint63 (Uint63.of_Z z).

(** [isBitSet]: [s[bit/8]&(1<<(bit%8)) != 0].  A negative [bit] panics
    (negative index or negative shift count). *)
Definition isBitSet (s : list byte) (bit : Z) : option bool :=
  if bit <? 0 then None
  else b ← idx s (Z.quot bit 8);
       Some (negb (Z.land (byteZ b) (Z.shiftl 1 (Z.rem bit 8)) =? 0)).

(** ** Data model *)

(** Modelled from the spec: the calibration record of an absolute axis
    (current raw value, minimum, maximum); the struct is declared with the
    package's ioctl definitions. *)
Record input_absinfo := mkAbsinfo {
  value : Z;
  minimum : Z;
  maximum : Z
}.

(** Modelled from the spec: the hardware identity record (four unsigned
    16-bit fields). *)
Record input_id := mkInputID {
  bustype : Z;
  vendor : Z;
  product : Z;
  version : Z
}.

(** Modelled from the spec: a decoded event record (type, code, value). *)
Record input_event := mkEvent {
  typ : Z;
  code : Z;
  evalue : Z
}.

Record nativeGamepad := mkNative {
  fd : Z;
  path : string;
  keyMap : list Z;
  absMap : list Z;
  absInfo : list input_absinfo;
  dropped : bool;
  axes : list float;
  buttons : list bool;
  hats : list Z;
  axisCount_ : Z;
  buttonCount_ : Z;
  hatCount_ : Z
}.

(** Modelled from the spec: a logical gamepad is its name, its synthesized
    identifier and the embedded native state. *)
Record Gamepad := mkGamepad {
  name : string;
  sdlID : string;
  native : nativeGamepad
}.

(** The zero value of [nativeGamepad]: what a freshly allocated gamepad
    holds. *)
Definition zero_absinfo : input_absinfo := mkAbsinfo 0 0 0.

Definition zeroNative : nativeGamepad :=
  {| fd := 0; path := EmptyString;
     keyMap := repeat 0 (Z.to_nat (_KEY_CNT - _BTN_MISC));
     absMap := repeat 0 (Z.to_nat _ABS_CNT);
     absInfo := repeat zero_absinfo (Z.to_nat _ABS_CNT);
     dropped := false;
     axes := repeat 0%float (Z.to_nat _ABS_CNT);
     buttons := repeat false (Z.to_nat (_KEY_CNT - _BTN_MISC));
     hats := repeat 0 4;
     axisCount_ := 0; buttonCount_ := 0; hatCount_ := 0 |}.

(** Field assignments. *)
Definition set_fd (g : nativeGamepad) (v : Z) : nativeGamepad :=
  mkNative v (path g) (keyMap g) (absMap g) (absInfo g) (dropped g) (axes g)
           (buttons g) (hats g) (axisCount_ g) (buttonCount_ g) (hatCount_ g).
Definition set_path (g : nativeGamepad) (v : string) : nativeGamepad :=
  mkNative (fd g) v (keyMap g) (absMap g) (absInfo g) (dropped g) (axes g)
           (buttons g) (hats g) (axisCount_ g) (buttonCount_ g) (hatCount_ g).
Definition set_keyMap (g : nativeGamepad) (v : list Z) : nativeGamepad :=
  mkNative (fd g) (path g) v (absMap g) (absInfo g) (dropped g) (axes g)
           (buttons g) (hats g) (axisCount_ g) (buttonCount_ g) (hatCount_ g).
Definition set_absMap (g : nativeGamepad) (v : list Z) : nativeGamepad :=
  mkNative (fd g) (path g) (keyMap g) v (absInfo g) (dropped g) (axes g)
           (buttons g) (hats g) (axisCount_ g) (buttonCount_ g) (hatCount_ g).
Definition set_absInfo (g : nativeGamepad) (v : list input_absinfo) : nativeGamepad :=
  mkNative (fd g) (path g) (keyMap g) (absMap g) v (dropped g) (axes g)
           (buttons g) (hats g) (axisCount_ g) (buttonCount_ g) (hatCount_ g).
Definition set_dropped (g : nativeGamepad) (v : bool) : nativeGamepad :=
  mkNative (fd g) (path g) (keyMap g) (absMap g) (absInfo g) v (axes g)
           (buttons g) (hats g) (axisCount_ g) (buttonCount_ g) (hatCount_ g).
Definition set_axes (g : nativeGamepad) (v : list float) : nativeGamepad :=
  mkNative (fd g) (path g) (keyMap g) (absMap g) (absInfo g) (dropped g) v
           (buttons g) (hats g) (axisCount_ g) (buttonCount_ g) (hatCount_ g).
Definition set_buttons (g : nativeGamepad) (v : list bool) : nativeGamepad :=
  mkNative (fd g) (path g) (keyMap g) (absMap g) (absInfo g) (dropped g) (axes g)
           v (hats g) (axisCount_ g) (buttonCount_ g) (hatCount_ g).
Definition set_hats (g : nativeGamepad) (v : list Z) : nativeGamepad :=
  mkNative (fd g) (path g) (keyMap g) (absMap g) (absInfo g) (dropped g) (axes g)
           (buttons g) v (axisCount_ g) (buttonCount_ g) (hatCount_ g).
Definition set_counts (g : nativeGamepad) (a b h : Z) : nativeGamepad :=
  mkNative (fd g) (path g) (keyMap g) (absMap g) (absInfo g) (dropped g) (axes g)
           (buttons g) (hats g) a b h.

(** ** Value application: [handleAbsEvent] *)

(** The three-way switch on the sign of a hat axis value: [neg] is the bit
    set by a negative value, [pos] the bit set by a positive one. *)
Definition hatBits (h neg pos v : Z) : Z :=
  if v <? 0 then Z.ldiff (Z.lor h neg) pos
  else if 0 <? v then Z.lor (Z.ldiff h neg) pos
  else Z.ldiff h (Z.lor neg pos).

(** The rescaling of a raw axis value with the stored calibration. *)
Definition normalize (info : input_absinfo) (v : Z) : float :=
  let f := float64_of_int v in
  let r := (float64_of_int (maximum info) - float64_of_int (minimum info))%float in
  if negb (PrimFloat.eqb r 0%float)
  then ((f - float64_of_int (minimum info)) / r * 2 - 1)%float
  else f.

Definition isHatCode (c : Z) : bool := (_ABS_HAT0X <=? c) && (c <=? _ABS_HAT3Y).

Definition handleAbsEvent (g : nativeGamepad) (c v : Z) : option nativeGamepad :=
  index ← idx (absMap g) c;
  if isHatCode c then
    let axis := Z.rem (c - _ABS_HAT0X) 2 in
    match axis with
    | 0 =>
        h ← idx (hats g) index;
        hs ← upd (hats g) index (hatBits h hatLeft hatRight v);
        Some (set_hats g hs)
    | 1 =>
        h ← idx (hats g) index;
        hs ← upd (hats g) index (hatBits h hatUp hatDown v);
        Some (set_hats g hs)
    | _ => Some g
    end
  else
    info ← idx (absInfo g) c;
    ax ← upd (axes g) index (normalize info v);
    Some (set_axes g ax).

(** ** The kernel as an oracle *)

Inductive errno := EACCES | ENOENT | EAGAIN | ENODEV | EOTHER (n : Z).

(** The errors the backend returns, one per [fmt.Errorf] site. *)
Inductive gerror :=
| ErrOpen (e : errno)
| ErrEvBits (e : errno)
| ErrKeyBits (e : errno)
| ErrAbsBits (e : errno)
| ErrID (e : errno)
| ErrAbsOpen (e : errno)
| ErrAbsPoll (e : errno)
| ErrRead (e : errno).

(** The reply to the [n]-th [EVIOCGABS] query of a call, for a code. *)
Definition abs_oracle := nat -> Z -> errno + input_absinfo.

(** ** Resynchronization: [pollAbsState]

    The result is [None] on a panic; otherwise the returned error (if any),
    the gamepad as the call left it and the number of queries made. *)
Fixpoint pollAbsState_from (q : abs_oracle) (codes : list Z) (t : nat)
    (g : nativeGamepad) : option (option gerror * nativeGamepad * nat) :=
  match codes with
  | [] => Some (None, g, t)
  | c :: rest =>
      m ← idx (absMap g) c;
      if m <? 0 then pollAbsState_from q rest t g
      else match q t c with
           | inl e => Some (Some (ErrAbsPoll e), g, S t)
           | inr info =>
               ai ← upd (absInfo g) c info;
               g' ← handleAbsEvent (set_absInfo g ai) c (value info);
               pollAbsState_from q rest (S t) g'
           end
  end.

Definition pollAbsState (q : abs_oracle) (t : nat) (g : nativeGamepad)
  : option (option gerror * nativeGamepad * nat) :=
  pollAbsState_from q (seqZ 0 _ABS_CNT) t g.

(** ** Public queries *)

Definition axisValue (g : nativeGamepad) (axis : Z) : option float :=
  if (axis <? 0) || (axisCount_ g <=? axis) then Some 0%float
  else idx (axes g) axis.

Definition isButtonPressed (g : nativeGamepad) (button : Z) : option bool :=
  if (button <? 0) || (buttonCount_ g <=? button) then Some false
  else idx (buttons g) button.

Definition hatState (g : nativeGamepad) (hat : Z) : option Z :=
  if (hat <? 0) || (hatCount_ g <=? hat) then Some hatCentered
  else idx (hats g) hat.

(** ** Device identity: the synthesized identifier *)

Definition hexdigit (d : Z) : ascii :=
  match d with
  | 0 => "0" | 1 => "1" | 2 => "2" | 3 => "3" | 4 => "4" | 5 => "5"
  | 6 => "6" | 7 => "7" | 8 => "8" | 9 => "9" | 10 => "a" | 11 => "b"
  | 12 => "c" | 13 => "d" | 14 => "e" | 15 => "f" | _ => "?"
  end%char.

(** [fmt.Sprintf("%02x", b)] for a byte [b]. *)
Definition fmt02x (b : Z) : string :=
  String (hexdigit (b / 16)) (String (hexdigit (b mod 16)) EmptyString).

(** [[]byte(name)]. *)
Definition bytes_of_string (s : string) : list Z :=
  map (fun c => Z.of_N (N_of_ascii c)) (list_ascii_of_string s).

(** [unix.ByteSliceToString]: the bytes before the first NUL. *)
Fixpoint ByteSliceToString (s : list byte) : string :=
  match s with
  | [] => EmptyString
  | b :: rest =>
      if Byte.eqb b Byte.x00 then EmptyString
      else String (ascii_of_byte b) (ByteSliceToString rest)
  end.

(** The two branches of the identifier synthesis in [openGamepad]. *)
Definition sdlIDOf (id : input_id) (nm : string) : string :=
  if negb (vendor id =? 0) && negb (product id =? 0) && negb (version id =? 0)
  then
    fmt02x (byte_of (bustype id)) +:+ fmt02x (byte_of (Z.shiftr (bustype id) 8)) +:+ "0000" +:+
    fmt02x (byte_of (vendor id)) +:+ fmt02x (byte_of (Z.shiftr (vendor id) 8)) +:+ "0000" +:+
    fmt02x (byte_of (product id)) +:+ fmt02x (byte_of (Z.shiftr (product id) 8)) +:+ "0000" +:+
    fmt02x (byte_of (version id)) +:+ fmt02x (byte_of (Z.shiftr (version id) 8)) +:+ "0000"
  else
    let bs := bytes_of_string nm in
    let bs := if (length bs <? 12)%nat then bs ++ repeat 0 (12 - length bs) else bs in
    fmt02x (byte_of (bustype id)) +:+ fmt02x (byte_of (Z.shiftr (bustype id) 8)) +:+ "0000" +:+
    fmt02x (nth 0 bs 0) +:+ fmt02x (nth 1 bs 0) +:+ fmt02x (nth 2 bs 0) +:+
    fmt02x (nth 3 bs 0) +:+ fmt02x (nth 4 bs 0) +:+ fmt02x (nth 5 bs 0) +:+
    fmt02x (nth 6 bs 0) +:+ fmt02x (nth 7 bs 0) +:+ fmt02x (nth 8 bs 0) +:+
    fmt02x (nth 9 bs 0) +:+ fmt02x (nth 10 bs 0) +:+ fmt02x (nth 11 bs 0).

(** ** The registry *)

(** Modelled from the spec: the collection of logical gamepads is an
    insertion-order sequence with find-first-matching and add-new; its code
    is the package's platform-independent file. *)
Definition gamepads_find (gs : list Gamepad) (f : Gamepad -> bool) : option Gamepad :=
  List.find f gs.

(** Modelled from the spec: add-new appends a fresh entry and returns it.
    The caller keeps a pointer to the entry, so what it writes afterwards is
    what the registry holds: [registered gs nm sdl g] is the registry with
    the entry added to [gs] in its current state [g]. *)
Definition registered (gs : list Gamepad) (nm sdl : string) (g : nativeGamepad)
  : list Gamepad :=
  gs ++ [mkGamepad nm sdl g].

(** ** Capability probing: [openGamepad] *)

(** The replies of the kernel for one device node.  [dev_name] is what the
    [EVIOCGNAME] request wrote, the other buffers likewise. *)
Record device := mkDevice {
  dev_open : errno + Z;
  dev_evBits : errno + list byte;
  dev_keyBits : errno + list byte;
  dev_absBits : errno + list byte;
  dev_id : errno + input_id;
  dev_name : errno + list byte;
  dev_abs : abs_oracle
}.

(** The [unix.Open] and [unix.Close] calls made so far, latest first. *)
Record sys := mkSys {
  opens : list string;
  closes : list Z
}.

Definition sys_open (s : sys) (p : string) : sys := mkSys (p :: opens s) (closes s).
Definition sys_close (s : sys) (f : Z) : sys := mkSys (opens s) (f :: closes s).

(** The loop over the key codes, [_BTN_MISC <= code < _KEY_CNT]. *)
Fixpoint keyLoop (keyBits : list byte) (codes : list Z) (km : list Z)
    (buttonCount : Z) : option (list Z * Z) :=
  match codes with
  | [] => Some (km, buttonCount)
  | c :: rest =>
      b ← isBitSet keyBits c;
      if negb b then keyLoop keyBits rest km buttonCount
      else km' ← upd km (c - _BTN_MISC) buttonCount;
           keyLoop keyBits rest km' (buttonCount + 1)
  end.

(** The loop over the absolute-axis codes.  Its body advances [code] itself
    (the hat branch), so the loop is a recursion on the code with the number
    of remaining iterations as fuel; [_ABS_CNT] iterations always suffice
    ([absLoop_fuel] below).  [None] is a panic, or the fuel running out. *)
Fixpoint absLoop (fuel : nat) (absBits : list byte) (q : abs_oracle) (c : Z)
    (t : nat) (g : nativeGamepad) (axisCount hatCount : Z)
  : option (option gerror * nativeGamepad * Z * Z * nat) :=
  if negb (c <? _ABS_CNT) then Some (None, g, axisCount, hatCount, t)
  else
    match fuel with
    | O => None
    | S fuel' =>
        am ← upd (absMap g) c (-1);
        let g := set_absMap g am in
        b ← isBitSet absBits c;
        if negb b then absLoop fuel' absBits q (c + 1) t g axisCount hatCount
        else if isHatCode c then
          am ← upd (absMap g) c hatCount;
          (* Skip Y. *)
          absLoop fuel' absBits q (c + 1 + 1) t (set_absMap g am) axisCount (hatCount + 1)
        else
          match q t c with
          | inl e => Some (Some (ErrAbsOpen e), g, axisCount, hatCount, S t)
          | inr info =>
              ai ← upd (absInfo g) c info;
              let g := set_absInfo g ai in
              am ← upd (absMap g) c axisCount;
              absLoop fuel' absBits q (c + 1) (S t) (set_absMap g am) (axisCount + 1) hatCount
          end
    end.

(** The part of [openGamepad] that runs once the registry entry exists:
    the two mapping loops, the counts and the first resynchronization.  The
    result carries the entry's final state. *)
Definition buildMaps (d : device) (keyBits absBits : list byte) (g : nativeGamepad)
  : option (option gerror * nativeGamepad) :=
  '(km, buttonCount) ← keyLoop keyBits (seqZ _BTN_MISC (_KEY_CNT - _BTN_MISC)) (keyMap g) 0;
  let g := set_keyMap g km in
  '(err, g, axisCount, hatCount, t) ←
     absLoop (Z.to_nat _ABS_CNT) absBits (dev_abs d) 0 0 g 0 0;
  match err with
  | Some e => Some (Some e, g)
  | None =>
      let g := set_counts g axisCount buttonCount hatCount in
      '(err, g, _) ← pollAbsState (dev_abs d) t g;
      Some (err, g)
  end.

(** The body of [openGamepad] after a successful [unix.Open]. *)
Definition probeDevice (d : device) (s : sys) (gs : list Gamepad) (p : string)
    (f : Z) : option (option gerror * list Gamepad * sys) :=
  match dev_evBits d with
  | inl e => Some (Some (ErrEvBits e), gs, s)
  | inr ev =>
  let evBits := fill (Z.to_nat (Z.quot (EV_CNT + 7) 8)) ev in
  match dev_keyBits d with
  | inl e => Some (Some (ErrKeyBits e), gs, s)
  | inr kb =>
  let keyBits := fill (Z.to_nat (Z.quot (_KEY_CNT + 7) 8)) kb in
  match dev_absBits d with
  | inl e => Some (Some (ErrAbsBits e), gs, s)
  | inr ab =>
  let absBits := fill (Z.to_nat (Z.quot (_ABS_CNT + 7) 8)) ab in
  match dev_id d with
  | inl e => Some (Some (ErrID e), gs, s)
  | inr id =>
      hasKey ← isBitSet evBits EV_KEY;
      if negb hasKey then Some (None, gs, sys_close s f)
      else
        hasAbs ← isBitSet evBits EV_ABS;
        if negb hasAbs then Some (None, gs, sys_close s f)
        else
          let nm := match dev_name d with
                    | inr cname => ByteSliceToString (fill 256 cname)
                    | inl _ => "Unknown"%string
                    end in
          let sdl := sdlIDOf id nm in
          (* gp := gamepads.add(name, sdlID); gp.path = path; gp.fd = fd *)
          let g := set_fd (set_path zeroNative p) f in
          '(err, g) ← buildMaps d keyBits absBits g;
          Some (err, registered gs nm sdl g, s)
  end end end end.

(** The deferred function: close the handle when an error is returned. *)
Definition deferClose (f : Z) (r : option (option gerror * list Gamepad * sys))
  : option (option gerror * list Gamepad * sys) :=
  match r with
  | Some (Some e, gs, s) => Some (Some e, gs, sys_close s f)
  | _ => r
  end.

Definition openGamepad (w : string -> device) (s : sys) (gs : list Gamepad)
    (p : string) : option (option gerror * list Gamepad * sys) :=
  match gamepads_find gs (fun gp => String.eqb (path (native gp)) p) with
  | Some _ => Some (None, gs, s)
  | None =>
      let s := sys_open s p in
      match dev_open (w p) with
      | inl EACCES => Some (None, gs, s)
      | inl ENOENT => Some (None, gs, s)
      | inl e => Some (Some (ErrOpen e), gs, s)
      | inr f => deferClose f (probeDevice (w p) s gs p f)
      end
  end.

(** ** The per-device event reader: [update] *)

(** One [unix.Read] on the device handle. *)
Inductive read_result := ReadOk (data : list byte) | ReadErr (e : errno).

(** The little-endian decoding of the 24-byte event record; the timestamp
    (bytes 0 to 15) is not used. *)
Definition decode_event (buf : list byte) : input_event :=
  let b i := byteZ (nth i buf Byte.x00) in
  {| typ := Z.lor (b 16%nat) (uint16_wrap (Z.shiftl (b 17%nat) 8));
     code := Z.lor (b 18%nat) (uint16_wrap (Z.shiftl (b 19%nat) 8));
     evalue := Z.lor (Z.lor (Z.lor (b 20%nat) (int32_wrap (Z.shiftl (b 21%nat) 8)))
                            (int32_wrap (Z.shiftl (b 22%nat) 16)))
                     (int32_wrap (Z.shiftl (b 23%nat) 24)) |}.

Definition close (s : sys) (g : nativeGamepad) : nativeGamepad * sys :=
  (set_fd g 0, if fd g =? 0 then s else sys_close s (fd g)).

(** The synchronization switch at the head of the loop body.  The error of
    [pollAbsState] is dropped, as in the source. *)
Definition handleSyn (q : abs_oracle) (t : nat) (g : nativeGamepad)
    (e : input_event) : option (nativeGamepad * nat) :=
  if typ e =? EV_SYN then
    if code e =? _SYN_DROPPED then Some (set_dropped g true, t)
    else if code e =? _SYN_REPORT then
      '(_, g', t') ← pollAbsState q t (set_dropped g false);
      Some (g', t')
    else Some (g, t)
  else Some (g, t).

(** The body of the read loop for one decoded event. *)
Definition processEvent (q : abs_oracle) (t : nat) (g : nativeGamepad)
    (e : input_event) : option (nativeGamepad * nat) :=
  '(g, t) ← handleSyn q t g e;
  if dropped g then Some (g, t)
  else if typ e =? EV_KEY then
    i ← idx (keyMap g) (uint16_wrap (code e - _BTN_MISC));
    bs ← upd (buttons g) i (negb (evalue e =? 0));
    Some (set_buttons g bs, t)
  else if typ e =? EV_ABS then
    g' ← handleAbsEvent g (code e) (evalue e);
    Some (g', t)
  else Some (g, t).

(** The read loop over the device's event queue; a drained queue reads as
    [EAGAIN]. *)
Fixpoint readLoop (q : abs_oracle) (reads : list read_result) (t : nat)
    (s : sys) (g : nativeGamepad) : option (option gerror * nativeGamepad * sys) :=
  match reads with
  | [] => Some (None, g, s)
  | ReadErr EAGAIN :: _ => Some (None, g, s)
  | ReadErr ENODEV :: _ => let '(g', s') := close s g in Some (None, g', s')
  | ReadErr e :: _ => Some (Some (ErrRead e), g, s)
  | ReadOk data :: rest =>
      '(g', t') ← processEvent q t g (decode_event (fill 24 data));
      readLoop q rest t' s g'
  end.

Definition update (q : abs_oracle) (reads : list read_result) (s : sys)
    (g : nativeGamepad) : option (option gerror * nativeGamepad * sys) :=
  if fd g =? 0 then Some (None, g, s) else readLoop q reads 0 s g.

(** ** The device directory watcher: [nativeGamepads] *)

Definition dirName : string := "/dev/input".

(** [reEvent.MatchString] for the pattern [^event[0-9]+$]: the whole text
    is the five letters followed by one or more ASCII digits. *)
Definition isDigit (c : ascii) : bool :=
  let n := Z.of_N (N_of_ascii c) in (48 <=? n) && (n <=? 57).

Fixpoint allDigits (s : string) : bool :=
  match s with
  | EmptyString => true
  | String c rest => isDigit c && allDigits rest
  end.

Fixpoint strip_prefix (p s : string) : option string :=
  match p, s with
  | EmptyString, _ => Some s
  | String a p', String b s' => if Ascii.eqb a b then strip_prefix p' s' else None
  | String _ _, EmptyString => None
  end.

Definition reEvent_MatchString (s : string) : bool :=
  match strip_prefix "event" s with
  | Some (String c rest) => isDigit c && allDigits rest
  | _ => false
  end.

(** [filepath.Join(dirName, name)].  The code joins only names that matched
    [reEvent]; such a name has no separator and no dot element, so the
    cleaning step of [Join] changes nothing and the result is the directory,
    a separator and the name. *)
Definition filepath_Join (dir nm : string) : string := dir +:+ "/" +:+ nm.

(** Modelled from the spec: remove-first-matching of the registry.  The
    source passes the predicate [gamepad == gp], where [gp] is the entry
    [find] returned for the path: the first entry with that path.  Entries
    are values here, so the pointer comparison is the position in the list,
    and the call removes the first entry that satisfies the predicate of the
    preceding [find]. *)
Fixpoint gamepads_remove (gs : list Gamepad) (f : Gamepad -> bool) : list Gamepad :=
  match gs with
  | [] => []
  | gp :: rest => if f gp then rest else gp :: gamepads_remove rest f
  end.

Definition IN_ATTRIB : Z := 4.
Definition IN_CREATE : Z := 256.
Definition IN_DELETE : Z := 512.

Record nativeGamepads := mkNatives {
  inotify : Z;
  watch : Z
}.



(** The errors of the watcher, one per [fmt.Errorf] site; an error of
    [openGamepad] is returned as it is. *)
Inductive werror :=
| ErrStat (e : errno)
| ErrInotifyInit (e : errno)
| ErrAddWatch (e : errno)
| ErrReadDir (e : errno)
| ErrWatchRead (e : errno)
| ErrProbe (e : gerror).



(** The value of a [uint32] after an operation that may overflow. *)
Definition uint32_wrap (z : Z) : Z := z mod 2 ^ 32.

(** Modelled from the spec: the header of a notification record (watch
    identifier, mask, cookie, length of the name field) and the name. *)
Record inotify_event := mkInotify {
  i_wd : Z;
  i_mask : Z;
  i_cookie : Z;
  i_len : Z;
  i_name : string
}.

(** The little-endian decoding of the 16-byte header at the head of the
    buffer. *)
Definition decode_header (buf : list byte) : inotify_event :=
  let b i := byteZ (nth i buf Byte.x00) in
  {| i_wd := Z.lor (Z.lor (Z.lor (b 0%nat) (int32_wrap (Z.shiftl (b 1%nat) 8)))
                          (int32_wrap (Z.shiftl (b 2%nat) 16)))
                   (int32_wrap (Z.shiftl (b 3%nat) 24));
     i_mask := Z.lor (Z.lor (Z.lor (b 4%nat) (uint32_wrap (Z.shiftl (b 5%nat) 8)))
                            (uint32_wrap (Z.shiftl (b 6%nat) 16)))
                     (uint32_wrap (Z.shiftl (b 7%nat) 24));
     i_cookie := Z.lor (Z.lor (Z.lor (b 8%nat) (uint32_wrap (Z.shiftl (b 9%nat) 8)))
                              (uint32_wrap (Z.shiftl (b 10%nat) 16)))
                       (uint32_wrap (Z.shiftl (b 11%nat) 24));
     i_len := Z.lor (Z.lor (Z.lor (b 12%nat) (uint32_wrap (Z.shiftl (b 13%nat) 8)))
                           (uint32_wrap (Z.shiftl (b 14%nat) 16)))
                    (uint32_wrap (Z.shiftl (b 15%nat) 24));
     i_name := EmptyString |}.

(** What the loop of [update] does with a decoded record: the name filter,
    then the create/attribute branch or the delete branch. *)
Definition watchEvent (w : string -> device) (mask : Z) (nm : string) (s : sys)
    (gs : list Gamepad) : option (option gerror * list Gamepad * sys) :=
  if negb (reEvent_MatchString nm) then Some (None, gs, s)
  else
    let p := filepath_Join dirName nm in
    if negb (Z.land mask (Z.lor IN_CREATE IN_ATTRIB) =? 0) then openGamepad w s gs p
    else if negb (Z.land mask IN_DELETE =? 0) then
      match gamepads_find gs (fun gp => String.eqb (path (native gp)) p) with
      | Some gp =>
          let '(_, s') := close s (native gp) in
          Some (None, gamepads_remove gs (fun gp => String.eqb (path (native gp)) p), s')
      | None => Some (None, gs, s)
      end
    else Some (None, gs, s).

(** The loop [for len(buf) > 0].  The slice [buf] is its backing bytes up to
    the capacity ([cap]) and its length [len]: an index expression is
    checked against the length, the upper bound of a slice expression
    against the capacity.  Each iteration that does not panic drops at least
    17 bytes, so the number of iterations is bounded by the length; [fuel]
    is that bound ([watchLoop_fuel] below).  [None] is a panic. *)
Fixpoint watchLoop (fuel : nat) (w : string -> device) (cap : list byte) (len : Z)
    (s : sys) (gs : list Gamepad) : option (option gerror * list Gamepad * sys) :=
  if negb (0 <? len) then Some (None, gs, s)
  else
    match fuel with
    | O => None
    | S fuel' =>
        (* buf[0] ... buf[15] *)
        if len <? 16 then None
        else
          let e := decode_header cap in
          (* buf[16 : 16+e.len-1] *)
          let hi := uint32_wrap (16 + i_len e - 1) in
          if negb ((16 <=? hi) && (hi <=? Z.of_nat (length cap))) then None
          else
            let nm := ByteSliceToString (take (Z.to_nat (hi - 16)) (drop 16 cap)) in
            (* buf = buf[16+e.len:] *)
            let lo := uint32_wrap (16 + i_len e) in
            if negb (lo <=? len) then None
            else
              '(err, gs', s') ← watchEvent w (i_mask e) nm s gs;
              match err with
              | Some e => Some (Some e, gs', s')
              | None => watchLoop fuel' w (drop (Z.to_nat lo) cap) (len - lo) s' gs'
              end
    end.

(** [update] of the watcher.  [rd] is what [unix.Read] on the notification
    handle gives: an error, or the bytes the kernel wrote into the
    16384-byte buffer. *)
Definition nativeGamepads_update (g : nativeGamepads) (rd : errno + list byte)
    (w : string -> device) (s : sys) (gs : list Gamepad)
  : option (option werror * list Gamepad * sys) :=
  if inotify g <=? 0 then Some (None, gs, s)
  else
    match rd with
    | inl EAGAIN => Some (None, gs, s)
    | inl e => Some (Some (ErrWatchRead e), gs, s)
    | inr data =>
        let n := Z.min (Z.of_nat (length data)) 16384 in
        '(err, gs', s') ← watchLoop (Z.to_nat n) w (fill (Z.to_nat 16384) data) n s gs;
        Some (option_map ErrProbe err, gs', s')
    end.

(** ** Well-formed gamepads

    The array lengths are those of the struct's array types; the counts are
    within the arrays they index. *)
Record wf (g : nativeGamepad) : Prop := mkWf {
  wf_keyMap : length (keyMap g) = Z.to_nat (_KEY_CNT - _BTN_MISC);
  wf_absMap : length (absMap g) = Z.to_nat _ABS_CNT;
  wf_absInfo : length (absInfo g) = Z.to_nat _ABS_CNT;
  wf_axes : length (axes g) = Z.to_nat _ABS_CNT;
  wf_buttons : length (buttons g) = Z.to_nat (_KEY_CNT - _BTN_MISC);
  wf_hats : length (hats g) = 4%nat;
  wf_axisCount : 0 <= axisCount_ g <= _ABS_CNT;
  wf_buttonCount : 0 <= buttonCount_ g <= _KEY_CNT - _BTN_MISC;
  wf_hatCount : 0 <= hatCount_ g <= 4
}.

(** ** Vocabulary of the statements *)

(** A direction bit [m] is set in the hat mask [h]. *)
Definition hasDir (h m : Z) : bool := negb (Z.land h m =? 0).

(** At most one of left/right and at most one of up/down. *)
Definition hat_ok (h : Z) : Prop :=
  hasDir h hatLeft && hasDir h hatRight = false /\
  hasDir h hatUp && hasDir h hatDown = false.

(** A sequence of (code, value) pairs applied through [handleAbsEvent]. *)
Fixpoint applyAbsEvents (g : nativeGamepad) (evs : list (Z * Z))
  : option nativeGamepad :=
  match evs with
  | [] => Some g
  | (c, v) :: rest => g' ← handleAbsEvent g c v; applyAbsEvents g' rest
  end.

(** A hat event the gamepad can take: a directional-pad code mapped to one
    of the hats. *)
Definition hatEventFor (g : nativeGamepad) (e : Z * Z) : Prop :=
  isHatCode e.1 = true /\
  exists i, idx (absMap g) e.1 = Some i /\ 0 <= i < Z.of_nat (length (hats g)).

(** The synchronization events with the report-complete and the overflow
    sub-code. *)
Definition isReport (e : input_event) : bool :=
  (typ e =? EV_SYN) && (code e =? _SYN_REPORT).
Definition isOverflow (e : input_event) : bool :=
  (typ e =? EV_SYN) && (code e =? _SYN_DROPPED).


(** The entries of an [absMap]: within the axes array, and within the hats
    array at the directional-pad codes. *)
Definition absmap_ok (am : list Z) : Prop :=
  length am = Z.to_nat _ABS_CNT /\
  forall j m, idx am j = Some m -> m < _ABS_CNT /\ (isHatCode j = true -> m < 4).

(** What the resynchronizer needs of a gamepad in order not to panic. *)
Definition poll_ok (g : nativeGamepad) : Prop :=
  absmap_ok (absMap g) /\ length (absInfo g) = Z.to_nat _ABS_CNT /\
  length (axes g) = Z.to_nat _ABS_CNT /\ length (hats g) = 4%nat.

(** A code is marked present in a capability bitmap. *)
Definition present (bits : list byte) (c : Z) : bool :=
  match isBitSet bits c with
  | Some true => true
  | _ => false
  end.

(** The candidate key codes, in the order of the loop. *)
Definition keyCodes : list Z := seqZ _BTN_MISC (_KEY_CNT - _BTN_MISC).

(** What is fixed at discovery: the two index maps, the three counts, the
    path, and the lengths of the state arrays. *)
Definition sameShape (g g' : nativeGamepad) : Prop :=
  keyMap g' = keyMap g /\ absMap g' = absMap g /\
  axisCount_ g' = axisCount_ g /\ buttonCount_ g' = buttonCount_ g /\
  hatCount_ g' = hatCount_ g /\ path g' = path g /\
  length (absInfo g') = length (absInfo g) /\
  length (axes g') = length (axes g) /\
  length (buttons g') = length (buttons g) /\
  length (hats g') = length (hats g).

(** The X and the Y codes of the directional pads. *)
Definition isHatX (c : Z) : bool :=
  isHatCode c && (Z.rem (c - _ABS_HAT0X) 2 =? 0).
Definition isHatY (c : Z) : bool :=
  isHatCode c && (Z.rem (c - _ABS_HAT0X) 2 =? 1).

(** A bitmap in which no directional pad has its Y code without its X
    code. *)
Definition pairedb (absBits : list byte) : bool :=
  forallb (fun y => implb (present absBits y) (present absBits (y - 1)))
          [17; 19; 21; 23].

(** The present codes that are axes, the present codes that start a hat,
    and the Y codes the loop passes over. *)
Definition axisPresent (absBits : list byte) (c : Z) : bool :=
  present absBits c && negb (isHatCode c).
Definition hatPresent (absBits : list byte) (c : Z) : bool :=
  present absBits c && isHatX c.
Definition skippedY (absBits : list byte) (c : Z) : bool :=
  isHatY c && present absBits (c - 1).

(** The absolute codes from [c] on, in the order of the loop. *)
Definition absCodesFrom (c : Z) : list Z := seqZ c (_ABS_CNT - c).

(** ** Vocabulary of the resynchronization *)

(** A code with an index: its [absMap] entry is not negative. *)
Definition mappedTo (g : nativeGamepad) (c m : Z) : Prop :=
  idx (absMap g) c = Some m /\ 0 <= m.

(** The code has an index. *)
Definition mappedb (g : nativeGamepad) (c : Z) : bool :=
  match idx (absMap g) c with
  | Some m => 0 <=? m
  | None => false
  end.

(** The number of queries the resynchronizer makes for the codes from [lo]
    up to, and without, [c]. *)
Definition queriesFrom (g : nativeGamepad) (lo c : Z) : nat :=
  length (List.filter (mappedb g) (seqZ lo (c - lo))).

(** A directional-pad code of the horizontal axis (an X code). *)
Definition horizontal (c : Z) : bool := Z.rem (c - _ABS_HAT0X) 2 =? 0.

(** The two direction bits of one axis of a hat mask: (left, right) or
    (up, down). *)
Definition dirsOf (hz : bool) (h : Z) : bool * bool :=
  if hz then (hasDir h hatLeft, hasDir h hatRight)
  else (hasDir h hatUp, hasDir h hatDown).

(** The answer [info] to the query of the code [c], of index [m], shows in
    [g']: the calibration record is the answer; the axis holds the rescaled
    current value, and the hat the directions of its sign, unless a later
    code below [c0] wrote the same axis, or the same axis of the same hat. *)
Definition shows (g g' : nativeGamepad) (c0 c m : Z) (info : input_absinfo) : Prop :=
  idx (absInfo g') c = Some info /\
  (isHatCode c = false ->
   (forall c', c < c' < c0 -> isHatCode c' = false -> idx (absMap g) c' <> Some m) ->
   idx (axes g') m = Some (normalize info (value info))) /\
  (isHatCode c = true ->
   (forall c', c < c' < c0 -> isHatCode c' = true -> horizontal c' = horizontal c ->
               idx (absMap g) c' <> Some m) ->
   option_map (dirsOf (horizontal c)) (idx (hats g') m)
   = Some (value info <? 0, 0 <? value info)).

(** What the codes from [lo] up to, and without, [c0] do not reach is in
    [g'] as it is in [g]: the calibration record of every other code and of
    every code without index, the axes that are the index of none of them,
    and each axis of each hat that none of them drives. *)
Definition untouched (g g' : nativeGamepad) (lo c0 : Z) : Prop :=
  (forall c, ~ (lo <= c < c0 /\ mappedb g c = true) ->
             idx (absInfo g') c = idx (absInfo g) c) /\
  (forall i, (forall c, lo <= c < c0 -> isHatCode c = false ->
                        idx (absMap g) c <> Some i) ->
             idx (axes g') i = idx (axes g) i) /\
  (forall i hz, (forall c, lo <= c < c0 -> isHatCode c = true -> horizontal c = hz ->
                           idx (absMap g) c <> Some i) ->
                option_map (dirsOf hz) (idx (hats g') i)
                = option_map (dirsOf hz) (idx (hats g) i)).

(** ** Vocabulary of the registry and of the watcher *)

(** The paths of the registry entries, in registry order. *)
Definition paths (gs : list Gamepad) : list string :=
  map (fun gp => path (native gp)) gs.

(** The predicate of the two [find] calls: the entry has the path [p]. *)
Definition hasPath (p : string) (gp : Gamepad) : bool :=
  String.eqb (path (native gp)) p.

(** The entries of a [keyMap] are button indices. *)
Definition keymap_ok (km : list Z) : Prop :=
  Forall (fun i => 0 <= i < _KEY_CNT - _BTN_MISC) km.

(** What the reader needs of a gamepad: well-formed arrays and counts, and
    index maps with valid entries. *)
Definition valid (g : nativeGamepad) : Prop :=
  wf g /\ poll_ok g /\ keymap_ok (keyMap g).

(** A device node of the input directory: the directory, the separator and
    a name made of the five letters and one or more decimal digits. *)
Definition isEventNode (p : string) : Prop :=
  exists ds, ds <> EmptyString /\ allDigits ds = true /\
             p = "/dev/input/event" +:+ ds.


(** What one step of the watcher may do to the registry and the handles:
    distinct paths stay distinct; the entries are old ones, or new
    well-formed ones at a device node; only device nodes are opened. *)
Record step_ok (s : sys) (gs : list Gamepad) (s' : sys) (gs' : list Gamepad) : Prop := mkStepOk {
  so_nodup : NoDup (paths gs) -> NoDup (paths gs');
  so_entries : forall gp, gp ∈ gs' ->
                 gp ∈ gs \/ (isEventNode (path (native gp)) /\ valid (native gp));
  so_opens : exists new, opens s' = new ++ opens s /\ Forall isEventNode new
}.

(** The byte with the value [z mod 256]. *)
Definition Zbyte (z : Z) : byte :=
  match Byte.of_N (Z.to_N (z mod 256)) with
  | Some b => b
  | None => Byte.x00
  end.

(** A 16-bit and a 32-bit field in little-endian byte order. *)
Definition le16b (z : Z) : list byte := [Zbyte z; Zbyte (z / 2 ^ 8)].
Definition le32b (z : Z) : list byte :=
  [Zbyte z; Zbyte (z / 2 ^ 8); Zbyte (z / 2 ^ 16); Zbyte (z / 2 ^ 24)].

(** The bytes of a string. *)
Definition string_bytes (s : string) : list byte :=
  map byte_of_ascii (list_ascii_of_string s).

(** The event record the kernel delivers: a 16-byte timestamp, the type,
    the code and the value. *)
Definition event_bytes (ts : list byte) (e : input_event) : list byte :=
  ts ++ le16b (typ e) ++ le16b (code e) ++ le32b (evalue e).

(** A notification as the kernel writes it: the header fields, the name and
    the number of NUL bytes that end and pad the name field. *)
Record notification := mkNote {
  n_wd : Z;
  n_mask : Z;
  n_cookie : Z;
  n_name : string;
  n_pad : nat
}.

Definition note_bytes (n : notification) : list byte :=
  le32b (n_wd n) ++ le32b (n_mask n) ++ le32b (n_cookie n) ++
  le32b (Z.of_nat (String.length (n_name n) + n_pad n)) ++
  string_bytes (n_name n) ++ repeat Byte.x00 (n_pad n).

(** The string holds no NUL character. *)
Fixpoint noNul (s : string) : bool :=
  match s with
  | EmptyString => true
  | String c rest => negb (Ascii.eqb c Ascii.zero) && noNul rest
  end.

(** A well-formed notification: a 32-bit mask, a name without NUL, at least
    the terminating NUL after it. *)
Definition note_ok (n : notification) : Prop :=
  0 <= n_mask n < 2 ^ 32 /\ (1 <= n_pad n)%nat /\ noNul (n_name n) = true.

(** The decoded records handled in order, up to the first error. *)
Fixpoint watchEvents (w : string -> device) (evs : list (Z * string)) (s : sys)
    (gs : list Gamepad) : option (option gerror * list Gamepad * sys) :=
  match evs with
  | [] => Some (None, gs, s)
  | (mask, nm) :: rest =>
      '(err, gs', s') ← watchEvent w mask nm s gs;
      match err with
      | Some e => Some (Some e, gs', s')
      | None => watchEvents w rest s' gs'
      end
  end.

(** ** Sample devices *)

(** A device node that opens as handle 3 and answers every query: event
    types [ev], key codes [kb], absolute codes [ab], a fixed identity and
    name, and the calibration replies [q]. *)
Definition sampleDevice (ev kb ab : list byte) (q : abs_oracle) : device :=
  mkDevice (inr 3) (inr ev) (inr kb) (inr ab)
           (inr (mkInputID 3 1118 654 276))
           (inr [Byte.x50; Byte.x61; Byte.x64]) q.

Definition samplePath : string := "/dev/input/event0".

Definition noCalls : sys := mkSys [] [].

(** Every calibration query answers value 5 in the range 0..10. *)
Definition steadyAbs : abs_oracle := fun _ _ => inr (mkAbsinfo 5 0 10).

(** Every calibration query fails. *)
Definition failingAbs : abs_oracle := fun _ _ => inl (EOTHER 5).

(** The first calibration query succeeds, the later ones fail. *)
Definition failingLater : abs_oracle :=
  fun t _ => match t with O => inr (mkAbsinfo 5 0 10) | S _ => inl (EOTHER 5) end.

(** What a call of [openGamepad] left behind: the returned error, the path
    and handle of every registry entry, and the handles closed. *)
Definition outcome (r : option (option gerror * list Gamepad * sys))
  : option (option gerror * list (string * Z) * list Z) :=
  '(e, gs, s) ← r;
  Some (e, map (fun gp => (path (native gp), fd (native gp))) gs, closes s).

(** The index maps a call of [openGamepad] built: per registry entry the
    axis and hat counts and the [absMap] entries of the codes [cs]. *)
Definition absMapping (cs : list Z) (r : option (option gerror * list Gamepad * sys))
  : option (option gerror * list (Z * Z * list (option Z))) :=
  '(e, gs, _) ← r;
  Some (e, map (fun gp => (axisCount_ (native gp), hatCount_ (native gp),
                           map (idx (absMap (native gp))) cs)) gs).

(** A gamepad with two axes: what [buildMaps] leaves for a device that
    reports the absolute codes 0 and 1 and answers every calibration query
    with the value 5 in the range 0..10.  Both axes are at 0.0. *)
Definition twoAxisPad : nativeGamepad :=
  match buildMaps (sampleDevice [Byte.x0a] [] [Byte.x03] steadyAbs)
                  (fill (Z.to_nat (Z.quot (_KEY_CNT + 7) 8)) [])
                  (fill (Z.to_nat (Z.quot (_ABS_CNT + 7) 8)) [Byte.x03])
                  (set_fd (set_path zeroNative samplePath) 3) with
  | Some (_, g) => g
  | None => zeroNative
  end.

(** Every axis is at its maximum (value 10 in the range 0..10); the second
    query of a call fails. *)
Definition secondFails : abs_oracle :=
  fun t _ => match t with
             | 1%nat => inl (EOTHER 5)
             | _ => inr (mkAbsinfo 10 0 10)
             end.

(** The event records of an overflow and of a report-complete event. *)
Definition overflowRecord : list byte :=
  repeat Byte.x00 16 ++ [Byte.x00; Byte.x00; Byte.x03; Byte.x00;
                         Byte.x00; Byte.x00; Byte.x00; Byte.x00].
Definition reportRecord : list byte := repeat Byte.x00 24.


(** Every device node is a gamepad with two axes that opens as handle 3. *)
Definition sampleWorld : string -> device :=
  fun _ => sampleDevice [Byte.x0a] [] [Byte.x03] steadyAbs.

(** A watcher whose notification handle is 4 and whose watch is 1. *)
Definition watching : nativeGamepads := mkNatives 4 1.

(** The notifications of the arrival and of the removal of the node
    [event0], the name field padded to 16 bytes. *)
Definition arrival : notification := mkNote 1 IN_CREATE 0 "event0" 10.
Definition removal : notification := mkNote 1 IN_DELETE 0 "event0" 10.

(** The registry and the calls after the arrival of [event0] at an empty
    registry. *)
Definition arrivedPads : list Gamepad :=
  match watchEvent sampleWorld IN_CREATE "event0" noCalls [] with
  | Some (_, gs, _) => gs
  | None => []
  end.

(** A gamepad with one button, one axis and one hat in use. *)
Definition smallPad : nativeGamepad := set_counts (set_fd zeroNative 3) 1 1 1.

(** The event record of a key event: code 256 (the first button), value 1. *)
Definition keyRecord : list byte :=
  repeat Byte.x00 16 ++ [Byte.x01; Byte.x00; Byte.x00; Byte.x01;
                         Byte.x01; Byte.x00; Byte.x00; Byte.x00].

(** Reading an identifier back: the value of a lowercase hexadecimal digit,
    and the bytes a string of such digits spells, two digits per byte.
    Anything else (an odd length, an uppercase or foreign character) is
    [None]. *)
Definition hexval (c : ascii) : option Z :=
  let n := Z.of_N (N_of_ascii c) in
  if (48 <=? n) && (n <=? 57) then Some (n - 48)
  else if (97 <=? n) && (n <=? 102) then Some (n - 87)
  else None.

Fixpoint unhex (s : string) : option (list Z) :=
  match s with
  | EmptyString => Some []
  | String a (String b rest) =>
      hi ← hexval a; lo ← hexval b; bs ← unhex rest; Some (16 * hi + lo :: bs)
  | String _ EmptyString => None
  end.

(** A 16-bit field in little-endian byte order. *)
Definition le16 (x : Z) : list Z := [x mod 256; x / 256].

(** ** Binary64 numbers that are integers *)

(** The conversion of an integer as the IEEE 754 specification of the
    standard library states it. *)
Definition Z2SF (z : Z) : spec_float := binary_normalize prec emax z 0 false.

(** The mantissa and the exponent of the binary64 number that represents a
    positive integer of at most 53 bits. *)
Definition mant (z : Z) : positive := Z.to_pos (z * 2 ^ (prec - Zdigits2 z)).
Definition expo (z : Z) : Z := Zdigits2 z - prec.

(** The exact binary64 representation of an integer of at most 53 bits. *)
Definition repr (z : Z) : spec_float :=
  if z =? 0 then S754_zero false
  else S754_finite (z <? 0) (mant (Z.abs z)) (expo (Z.abs z)).

(** The range of an [int32]. *)
Definition in_int32 (z : Z) : Prop := - 2 ^ 31 <= z < 2 ^ 31.

(** ** Proof automation *)

(** One step through an option bind whose argument is known. *)
Ltac bind_step := unfold mbind, option_bind; cbv beta iota.
Ltac bind_in H := unfold mbind, option_bind in H; cbv beta iota in H.

(** The direction bits as powers of two. *)
Ltac pow2_dirs :=
  change hatLeft with (2 ^ 3) in *; change hatRight with (2 ^ 1) in *;
  change hatUp with (2 ^ 0) in *; change hatDown with (2 ^ 2) in *.

(** Side conditions and exits of the absolute-axis loop. *)
Ltac loop_side :=
  first [ assumption
        | simpl; assumption
        | simpl; rewrite length_insert; assumption
        | unfold _ABS_CNT, _ABS_HAT0X in *; simpl; lia ].

Ltac loop_exit :=
  split; [reflexivity|];
  split; [assumption|]; split; [assumption|];
  split; [lia|]; split; [lia|]; simpl; tauto.

(** * Properties *)

(** ** Indexing *)

Lemma idx_Some {A : Type} (l : list A) (i : Z) :
  0 <= i < Z.of_nat (length l) -> is_Some (idx l i).
Proof.
  intros H. unfold idx.
  destruct (Z.ltb_spec i 0) as [Hn|Hn]; [lia|].
  apply lookup_lt_is_Some. lia.
Qed.

Lemma idx_Some_inv {A : Type} (l : list A) (i : Z) (x : A) :
  idx l i = Some x -> 0 <= i < Z.of_nat (length l).
Proof.
  unfold idx. destruct (Z.ltb_spec i 0) as [Hn|Hn]; [discriminate|].
  intros H. apply lookup_lt_Some in H. lia.
Qed.

Lemma upd_Some {A : Type} (l : list A) (i : Z) (v : A) :
  0 <= i < Z.of_nat (length l) -> upd l i v = Some (<[Z.to_nat i := v]> l).
Proof.
  intros H. unfold upd.
  destruct (Z.leb_spec 0 i); [|lia].
  destruct (Z.ltb_spec i (Z.of_nat (length l))); [reflexivity|lia].
Qed.

Lemma upd_inv {A : Type} (l l' : list A) (i : Z) (v : A) :
  upd l i v = Some l' ->
  0 <= i < Z.of_nat (length l) /\ l' = <[Z.to_nat i := v]> l.
Proof.
  unfold upd.
  destruct (Z.leb_spec 0 i); simpl; [|discriminate].
  destruct (Z.ltb_spec i (Z.of_nat (length l))); [|discriminate].
  intros [= <-]. split; [lia|reflexivity].
Qed.

Lemma upd_length {A : Type} (l l' : list A) (i : Z) (v : A) :
  upd l i v = Some l' -> length l' = length l.
Proof.
  intros H. apply upd_inv in H as [_ ->]. apply length_insert.
Qed.

Lemma idx_upd_eq {A : Type} (l l' : list A) (i : Z) (v : A) :
  upd l i v = Some l' -> idx l' i = Some v.
Proof.
  intros H. apply upd_inv in H as [Hi ->]. unfold idx.
  destruct (Z.ltb_spec i 0); [lia|].
  apply list_lookup_insert_eq. lia.
Qed.

Lemma idx_upd_ne {A : Type} (l l' : list A) (i j : Z) (v : A) :
  upd l i v = Some l' -> i <> j -> idx l' j = idx l j.
Proof.
  intros H Hne. apply upd_inv in H as [Hi ->]. unfold idx.
  destruct (Z.ltb_spec j 0); [reflexivity|].
  apply list_lookup_insert_ne. lia.
Qed.

(** ** The public queries (C10) *)

Lemma wf_zeroNative : wf zeroNative.
Proof. constructor; vm_compute; try reflexivity; split; discriminate. Qed.

(** C10.  On a well-formed gamepad (array lengths as declared, counts within
    the arrays) the three index queries never panic, whatever the index, and
    an index below zero or at or above the corresponding count yields the
    neutral value: [0] for an axis, [false] for a button, the centered mask
    for a hat. *)
Theorem queries_total (g : nativeGamepad) (i : Z) (Hwf : wf g) :
  is_Some (axisValue g i) /\ is_Some (isButtonPressed g i) /\
  is_Some (hatState g i) /\
  (i < 0 \/ axisCount_ g <= i -> axisValue g i = Some 0%float) /\
  (i < 0 \/ buttonCount_ g <= i -> isButtonPressed g i = Some false) /\
  (i < 0 \/ hatCount_ g <= i -> hatState g i = Some hatCentered).
Proof.
  destruct Hwf as [Hk Hm Hi Ha Hb Hh Hac Hbc Hhc].
  unfold axisValue, isButtonPressed, hatState.
  repeat split.
  - destruct (Z.ltb_spec i 0); simpl; [eauto|].
    destruct (Z.leb_spec (axisCount_ g) i); simpl; [eauto|].
    apply idx_Some. rewrite Ha. lia.
  - destruct (Z.ltb_spec i 0); simpl; [eauto|].
    destruct (Z.leb_spec (buttonCount_ g) i); simpl; [eauto|].
    apply idx_Some. rewrite Hb. lia.
  - destruct (Z.ltb_spec i 0); simpl; [eauto|].
    destruct (Z.leb_spec (hatCount_ g) i); simpl; [eauto|].
    apply idx_Some. rewrite Hh. lia.
  - intros H. destruct (Z.ltb_spec i 0); simpl; [reflexivity|].
    destruct (Z.leb_spec (axisCount_ g) i); simpl; [reflexivity|lia].
  - intros H. destruct (Z.ltb_spec i 0); simpl; [reflexivity|].
    destruct (Z.leb_spec (buttonCount_ g) i); simpl; [reflexivity|lia].
  - intros H. destruct (Z.ltb_spec i 0); simpl; [reflexivity|].
    destruct (Z.leb_spec (hatCount_ g) i); simpl; [reflexivity|lia].
Qed.

(** ** Duplicate paths (C9) *)

Lemma find_present (gs : list Gamepad) (f : Gamepad -> bool) (gp : Gamepad) :
  gp ∈ gs -> f gp = true -> is_Some (gamepads_find gs f).
Proof.
  intros Hin Hf. unfold gamepads_find.
  destruct (List.find f gs) eqn:E; [eauto|].
  apply list_elem_of_In in Hin.
  pose proof (List.find_none f gs E gp Hin). congruence.
Qed.

(** C9.  When the registry already holds a gamepad with the given path,
    [openGamepad] returns no error, makes no system call (no handle is
    opened or closed) and returns the registry as it was, so the existing
    entry keeps its state. *)
Theorem openGamepad_duplicate (w : string -> device) (s : sys)
    (gs : list Gamepad) (p : string) (gp : Gamepad)
    (Hin : gp ∈ gs) (Hpath : path (native gp) = p) :
  openGamepad w s gs p = Some (None, gs, s).
Proof.
  unfold openGamepad.
  destruct (find_present gs (fun gp => String.eqb (path (native gp)) p) gp Hin)
    as [x ->]; [|reflexivity].
  apply String.eqb_eq. exact Hpath.
Qed.

(** ** Hat masks (C7) *)

Lemma hasDir_testbit (h k : Z) : 0 <= k -> hasDir h (2 ^ k) = Z.testbit h k.
Proof.
  intros Hk. unfold hasDir.
  destruct (Z.testbit h k) eqn:E.
  - assert (Hb : Z.testbit (Z.land h (2 ^ k)) k = true).
    { rewrite Z.land_spec, E, Z.pow2_bits_true by lia. reflexivity. }
    destruct (Z.eqb_spec (Z.land h (2 ^ k)) 0) as [H0|H0]; [|reflexivity].
    rewrite H0, Z.bits_0 in Hb. discriminate.
  - assert (H0 : Z.land h (2 ^ k) = 0).
    { apply Z.bits_inj'. intros n Hn.
      rewrite Z.land_spec, Z.bits_0, Z.pow2_bits_eqb by lia.
      destruct (Z.eqb_spec k n) as [->|]; [rewrite E|]; auto using andb_false_r. }
    rewrite H0. reflexivity.
Qed.

Lemma hatBits_testbit (h a b v k : Z) :
  0 <= a -> 0 <= b -> 0 <= k ->
  Z.testbit (hatBits h (2 ^ a) (2 ^ b) v) k =
  if v <? 0 then (Z.testbit h k || (a =? k)) && negb (b =? k)
  else if 0 <? v then (Z.testbit h k && negb (a =? k)) || (b =? k)
  else Z.testbit h k && negb ((a =? k) || (b =? k)).
Proof.
  intros Ha Hb Hk. unfold hatBits.
  destruct (v <? 0); [|destruct (0 <? v)];
    rewrite ?Z.ldiff_spec, ?Z.lor_spec, ?Z.ldiff_spec, ?Z.lor_spec,
            ?Z.pow2_bits_eqb by lia; reflexivity.
Qed.

(** The effect of one switch on a pair of direction bits [2^a] (negative
    values) and [2^b] (positive values): the pair is set as the sign says and
    every other bit keeps its value. *)
Lemma hatBits_pair (h a b v : Z) :
  0 <= a -> 0 <= b -> a <> b ->
  let h' := hatBits h (2 ^ a) (2 ^ b) v in
  (v < 0 -> hasDir h' (2 ^ a) = true /\ hasDir h' (2 ^ b) = false) /\
  (0 < v -> hasDir h' (2 ^ a) = false /\ hasDir h' (2 ^ b) = true) /\
  (v = 0 -> hasDir h' (2 ^ a) = false /\ hasDir h' (2 ^ b) = false) /\
  (forall k, 0 <= k -> k <> a -> k <> b -> hasDir h' (2 ^ k) = hasDir h (2 ^ k)).
Proof.
  intros Ha Hb Hab h'. subst h'.
  assert (Eab : (a =? b) = false) by (apply Z.eqb_neq; lia).
  assert (Eba : (b =? a) = false) by (apply Z.eqb_neq; lia).
  repeat split; intros;
    rewrite ?hasDir_testbit, hatBits_testbit by lia;
    (destruct (Z.ltb_spec v 0); [|destruct (Z.ltb_spec 0 v)]); try lia;
    rewrite ?Z.eqb_refl, ?Eab, ?Eba;
    try (assert (Eak : (a =? k) = false) by (apply Z.eqb_neq; lia);
         assert (Ebk : (b =? k) = false) by (apply Z.eqb_neq; lia);
         rewrite Eak, Ebk);
    destruct (Z.testbit h _); reflexivity.
Qed.

Lemma hatBits_X_ok (h v : Z) : hat_ok h -> hat_ok (hatBits h hatLeft hatRight v).
Proof.
  unfold hat_ok. pow2_dirs. intros [_ Hud].
  destruct (hatBits_pair h 3 1 v) as (Hn & Hp & Hz & Hk); [lia..|].
  split.
  - destruct (Z.lt_trichotomy v 0) as [Hv|[Hv|Hv]].
    + destruct (Hn Hv) as [-> ->]. reflexivity.
    + destruct (Hz Hv) as [-> ->]. reflexivity.
    + destruct (Hp Hv) as [-> ->]. reflexivity.
  - rewrite (Hk 0), (Hk 2) by lia. exact Hud.
Qed.

Lemma hatBits_Y_ok (h v : Z) : hat_ok h -> hat_ok (hatBits h hatUp hatDown v).
Proof.
  unfold hat_ok. pow2_dirs. intros [Hlr _].
  destruct (hatBits_pair h 0 2 v) as (Hn & Hp & Hz & Hk); [lia..|].
  split.
  - rewrite (Hk 3), (Hk 1) by lia. exact Hlr.
  - destruct (Z.lt_trichotomy v 0) as [Hv|[Hv|Hv]].
    + destruct (Hn Hv) as [-> ->]. reflexivity.
    + destruct (Hz Hv) as [-> ->]. reflexivity.
    + destruct (Hp Hv) as [-> ->]. reflexivity.
Qed.

Lemma isHatCode_inv (c : Z) :
  isHatCode c = true -> _ABS_HAT0X <= c <= _ABS_HAT3Y.
Proof. unfold isHatCode. intros H. apply andb_true_iff in H. lia. Qed.

Lemma hat_axis_cases (c : Z) :
  isHatCode c = true ->
  Z.rem (c - _ABS_HAT0X) 2 = 0 \/ Z.rem (c - _ABS_HAT0X) 2 = 1.
Proof.
  intros H. apply isHatCode_inv in H. unfold _ABS_HAT0X, _ABS_HAT3Y in *.
  assert (Hc : c = 16 \/ c = 17 \/ c = 18 \/ c = 19 \/ c = 20 \/ c = 21 \/
               c = 22 \/ c = 23) by lia.
  destruct Hc as [->|[->|[->|[->|[->|[->|[->| ->]]]]]]]; vm_compute; auto.
Qed.

(** What [handleAbsEvent] does on a directional-pad code mapped to an
    existing hat. *)
Lemma handleAbsEvent_hat (g : nativeGamepad) (c v i h : Z) :
  isHatCode c = true -> idx (absMap g) c = Some i -> idx (hats g) i = Some h ->
  handleAbsEvent g c v =
  Some (set_hats g (<[Z.to_nat i :=
     if Z.rem (c - _ABS_HAT0X) 2 =? 0 then hatBits h hatLeft hatRight v
     else hatBits h hatUp hatDown v]> (hats g))).
Proof.
  intros Hc Hi Hh. unfold handleAbsEvent. rewrite Hi. simpl. rewrite Hc.
  pose proof (idx_Some_inv _ _ _ Hh) as Hr.
  destruct (hat_axis_cases c Hc) as [E|E]; rewrite E; simpl; rewrite Hh; simpl;
    rewrite (upd_Some (hats g) i _ Hr); reflexivity.
Qed.

Lemma Forall_insert_ok (l : list Z) (n : nat) (x : Z) :
  Forall hat_ok l -> hat_ok x -> Forall hat_ok (<[n := x]> l).
Proof.
  intros Hl Hx. revert n. induction Hl; intros [|n]; simpl; constructor; auto.
Qed.

(** C7.  (1) An event on a directional-pad code mapped to hat [i] replaces
    that hat's mask [h] by [h']: on an X code a negative value sets left and
    clears right, a positive value sets right and clears left, zero clears
    both, and up/down keep their values; on a Y code the same holds with up
    (negative) and down (positive), and left/right keep their values.
    (2) Hence from masks with at most one of left/right and at most one of
    up/down, every sequence of such events runs without panic and leaves
    every hat with at most one of left/right and at most one of up/down. *)
Theorem hat_mask_exclusive :
  (forall (g : nativeGamepad) (c v i h : Z),
     isHatCode c = true -> idx (absMap g) c = Some i -> idx (hats g) i = Some h ->
     exists h',
       handleAbsEvent g c v = Some (set_hats g (<[Z.to_nat i := h']> (hats g))) /\
       (Z.rem (c - _ABS_HAT0X) 2 = 0 ->
          (v < 0 -> hasDir h' hatLeft = true /\ hasDir h' hatRight = false) /\
          (0 < v -> hasDir h' hatLeft = false /\ hasDir h' hatRight = true) /\
          (v = 0 -> hasDir h' hatLeft = false /\ hasDir h' hatRight = false) /\
          hasDir h' hatUp = hasDir h hatUp /\ hasDir h' hatDown = hasDir h hatDown) /\
       (Z.rem (c - _ABS_HAT0X) 2 = 1 ->
          (v < 0 -> hasDir h' hatUp = true /\ hasDir h' hatDown = false) /\
          (0 < v -> hasDir h' hatUp = false /\ hasDir h' hatDown = true) /\
          (v = 0 -> hasDir h' hatUp = false /\ hasDir h' hatDown = false) /\
          hasDir h' hatLeft = hasDir h hatLeft /\ hasDir h' hatRight = hasDir h hatRight)) /\
  (forall (g : nativeGamepad) (evs : list (Z * Z)),
     Forall hat_ok (hats g) -> Forall (hatEventFor g) evs ->
     exists g', applyAbsEvents g evs = Some g' /\ Forall hat_ok (hats g')).
Proof.
  split.
  - intros g c v i h Hc Hi Hh.
    eexists. split; [apply (handleAbsEvent_hat g c v i h Hc Hi Hh)|].
    split; intros E; rewrite E; simpl.
    + pow2_dirs.
      destruct (hatBits_pair h 3 1 v) as (Hn & Hp & Hz & Hk); [lia..|].
      split; [exact Hn|]. split; [exact Hp|]. split; [exact Hz|].
      split; [apply (Hk 0); lia | apply (Hk 2); lia].
    + pow2_dirs.
      destruct (hatBits_pair h 0 2 v) as (Hn & Hp & Hz & Hk); [lia..|].
      split; [exact Hn|]. split; [exact Hp|]. split; [exact Hz|].
      split; [apply (Hk 3); lia | apply (Hk 1); lia].
  - intros g evs. revert g. induction evs as [|[c v] evs IH]; intros g Hok Hev.
    + exists g. split; [reflexivity|exact Hok].
    + apply Forall_cons in Hev as [[Hc (i & Hi & Hr)] Hev]. simpl in Hc, Hi.
      destruct (idx_Some (hats g) i Hr) as [h Hh].
      simpl. rewrite (handleAbsEvent_hat g c v i h Hc Hi Hh). simpl.
      apply IH.
      * simpl. apply Forall_insert_ok; [exact Hok|].
        assert (Hh' : hat_ok h).
        { unfold idx in Hh. destruct (i <? 0); [discriminate|].
          eapply Forall_lookup_1; eauto. }
        destruct (Z.rem (c - _ABS_HAT0X) 2 =? 0);
          [apply hatBits_X_ok | apply hatBits_Y_ok]; exact Hh'.
      * eapply Forall_impl; [exact Hev|].
        intros e [He (j & Hj & Hjr)]. split; [exact He|].
        exists j. simpl. rewrite length_insert. auto.
Qed.

Lemma hat_mask_exclusive_witness :
  Forall hat_ok (hats zeroNative) /\
  Forall (hatEventFor zeroNative) [(16, -1); (17, 1); (16, 1)] /\
  exists g',
    applyAbsEvents zeroNative [(16, -1); (17, 1); (16, 1)] = Some g' /\
    Forall hat_ok (hats g').
Proof.
  assert (H1 : Forall hat_ok (hats zeroNative)).
  { change (hats zeroNative) with [0; 0; 0; 0].
    repeat (apply List.Forall_cons; [split; reflexivity|]). apply List.Forall_nil. }
  assert (H2 : Forall (hatEventFor zeroNative) [(16, -1); (17, 1); (16, 1)]).
  { repeat (apply List.Forall_cons; [split; [reflexivity|exists 0; split;
      [reflexivity|simpl; lia]]|]). apply List.Forall_nil. }
  split; [exact H1|]. split; [exact H2|].
  exact (proj2 hat_mask_exclusive zeroNative _ H1 H2).
Defined.

(** ** What the reader leaves alone *)

Lemma handleAbsEvent_frame (g g' : nativeGamepad) (c v : Z) :
  handleAbsEvent g c v = Some g' ->
  dropped g' = dropped g /\ absMap g' = absMap g /\ keyMap g' = keyMap g /\
  buttons g' = buttons g /\ fd g' = fd g /\ path g' = path g /\
  axisCount_ g' = axisCount_ g /\ buttonCount_ g' = buttonCount_ g /\
  hatCount_ g' = hatCount_ g /\ absInfo g' = absInfo g.
Proof.
  unfold handleAbsEvent. intros H.
  destruct (idx (absMap g) c) as [i|]; simpl in H; [|discriminate].
  destruct (isHatCode c).
  - destruct (Z.rem (c - _ABS_HAT0X) 2) as [|[| |]|];
      try (injection H as <-; tauto);
      destruct (idx (hats g) i); simpl in H; try discriminate;
      destruct (upd (hats g) i _); simpl in H; try discriminate;
      injection H as <-; simpl; tauto.
  - destruct (idx (absInfo g) c); simpl in H; [|discriminate].
    destruct (upd (axes g) i _); simpl in H; [|discriminate].
    injection H as <-. simpl. tauto.
Qed.

Lemma pollAbsState_from_frame (q : abs_oracle) (codes : list Z) (t t' : nat)
    (g g' : nativeGamepad) (err : option gerror) :
  pollAbsState_from q codes t g = Some (err, g', t') ->
  dropped g' = dropped g /\ absMap g' = absMap g /\ keyMap g' = keyMap g /\
  buttons g' = buttons g /\ fd g' = fd g /\ path g' = path g /\
  axisCount_ g' = axisCount_ g /\ buttonCount_ g' = buttonCount_ g /\
  hatCount_ g' = hatCount_ g.
Proof.
  revert t g. induction codes as [|c rest IH]; intros t g H; simpl in H.
  - injection H as _ <- _. tauto.
  - destruct (idx (absMap g) c) as [m|]; simpl in H; [|discriminate].
    destruct (m <? 0); [apply IH in H; exact H|].
    destruct (q t c) as [e|info].
    + injection H as _ <- _. tauto.
    + destruct (upd (absInfo g) c info) as [ai|]; simpl in H; [|discriminate].
      destruct (handleAbsEvent (set_absInfo g ai) c (value info)) as [g1|] eqn:E;
        simpl in H; [|discriminate].
      apply IH in H. apply handleAbsEvent_frame in E. simpl in E.
      intuition congruence.
Qed.

Lemma pollAbsState_frame (q : abs_oracle) (t t' : nat) (g g' : nativeGamepad)
    (err : option gerror) :
  pollAbsState q t g = Some (err, g', t') ->
  dropped g' = dropped g /\ absMap g' = absMap g /\ keyMap g' = keyMap g /\
  buttons g' = buttons g /\ fd g' = fd g /\ path g' = path g /\
  axisCount_ g' = axisCount_ g /\ buttonCount_ g' = buttonCount_ g /\
  hatCount_ g' = hatCount_ g.
Proof. unfold pollAbsState. apply pollAbsState_from_frame. Qed.

Lemma set_dropped_same (g : nativeGamepad) : set_dropped g (dropped g) = g.
Proof. destruct g. reflexivity. Qed.

Lemma processEvent_discard (q : abs_oracle) (t : nat) (g : nativeGamepad)
    (e : input_event) :
  dropped g = true -> isReport e = false -> processEvent q t g e = Some (g, t).
Proof.
  intros Hd Hr. unfold processEvent, handleSyn, isReport in *.
  assert (Hg : set_dropped g true = g)
    by (rewrite <- Hd; apply set_dropped_same).
  destruct (typ e =? EV_SYN); simpl in Hr.
  - destruct (code e =? _SYN_DROPPED).
    + rewrite Hg. cbn. rewrite Hd. reflexivity.
    + rewrite Hr. cbn. rewrite Hd. reflexivity.
  - cbn. rewrite Hd. reflexivity.
Qed.


(** ** The prober runs to completion *)

Lemma fill_length (n : nat) (data : list byte) : length (fill n data) = n.
Proof.
  unfold fill. rewrite length_take, length_app, repeat_length. lia.
Qed.

Lemma isBitSet_Some (s : list byte) (bit : Z) :
  0 <= bit < 8 * Z.of_nat (length s) -> is_Some (isBitSet s bit).
Proof.
  intros H. unfold isBitSet.
  destruct (Z.ltb_spec bit 0); [lia|].
  destruct (idx_Some s (Z.quot bit 8)) as [b Hb].
  - rewrite Z.quot_div_nonneg by lia. split.
    + apply Z.div_pos; lia.
    + apply Z.div_lt_upper_bound; lia.
  - rewrite Hb. simpl. eauto.
Qed.

Lemma keyLoop_total (keyBits : list byte) (codes : list Z) (km : list Z) (bc : Z) :
  Forall (fun c => _BTN_MISC <= c < _KEY_CNT) codes ->
  length keyBits = Z.to_nat (Z.quot (_KEY_CNT + 7) 8) ->
  length km = Z.to_nat (_KEY_CNT - _BTN_MISC) ->
  exists km' bc',
    keyLoop keyBits codes km bc = Some (km', bc') /\
    length km' = Z.to_nat (_KEY_CNT - _BTN_MISC) /\
    bc <= bc' <= bc + Z.of_nat (length codes).
Proof.
  intros Hc Hk. revert km bc.
  induction Hc as [|c codes Hr Hc IH]; intros km bc Hm; simpl.
  - exists km, bc. split; [reflexivity|]. split; [exact Hm|lia].
  - destruct (isBitSet_Some keyBits c) as [b Hb].
    { rewrite Hk. unfold _BTN_MISC, _KEY_CNT in *. vm_compute Z.to_nat. lia. }
    rewrite Hb. simpl. destruct b; simpl.
    + rewrite (upd_Some km (c - _BTN_MISC) bc).
      2:{ rewrite Hm. unfold _BTN_MISC, _KEY_CNT in *. lia. }
      simpl. destruct (IH (<[Z.to_nat (c - _BTN_MISC) := bc]> km) (bc + 1))
        as (km' & bc' & E & Hl & Hb').
      { rewrite length_insert. exact Hm. }
      exists km', bc'. split; [exact E|]. split; [exact Hl|lia].
    + destruct (IH km bc Hm) as (km' & bc' & E & Hl & Hb').
      exists km', bc'. split; [exact E|]. split; [exact Hl|lia].
Qed.

Lemma absmap_ok_upd (am am' : list Z) (c m : Z) :
  absmap_ok am -> upd am c m = Some am' ->
  m < _ABS_CNT -> (isHatCode c = true -> m < 4) -> absmap_ok am'.
Proof.
  intros [Hl Hb] Hu Hm Hh. split.
  - rewrite (upd_length _ _ _ _ Hu). exact Hl.
  - intros j x Hj. destruct (Z.eq_dec c j) as [<-|Hne].
    + rewrite (idx_upd_eq _ _ _ _ Hu) in Hj. injection Hj as <-. auto.
    + rewrite (idx_upd_ne _ _ _ _ _ Hu Hne) in Hj. eauto.
Qed.

Lemma absmap_ok_zero : absmap_ok (repeat 0 (Z.to_nat _ABS_CNT)).
Proof.
  split; [apply repeat_length|].
  intros j m H. unfold idx in H. destruct (j <? 0); [discriminate|].
  apply list_elem_of_lookup_2 in H. apply list_elem_of_In, repeat_spec in H.
  subst m. unfold _ABS_CNT. split; [lia|intros _; lia].
Qed.

(** The absolute-axis loop neither panics nor runs out of fuel, and keeps
    the counts within the arrays. *)
Lemma absLoop_fuel (fuel : nat) (absBits : list byte) (q : abs_oracle) (c : Z)
    (t : nat) (g : nativeGamepad) (ax hc : Z) :
  length absBits = Z.to_nat (Z.quot (_ABS_CNT + 7) 8) ->
  0 <= c -> _ABS_CNT - c <= Z.of_nat fuel ->
  absmap_ok (absMap g) -> length (absInfo g) = Z.to_nat _ABS_CNT ->
  0 <= ax <= c -> ax <= _ABS_CNT ->
  0 <= hc <= 4 -> 2 * hc <= Z.max 0 (c - _ABS_HAT0X) ->
  exists err g' ax' hc' t',
    absLoop fuel absBits q c t g ax hc = Some (err, g', ax', hc', t') /\
    absmap_ok (absMap g') /\ length (absInfo g') = Z.to_nat _ABS_CNT /\
    0 <= ax' <= _ABS_CNT /\ 0 <= hc' <= 4 /\
    keyMap g' = keyMap g /\ axes g' = axes g /\ buttons g' = buttons g /\
    hats g' = hats g /\ fd g' = fd g /\ path g' = path g /\
    axisCount_ g' = axisCount_ g /\ buttonCount_ g' = buttonCount_ g /\
    hatCount_ g' = hatCount_ g /\ dropped g' = dropped g.
Proof.
  intros Hbits. revert c t g ax hc.
  induction fuel as [|fuel IH]; intros c t g ax hc Hc Hf Hm Hi Hax Hax' Hhc Hhc2.
  - assert (E : (c <? _ABS_CNT) = false) by (apply Z.ltb_ge; lia).
    simpl. rewrite E. simpl. exists None, g, ax, hc, t. loop_exit.
  - simpl. destruct (Z.ltb_spec c _ABS_CNT) as [Hlt|Hge]; simpl.
    2:{ exists None, g, ax, hc, t. loop_exit. }
    pose proof Hm as [Hlen _].
    rewrite (upd_Some (absMap g) c (-1)) by (rewrite Hlen; unfold _ABS_CNT in *; lia).
    simpl.
    assert (Hm1 : absmap_ok (<[Z.to_nat c := -1]> (absMap g))).
    { eapply absmap_ok_upd; [exact Hm|apply upd_Some| |].
      - rewrite Hlen. unfold _ABS_CNT in *. lia.
      - unfold _ABS_CNT. lia.
      - lia. }
    destruct (isBitSet_Some absBits c) as [b Hb].
    { rewrite Hbits. unfold _ABS_CNT in *. vm_compute Z.to_nat. lia. }
    rewrite Hb. simpl. destruct b; simpl.
    + destruct (isHatCode c) eqn:Hhat.
      * pose proof (isHatCode_inv c Hhat) as Hr.
        unfold _ABS_HAT0X, _ABS_HAT3Y in Hr.
        rewrite upd_Some
          by (rewrite length_insert, Hlen; unfold _ABS_CNT in *; lia).
        simpl.
        assert (Hm2 : absmap_ok (<[Z.to_nat c := hc]> (<[Z.to_nat c := -1]> (absMap g)))).
        { eapply absmap_ok_upd; [exact Hm1|apply upd_Some| |].
          - rewrite length_insert, Hlen. unfold _ABS_CNT in *. lia.
          - unfold _ABS_CNT, _ABS_HAT0X in *. lia.
          - unfold _ABS_HAT0X in *. lia. }
        destruct (IH (c + 1 + 1) t
          (set_absMap (set_absMap g (<[Z.to_nat c := -1]> (absMap g)))
             (<[Z.to_nat c := hc]> (<[Z.to_nat c := -1]> (absMap g))))
          ax (hc + 1)) as (err & g' & ax' & hc' & t' & E & R); [loop_side..|].
        exists err, g', ax', hc', t'. split; [exact E|]. simpl in R. exact R.
      * destruct (q t c) as [e|info].
        -- eexists _, _, _, _, _. simpl. loop_exit.
        -- simpl. rewrite (upd_Some (absInfo g) c info)
             by (rewrite Hi; unfold _ABS_CNT in *; lia).
           simpl. rewrite upd_Some
             by (rewrite length_insert, Hlen; unfold _ABS_CNT in *; lia).
           simpl.
           assert (Hm2 : absmap_ok (<[Z.to_nat c := ax]> (<[Z.to_nat c := -1]> (absMap g)))).
           { eapply absmap_ok_upd; [exact Hm1|apply upd_Some| |].
             - rewrite length_insert, Hlen. unfold _ABS_CNT in *. lia.
             - lia.
             - rewrite Hhat. discriminate. }
           destruct (IH (c + 1) (S t)
             (set_absMap
                (set_absInfo (set_absMap g (<[Z.to_nat c := -1]> (absMap g)))
                   (<[Z.to_nat c := info]> (absInfo g)))
                (<[Z.to_nat c := ax]> (<[Z.to_nat c := -1]> (absMap g))))
             (ax + 1) hc) as (err & g' & ax' & hc' & t' & E & R); [loop_side..|].
           exists err, g', ax', hc', t'. split; [exact E|]. simpl in R. exact R.
    + destruct (IH (c + 1) t (set_absMap g (<[Z.to_nat c := -1]> (absMap g))) ax hc)
        as (err & g' & ax' & hc' & t' & E & R); [loop_side..|].
      exists err, g', ax', hc', t'. split; [exact E|]. simpl in R. exact R.
Qed.

Lemma handleAbsEvent_total (g : nativeGamepad) (c v m : Z) :
  poll_ok g -> idx (absMap g) c = Some m -> 0 <= m ->
  exists g', handleAbsEvent g c v = Some g' /\ poll_ok g'.
Proof.
  intros (Hm & Hi & Ha & Hh) Hc Hpos.
  pose proof (idx_Some_inv _ _ _ Hc) as Hr.
  destruct Hm as [Hlen Hb]. destruct (Hb c m Hc) as [Hm64 Hm4].
  unfold handleAbsEvent. rewrite Hc. simpl.
  destruct (isHatCode c) eqn:Hhat.
  - destruct (idx_Some (hats g) m) as [h Hh']; [rewrite Hh; specialize (Hm4 eq_refl); lia|].
    assert (Hu : forall x, upd (hats g) m x = Some (<[Z.to_nat m := x]> (hats g))).
    { intros x. apply upd_Some. rewrite Hh. specialize (Hm4 eq_refl). lia. }
    destruct (hat_axis_cases c Hhat) as [E|E]; rewrite E; rewrite Hh'; simpl;
      rewrite Hu; simpl; eexists; (split; [reflexivity|]);
      unfold poll_ok, absmap_ok; simpl; rewrite length_insert; auto.
  - destruct (idx_Some (absInfo g) c) as [info Hinfo]; [rewrite Hi, <- Hlen; exact Hr|].
    rewrite Hinfo. simpl.
    rewrite upd_Some by (rewrite Ha; unfold _ABS_CNT in *; lia).
    simpl. eexists. split; [reflexivity|].
    unfold poll_ok, absmap_ok; simpl; rewrite length_insert; auto.
Qed.

Lemma pollAbsState_from_total (q : abs_oracle) (codes : list Z) (t : nat)
    (g : nativeGamepad) :
  poll_ok g -> Forall (fun c => 0 <= c < _ABS_CNT) codes ->
  exists err g' t', pollAbsState_from q codes t g = Some (err, g', t') /\ poll_ok g'.
Proof.
  intros Hg Hc. revert t g Hg.
  induction Hc as [|c codes Hr Hc IH]; intros t g Hg; simpl.
  - eauto.
  - pose proof Hg as ((Hlen & Hb) & Hi & Ha & Hh).
    destruct (idx_Some (absMap g) c) as [m Hm];
      [rewrite Hlen; unfold _ABS_CNT in *; lia|].
    rewrite Hm. simpl.
    destruct (Z.ltb_spec m 0) as [Hneg|Hpos]; [apply IH; exact Hg|].
    destruct (q t c) as [e|info]; [eauto|].
    rewrite upd_Some by (rewrite Hi; unfold _ABS_CNT in *; lia).
    simpl.
    destruct (handleAbsEvent_total
                (set_absInfo g (<[Z.to_nat c := info]> (absInfo g))) c (value info) m)
      as (g1 & E & Hg1); [|exact Hm|exact Hpos|].
    { unfold poll_ok in *. simpl. rewrite length_insert. tauto. }
    rewrite E. simpl. apply IH. exact Hg1.
Qed.

Lemma codes_abs : Forall (fun c => 0 <= c < _ABS_CNT) (seqZ 0 _ABS_CNT).
Proof. apply Forall_seqZ. intros j Hj. lia. Qed.

Lemma codes_key :
  Forall (fun c => _BTN_MISC <= c < _KEY_CNT) (seqZ _BTN_MISC (_KEY_CNT - _BTN_MISC)).
Proof. apply Forall_seqZ. intros j Hj. lia. Qed.

Lemma pollAbsState_total (q : abs_oracle) (t : nat) (g : nativeGamepad) :
  poll_ok g ->
  exists err g' t', pollAbsState q t g = Some (err, g', t') /\ poll_ok g'.
Proof.
  intros Hg. unfold pollAbsState. apply pollAbsState_from_total; [exact Hg|].
  apply codes_abs.
Qed.

Lemma wf_fresh (p : string) (f : Z) :
  wf (set_fd (set_path zeroNative p) f) /\ poll_ok (set_fd (set_path zeroNative p) f).
Proof.
  split.
  - constructor; vm_compute; try reflexivity; split; discriminate.
  - unfold poll_ok. split; [exact absmap_ok_zero|]. repeat split.
Qed.

(** [buildMaps] returns, with or without error, and the entry it leaves is
    well formed and keeps its path and handle. *)
Lemma buildMaps_total (d : device) (keyBits absBits : list byte) (g : nativeGamepad) :
  length keyBits = Z.to_nat (Z.quot (_KEY_CNT + 7) 8) ->
  length absBits = Z.to_nat (Z.quot (_ABS_CNT + 7) 8) ->
  wf g -> poll_ok g ->
  exists err g',
    buildMaps d keyBits absBits g = Some (err, g') /\
    wf g' /\ poll_ok g' /\ path g' = path g /\ fd g' = fd g.
Proof.
  intros Hkb Hab Hwf Hpo. unfold buildMaps.
  destruct Hwf as [Wk Wm Wi Wa Wb Wh Wac Wbc Whc].
  destruct (keyLoop_total keyBits (seqZ _BTN_MISC (_KEY_CNT - _BTN_MISC))
              (keyMap g) 0 codes_key Hkb Wk)
    as (km & bc & Ek & Hkm & Hbc).
  rewrite Ek. bind_step.
  rewrite length_seqZ in Hbc.
  destruct Hpo as (Pm & _).
  destruct (absLoop_fuel (Z.to_nat _ABS_CNT) absBits (dev_abs d) 0 0
              (set_keyMap g km) 0 0)
    as (err & g1 & ax & hc & t1 & Ea & Hm1 & Hi1 & Hax & Hhc & F);
    [ exact Hab | lia | unfold _ABS_CNT; lia | exact Pm | exact Wi | lia
    | unfold _ABS_CNT; lia | lia | unfold _ABS_HAT0X; lia |].
  rewrite Ea. cbv beta iota.
  cbn [keyMap axes buttons hats fd path axisCount_ buttonCount_ hatCount_
       dropped set_keyMap] in F.
  destruct F as (Fk & Fa & Fb & Fh & Ff & Fp & Fac & Fbc & Fhc & _).
  assert (Hp1 : poll_ok g1).
  { unfold poll_ok. rewrite Fa, Fh. tauto. }
  assert (Hlen1 : length (absMap g1) = Z.to_nat _ABS_CNT) by apply Hm1.
  destruct err as [e|].
  - exists (Some e), g1. split; [reflexivity|].
    split; [|tauto].
    constructor; rewrite ?Fk, ?Fa, ?Fb, ?Fh, ?Fac, ?Fbc, ?Fhc; auto.
  - destruct (pollAbsState_total (dev_abs d) t1 (set_counts g1 ax bc hc))
      as (err & g2 & t2 & Ep & Hp2).
    { unfold poll_ok in *. cbn [absMap absInfo axes hats set_counts]. exact Hp1. }
    rewrite Ep. cbv beta iota.
    exists err, g2. split; [reflexivity|].
    apply pollAbsState_frame in Ep.
    cbn [keyMap absMap buttons fd path axisCount_ buttonCount_ hatCount_
         dropped set_counts] in Ep.
    destruct Ep as (_ & _ & Gk & Gb & Gf & Gp & Gac & Gbc & Ghc).
    split; [|split; [exact Hp2|split; congruence]].
    destruct Hp2 as ((Hl2 & _) & Hi2 & Ha2 & Hh2).
    constructor; rewrite ?Gk, ?Gb, ?Fk, ?Fb, ?Gac, ?Gbc, ?Ghc; auto;
      unfold _KEY_CNT, _BTN_MISC in *; lia.
Qed.

(** ** Rejection of devices that are not gamepads (C3) *)

Lemma evBits_query (ev : list byte) (bit : Z) :
  0 <= bit < EV_CNT ->
  is_Some (isBitSet (fill (Z.to_nat (Z.quot (EV_CNT + 7) 8)) ev) bit).
Proof.
  intros H. apply isBitSet_Some. rewrite fill_length.
  unfold EV_CNT in *. vm_compute Z.to_nat. lia.
Qed.

(** C3, as the code has it.  For a path not yet registered whose device
    opens and answers the four capability queries: when the event-type
    bitmap lacks key events or lacks absolute-axis events (at least one of
    the two), [openGamepad] closes the handle and returns without error and
    without touching the registry; when it has both, an entry for the path
    is added to the registry. *)
Theorem openGamepad_rejects (w : string -> device) (s : sys)
    (gs : list Gamepad) (p : string) (f : Z) (ev kb ab : list byte)
    (id : input_id)
    (Hnew : gamepads_find gs (fun gp => String.eqb (path (native gp)) p) = None)
    (Hopen : dev_open (w p) = inr f)
    (Hev : dev_evBits (w p) = inr ev)
    (Hkb : dev_keyBits (w p) = inr kb)
    (Hab : dev_absBits (w p) = inr ab)
    (Hid : dev_id (w p) = inr id) :
  exists hasKey hasAbs,
    isBitSet (fill (Z.to_nat (Z.quot (EV_CNT + 7) 8)) ev) EV_KEY = Some hasKey /\
    isBitSet (fill (Z.to_nat (Z.quot (EV_CNT + 7) 8)) ev) EV_ABS = Some hasAbs /\
    (hasKey && hasAbs = false ->
       openGamepad w s gs p = Some (None, gs, sys_close (sys_open s p) f)) /\
    (hasKey && hasAbs = true ->
       exists err gp s',
         openGamepad w s gs p = Some (err, gs ++ [gp], s') /\
         path (native gp) = p /\ fd (native gp) = f /\ wf (native gp) /\
         (err = None -> s' = sys_open s p)).
Proof.
  destruct (evBits_query ev EV_KEY) as [hasKey HK]; [unfold EV_KEY, EV_CNT; lia|].
  destruct (evBits_query ev EV_ABS) as [hasAbs HA]; [unfold EV_ABS, EV_CNT; lia|].
  exists hasKey, hasAbs. split; [exact HK|]. split; [exact HA|].
  unfold openGamepad. rewrite Hnew, Hopen.
  unfold probeDevice. rewrite Hev, Hkb, Hab, Hid. cbv zeta. rewrite HK.
  bind_step. split.
  - intros H. destruct hasKey; [|reflexivity].
    cbv beta iota delta [negb]. rewrite HA. cbv beta iota.
    simpl in H. subst hasAbs. reflexivity.
  - intros H. apply andb_true_iff in H as [-> ->].
    cbv beta iota delta [negb]. rewrite HA. cbv beta iota delta [negb].
    destruct (wf_fresh p f) as [Hwf Hpo].
    destruct (buildMaps_total (w p)
                (fill (Z.to_nat (Z.quot (_KEY_CNT + 7) 8)) kb)
                (fill (Z.to_nat (Z.quot (_ABS_CNT + 7) 8)) ab)
                (set_fd (set_path zeroNative p) f))
      as (err & g' & E & Hwf' & _ & Hp' & Hf');
      [apply fill_length | apply fill_length | exact Hwf | exact Hpo |].
    rewrite E. cbv beta iota. unfold registered, deferClose.
    destruct err as [e|].
    + eexists _, _, _. split; [reflexivity|]. cbn [native].
      split; [exact Hp'|]. split; [exact Hf'|]. split; [exact Hwf'|].
      intros [=].
    + eexists _, _, _. split; [reflexivity|]. cbn [native].
      split; [exact Hp'|]. split; [exact Hf'|]. split; [exact Hwf'|].
      intros _. reflexivity.
Qed.

Lemma openGamepad_rejects_witness :
  exists hasKey hasAbs,
    isBitSet (fill (Z.to_nat (Z.quot (EV_CNT + 7) 8)) [Byte.x0a]) EV_KEY = Some hasKey /\
    isBitSet (fill (Z.to_nat (Z.quot (EV_CNT + 7) 8)) [Byte.x0a]) EV_ABS = Some hasAbs /\
    (hasKey && hasAbs = false ->
       openGamepad (fun _ => sampleDevice [Byte.x0a] [] [Byte.x01] steadyAbs)
         noCalls [] samplePath
       = Some (None, [], sys_close (sys_open noCalls samplePath) 3)) /\
    (hasKey && hasAbs = true ->
       exists err gp s',
         openGamepad (fun _ => sampleDevice [Byte.x0a] [] [Byte.x01] steadyAbs)
           noCalls [] samplePath
         = Some (err, [] ++ [gp], s') /\
         path (native gp) = samplePath /\ fd (native gp) = 3 /\ wf (native gp) /\
         (err = None -> s' = sys_open noCalls samplePath)).
Proof.
  apply (openGamepad_rejects
           (fun _ => sampleDevice [Byte.x0a] [] [Byte.x01] steadyAbs)
           noCalls [] samplePath 3 [Byte.x0a] [] [Byte.x01]
           (mkInputID 3 1118 654 276)); reflexivity.
Defined.

(** C3 as stated fails: a device that supports key events but no
    absolute-axis events does not lack both, and is rejected all the same
    (no entry, no error, handle 3 closed). *)
Lemma key_only_device_rejected :
  isBitSet (fill (Z.to_nat (Z.quot (EV_CNT + 7) 8)) [Byte.x02]) EV_KEY = Some true /\
  isBitSet (fill (Z.to_nat (Z.quot (EV_CNT + 7) 8)) [Byte.x02]) EV_ABS = Some false /\
  openGamepad (fun _ => sampleDevice [Byte.x02] [] [] steadyAbs) noCalls [] samplePath
  = Some (None, [], mkSys [samplePath] [3]).
Proof. repeat split; vm_compute; reflexivity. Qed.

Lemma openGamepad_duplicate_witness :
  mkGamepad "Pad" "" (set_fd (set_path zeroNative samplePath) 3)
    ∈ [mkGamepad "Pad" "" (set_fd (set_path zeroNative samplePath) 3)] /\
  path (native (mkGamepad "Pad" "" (set_fd (set_path zeroNative samplePath) 3)))
    = samplePath /\
  openGamepad (fun _ => sampleDevice [Byte.x0a] [] [Byte.x01] steadyAbs) noCalls
    [mkGamepad "Pad" "" (set_fd (set_path zeroNative samplePath) 3)] samplePath
  = Some (None, [mkGamepad "Pad" "" (set_fd (set_path zeroNative samplePath) 3)],
          noCalls).
Proof.
  split; [apply list_elem_of_here|]. split; [reflexivity|].
  apply (openGamepad_duplicate _ _ _ _
           (mkGamepad "Pad" "" (set_fd (set_path zeroNative samplePath) 3)));
    [apply list_elem_of_here | reflexivity].
Defined.

Lemma queries_total_witness :
  wf zeroNative /\
  is_Some (axisValue zeroNative 70) /\ is_Some (isButtonPressed zeroNative 70) /\
  is_Some (hatState zeroNative 70) /\
  (70 < 0 \/ axisCount_ zeroNative <= 70 -> axisValue zeroNative 70 = Some 0%float) /\
  (70 < 0 \/ buttonCount_ zeroNative <= 70 ->
     isButtonPressed zeroNative 70 = Some false) /\
  (70 < 0 \/ hatCount_ zeroNative <= 70 -> hatState zeroNative 70 = Some hatCentered).
Proof.
  split; [exact wf_zeroNative|].
  apply (queries_total zeroNative 70 wf_zeroNative).
Defined.

(** ** Errors after the entry is registered (C2) *)

(** C2 at two failing devices.  Both support key and absolute-axis events
    and report the absolute code 0.  On the first the calibration query of
    the mapping loop fails; on the second that query succeeds and the query
    of the initial resynchronization fails.  Each time [openGamepad] returns
    the error, closes handle 3, and leaves in the registry an entry for the
    path that still holds handle 3. *)
Theorem openGamepad_error_keeps_entry :
  outcome (openGamepad (fun _ => sampleDevice [Byte.x0a] [] [Byte.x01] failingAbs)
             noCalls [] samplePath)
  = Some (Some (ErrAbsOpen (EOTHER 5)), [(samplePath, 3)], [3]) /\
  outcome (openGamepad (fun _ => sampleDevice [Byte.x0a] [] [Byte.x01] failingLater)
             noCalls [] samplePath)
  = Some (Some (ErrAbsPoll (EOTHER 5)), [(samplePath, 3)], [3]).
Proof. split; vm_compute; reflexivity. Qed.

(** ** The dense index assignment (C6) *)

(** C6 at a failing bitmap: the absolute codes 23 (the Y code of the fourth
    directional pad) and 24 are present, 22 is not.  Code 23 takes hat index
    0 and the skip meant for a Y code passes over code 24: no axis index is
    assigned (the axis count is 0) and the entry of code 24 keeps the zero
    value of the array. *)
Theorem dense_index_skips_code :
  isBitSet (fill (Z.to_nat (Z.quot (_ABS_CNT + 7) 8))
              [Byte.x00; Byte.x00; Byte.x80; Byte.x01]) 23 = Some true /\
  isBitSet (fill (Z.to_nat (Z.quot (_ABS_CNT + 7) 8))
              [Byte.x00; Byte.x00; Byte.x80; Byte.x01]) 24 = Some true /\
  isHatCode 24 = false /\
  absMapping [22; 23; 24]
    (openGamepad
       (fun _ => sampleDevice [Byte.x0a] []
                   [Byte.x00; Byte.x00; Byte.x80; Byte.x01] steadyAbs)
       noCalls [] samplePath)
  = Some (None, [(0, 1, [Some (-1); Some 0; Some 0])]).
Proof. repeat split; vm_compute; reflexivity. Qed.

(** ** The synthesized identifier (C4, C5) *)

Lemma hexval_hexdigit (d : Z) : 0 <= d < 16 -> hexval (hexdigit d) = Some d.
Proof.
  intros H.
  assert (Hd : d = 0 \/ d = 1 \/ d = 2 \/ d = 3 \/ d = 4 \/ d = 5 \/ d = 6 \/
               d = 7 \/ d = 8 \/ d = 9 \/ d = 10 \/ d = 11 \/ d = 12 \/
               d = 13 \/ d = 14 \/ d = 15) by lia.
  repeat (destruct Hd as [->|Hd]; [reflexivity|]). subst d. reflexivity.
Qed.

Lemma unhex_pair (a b : ascii) (r : string) :
  unhex (String a (String b r))
  = (hi ← hexval a; lo ← hexval b; bs ← unhex r; Some (16 * hi + lo :: bs)).
Proof. reflexivity. Qed.

Lemma unhex_fmt02x (b : Z) (s : string) :
  0 <= b < 256 ->
  unhex (fmt02x b +:+ s) = (bs ← unhex s; Some (b :: bs)).
Proof.
  intros H.
  change (fmt02x b +:+ s)
    with (String (hexdigit (b / 16)) (String (hexdigit (b mod 16)) s)).
  rewrite unhex_pair.
  rewrite (hexval_hexdigit (b / 16))
    by (split; [apply Z.div_pos; lia | apply Z.div_lt_upper_bound; lia]).
  rewrite (hexval_hexdigit (b mod 16)) by (apply Z.mod_pos_bound; lia).
  bind_step.
  replace (16 * (b / 16) + b mod 16) with b by (rewrite <- Z.div_mod; lia).
  reflexivity.
Qed.

Lemma unhex_zeros (s : string) :
  unhex ("0000" +:+ s) = (bs ← unhex s; Some (0 :: 0 :: bs)).
Proof.
  change ("0000" +:+ s) with (String "0" (String "0" (String "0" (String "0" s)))).
  rewrite !unhex_pair. change (hexval "0") with (Some 0). bind_step.
  destruct (unhex s); reflexivity.
Qed.

Lemma byte_of_lo (x : Z) : 0 <= byte_of x < 256.
Proof. unfold byte_of. apply Z.mod_pos_bound. lia. Qed.

Lemma byte_of_hi (x : Z) :
  0 <= x < 65536 -> byte_of (Z.shiftr x 8) = x / 256.
Proof.
  intros H. unfold byte_of. rewrite Z.shiftr_div_pow2 by lia.
  change (2 ^ 8) with 256. apply Z.mod_small.
  split; [apply Z.div_pos; lia | apply Z.div_lt_upper_bound; lia].
Qed.

Lemma unhex_field (x : Z) (s : string) :
  0 <= x < 65536 ->
  unhex (fmt02x (byte_of x) +:+ fmt02x (byte_of (Z.shiftr x 8)) +:+ "0000" +:+ s)
  = (bs ← unhex s; Some (le16 x ++ 0 :: 0 :: bs)).
Proof.
  intros H. rewrite unhex_fmt02x by apply byte_of_lo.
  rewrite unhex_fmt02x by apply byte_of_lo.
  rewrite unhex_zeros, (byte_of_hi x H). unfold byte_of, le16.
  destruct (unhex s); reflexivity.
Qed.

(** C4.  With vendor, product and version all non-zero (and the four fields
    within 16 bits) the identifier has 32 characters, all lowercase
    hexadecimal digits, which spell the 16 bytes
    bus, 0, 0, vendor, 0, 0, product, 0, 0, version, 0, 0 with each field as
    two bytes, low byte first; it depends on the identity record alone (the
    device name plays no part). *)
Theorem sdlID_hardware (id : input_id) (nm : string)
    (Hb : 0 <= bustype id < 65536) (Hv : 0 < vendor id < 65536)
    (Hp : 0 < product id < 65536) (Hr : 0 < version id < 65536) :
  String.length (sdlIDOf id nm) = 32%nat /\
  unhex (sdlIDOf id nm)
  = Some (le16 (bustype id) ++ [0; 0] ++ le16 (vendor id) ++ [0; 0] ++
          le16 (product id) ++ [0; 0] ++ le16 (version id) ++ [0; 0]) /\
  forall nm', sdlIDOf id nm' = sdlIDOf id nm.
Proof.
  unfold sdlIDOf.
  destruct (Z.eqb_spec (vendor id) 0); [lia|].
  destruct (Z.eqb_spec (product id) 0); [lia|].
  destruct (Z.eqb_spec (version id) 0); [lia|].
  cbn [negb andb]. split; [reflexivity|]. split; [|reflexivity].
  rewrite !unhex_field by lia.
  rewrite unhex_fmt02x by apply byte_of_lo.
  rewrite unhex_fmt02x by apply byte_of_lo.
  rewrite (byte_of_hi (version id)) by lia.
  reflexivity.
Qed.

Lemma sdlID_hardware_witness :
  0 <= bustype (mkInputID 3 1118 654 276) < 65536 /\
  0 < vendor (mkInputID 3 1118 654 276) < 65536 /\
  0 < product (mkInputID 3 1118 654 276) < 65536 /\
  0 < version (mkInputID 3 1118 654 276) < 65536 /\
  String.length (sdlIDOf (mkInputID 3 1118 654 276) "Pad") = 32%nat /\
  unhex (sdlIDOf (mkInputID 3 1118 654 276) "Pad")
  = Some (le16 3 ++ [0; 0] ++ le16 1118 ++ [0; 0] ++
          le16 654 ++ [0; 0] ++ le16 276 ++ [0; 0]) /\
  forall nm', sdlIDOf (mkInputID 3 1118 654 276) nm'
              = sdlIDOf (mkInputID 3 1118 654 276) "Pad".
Proof.
  split; [simpl; lia|]. split; [simpl; lia|]. split; [simpl; lia|].
  split; [simpl; lia|].
  apply (sdlID_hardware (mkInputID 3 1118 654 276) "Pad"); simpl; lia.
Defined.

Lemma bytes_of_string_range (s : string) :
  Forall (fun b => 0 <= b < 256) (bytes_of_string s).
Proof.
  unfold bytes_of_string. apply Forall_map, Forall_forall. intros c _.
  pose proof (N_ascii_bounded c). simpl. lia.
Qed.

(** The twelve indexed reads of the fallback branch are the first twelve
    bytes of the padded name. *)
Lemma twelve_reads (l : list Z) :
  (12 <= length l)%nat ->
  [nth 0 l 0; nth 1 l 0; nth 2 l 0; nth 3 l 0; nth 4 l 0; nth 5 l 0;
   nth 6 l 0; nth 7 l 0; nth 8 l 0; nth 9 l 0; nth 10 l 0; nth 11 l 0]
  = take 12 l.
Proof.
  intros H.
  do 12 (destruct l as [|? l]; [simpl in H; lia|]). reflexivity.
Qed.

Lemma take_repeat {A : Type} (x : A) (n m : nat) :
  (n <= m)%nat -> take n (repeat x m) = repeat x n.
Proof.
  revert m. induction n as [|n IH]; intros [|m] H; simpl; try reflexivity; [lia|].
  f_equal. apply IH. lia.
Qed.

Lemma padded_name (bs : list Z) :
  take 12 (if (length bs <? 12)%nat then bs ++ repeat 0 (12 - length bs) else bs)
  = take 12 (bs ++ repeat 0 12) /\
  (12 <= length (if (length bs <? 12)%nat
                 then bs ++ repeat 0%Z (12 - length bs) else bs))%nat.
Proof.
  destruct (Nat.ltb_spec (length bs) 12) as [Hlt|Hge].
  - split.
    + rewrite firstn_all2 by (rewrite length_app, repeat_length; lia).
      rewrite take_app_ge by lia.
      rewrite take_repeat by lia. reflexivity.
    + rewrite length_app, repeat_length. lia.
  - split; [|exact Hge].
    rewrite take_app_le by lia. reflexivity.
Qed.

Lemma unhex_bytes (l : list Z) :
  Forall (fun b => 0 <= b < 256) l ->
  unhex (fold_right (fun b s => fmt02x b +:+ s) EmptyString l) = Some l.
Proof.
  induction 1 as [|b l Hb Hl IH]; [reflexivity|].
  cbn [fold_right]. rewrite unhex_fmt02x by exact Hb. rewrite IH. reflexivity.
Qed.

(** C5.  When vendor, product or version is zero the identifier has 32
    characters, all lowercase hexadecimal digits, which spell the bus type
    as two bytes, low byte first, two zero bytes, and then the first twelve
    bytes of the name padded with zero bytes; it depends on the bus type and
    the name alone. *)
Theorem sdlID_fallback (id : input_id) (nm : string)
    (Hb : 0 <= bustype id < 65536)
    (Hz : vendor id = 0 \/ product id = 0 \/ version id = 0) :
  String.length (sdlIDOf id nm) = 32%nat /\
  unhex (sdlIDOf id nm)
  = Some (le16 (bustype id) ++ [0; 0] ++
          take 12 (bytes_of_string nm ++ repeat 0 12)) /\
  length (take 12 (bytes_of_string nm ++ repeat 0 12)) = 12%nat /\
  forall id', bustype id' = bustype id ->
              vendor id' = 0 \/ product id' = 0 \/ version id' = 0 ->
              sdlIDOf id' nm = sdlIDOf id nm.
Proof.
  assert (Hsel : forall i, vendor i = 0 \/ product i = 0 \/ version i = 0 ->
            negb (vendor i =? 0) && negb (product i =? 0) && negb (version i =? 0)
            = false).
  { intros i [H|[H|H]]; rewrite H; simpl;
      rewrite ?andb_false_r; reflexivity. }
  split; [|split; [|split]].
  - unfold sdlIDOf. rewrite (Hsel id Hz). reflexivity.
  - unfold sdlIDOf. rewrite (Hsel id Hz). cbv zeta.
    destruct (padded_name (bytes_of_string nm)) as [Htake Hlen].
    set (bs := if (length (bytes_of_string nm) <? 12)%nat
               then bytes_of_string nm ++ repeat 0 (12 - length (bytes_of_string nm))
               else bytes_of_string nm) in *.
    rewrite unhex_field by exact Hb.
    change (fmt02x (nth 0 bs 0) +:+ fmt02x (nth 1 bs 0) +:+ fmt02x (nth 2 bs 0) +:+
            fmt02x (nth 3 bs 0) +:+ fmt02x (nth 4 bs 0) +:+ fmt02x (nth 5 bs 0) +:+
            fmt02x (nth 6 bs 0) +:+ fmt02x (nth 7 bs 0) +:+ fmt02x (nth 8 bs 0) +:+
            fmt02x (nth 9 bs 0) +:+ fmt02x (nth 10 bs 0) +:+ fmt02x (nth 11 bs 0))
      with (fold_right (fun b s => fmt02x b +:+ s) EmptyString
              [nth 0 bs 0; nth 1 bs 0; nth 2 bs 0; nth 3 bs 0; nth 4 bs 0;
               nth 5 bs 0; nth 6 bs 0; nth 7 bs 0; nth 8 bs 0; nth 9 bs 0;
               nth 10 bs 0; nth 11 bs 0]).
    rewrite (twelve_reads bs Hlen), Htake.
    rewrite unhex_bytes; [reflexivity|].
    apply Forall_take, Forall_app. split; [apply bytes_of_string_range|].
    apply Forall_forall. intros x Hx. apply list_elem_of_In, repeat_spec in Hx. lia.
  - rewrite length_take, length_app, repeat_length. lia.
  - intros id' Hbus Hz'. unfold sdlIDOf.
    rewrite (Hsel id Hz), (Hsel id' Hz'), Hbus. reflexivity.
Qed.

Lemma sdlID_fallback_witness :
  0 <= bustype (mkInputID 3 0 0 0) < 65536 /\
  (vendor (mkInputID 3 0 0 0) = 0 \/ product (mkInputID 3 0 0 0) = 0 \/
   version (mkInputID 3 0 0 0) = 0) /\
  String.length (sdlIDOf (mkInputID 3 0 0 0) "Pad") = 32%nat /\
  unhex (sdlIDOf (mkInputID 3 0 0 0) "Pad")
  = Some (le16 3 ++ [0; 0] ++ take 12 (bytes_of_string "Pad" ++ repeat 0 12)) /\
  length (take 12 (bytes_of_string "Pad" ++ repeat 0 12)) = 12%nat /\
  forall id', bustype id' = bustype (mkInputID 3 0 0 0) ->
              vendor id' = 0 \/ product id' = 0 \/ version id' = 0 ->
              sdlIDOf id' "Pad" = sdlIDOf (mkInputID 3 0 0 0) "Pad".
Proof.
  split; [simpl; lia|]. split; [left; reflexivity|].
  apply (sdlID_fallback (mkInputID 3 0 0 0) "Pad"); [simpl; lia|left; reflexivity].
Defined.

(** ** Binary64 arithmetic on small integers

    The conversions and the subtractions of [normalize] are exact, and the
    quotients at the end points and at the midpoint are powers of two. *)

Lemma iter_pos_nat {A : Type} (f : A -> A) (p : positive) (x : A) :
  SpecFloat.iter_pos f p x = Nat.iter (Pos.to_nat p) f x.
Proof.
  revert x. induction p as [p IH|p IH|]; intros x; cbn [SpecFloat.iter_pos].
  - rewrite !IH. rewrite Pos2Nat.inj_xI.
    replace (S (2 * Pos.to_nat p)) with (Pos.to_nat p + (Pos.to_nat p + 1))%nat by lia.
    rewrite !Nat.iter_add. reflexivity.
  - rewrite !IH. rewrite Pos2Nat.inj_xO.
    replace (2 * Pos.to_nat p)%nat with (Pos.to_nat p + Pos.to_nat p)%nat by lia.
    rewrite Nat.iter_add. reflexivity.
  - reflexivity.
Qed.

Lemma shr_1_even (z : Z) :
  0 < z ->
  shr_1 (Build_shr_record (2 * z) false false) = Build_shr_record z false false.
Proof. destruct z; try lia. reflexivity. Qed.

Lemma shr_iter (z : Z) (n : nat) :
  0 < z ->
  Nat.iter n shr_1 (Build_shr_record (z * 2 ^ Z.of_nat n) false false)
  = Build_shr_record z false false.
Proof.
  intros Hz. revert z Hz. induction n as [|n IH]; intros z Hz.
  - simpl. rewrite Z.mul_1_r. reflexivity.
  - rewrite Nat.iter_succ_r.
    replace (z * 2 ^ Z.of_nat (S n)) with (2 * (z * 2 ^ Z.of_nat n))
      by (rewrite Nat2Z.inj_succ, Z.pow_succ_r; lia).
    rewrite shr_1_even by (apply Z.mul_pos_pos; lia).
    apply IH. exact Hz.
Qed.

Lemma digits_double (z : Z) : 0 < z -> Zdigits2 (2 * z) = Zdigits2 z + 1.
Proof.
  destruct z as [|p|p]; try lia. intros _.
  change (Zdigits2 (2 * Zpos p)) with (Zpos (Pos.succ (digits2_pos p))).
  rewrite Pos2Z.inj_succ. reflexivity.
Qed.

Lemma digits_pow (z n : Z) :
  0 < z -> 0 <= n -> Zdigits2 (z * 2 ^ n) = Zdigits2 z + n.
Proof.
  intros Hz Hn. revert n Hn. apply natlike_ind.
  - rewrite Z.mul_1_r. lia.
  - intros n Hn IH. rewrite Z.pow_succ_r by lia.
    replace (z * (2 * 2 ^ n)) with (2 * (z * 2 ^ n)) by lia.
    rewrite digits_double by (apply Z.mul_pos_pos; lia). lia.
Qed.

Lemma digits_pos (z : Z) : 0 < z -> 0 < Zdigits2 z.
Proof. destruct z; try lia. intros _. simpl. lia. Qed.

(** Rounding an integer whose low bits are zero is exact. *)
Lemma round_exact (s : bool) (q n e : Z) :
  0 < q -> Zdigits2 q = prec -> 0 <= n -> -1074 <= e + n <= 971 ->
  binary_round_aux prec emax s (q * 2 ^ n) e loc_Exact
  = S754_finite s (Z.to_pos q) (e + n).
Proof.
  intros Hq Hd Hn He.
  assert (Hfirst : shr_fexp prec emax (q * 2 ^ n) e loc_Exact
                   = (Build_shr_record q false false, e + n)).
  { unfold shr_fexp. rewrite digits_pow, Hd by lia.
    unfold fexp, SpecFloat.emin, prec, emax.
    replace (Z.max (53 + n + e - 53) (3 - 1024 - 53) - e) with n by lia.
    unfold shr, shr_record_of_loc.
    destruct n as [|p|p]; [|  |lia].
    - rewrite Z.mul_1_r, Z.add_0_r. reflexivity.
    - rewrite iter_pos_nat. rewrite <- (positive_nat_Z p) at 1.
      rewrite shr_iter by exact Hq. reflexivity. }
  assert (Hsecond : shr_fexp prec emax q (e + n) loc_Exact
                   = (Build_shr_record q false false, e + n)).
  { unfold shr_fexp. rewrite Hd.
    unfold fexp, SpecFloat.emin, prec, emax.
    replace (Z.max (53 + (e + n) - 53) (3 - 1024 - 53) - (e + n)) with 0 by lia.
    reflexivity. }
  unfold binary_round_aux. rewrite Hfirst.
  cbn [shr_m loc_of_shr_record round_nearest_even]. rewrite Hsecond.
  cbn [shr_m]. destruct q as [|q|q]; try lia.
  unfold prec, emax. destruct (Z.leb_spec (e + n) (1024 - 53)); [reflexivity|lia].
Qed.

Lemma iter_xO (m j : positive) : Zpos (Pos.iter xO m j) = Zpos m * 2 ^ Zpos j.
Proof.
  rewrite (Pos.iter_swap_gen _ _ Zpos xO (Z.mul 2)) by reflexivity.
  change (Pos.iter (Z.mul 2) (Zpos m) j) with (Z.shiftl (Zpos m) (Zpos j)).
  apply Z.shiftl_mul_pow2. lia.
Qed.

Lemma mant_digits (z : Z) :
  0 < z -> Zdigits2 z <= prec -> Zdigits2 (Zpos (mant z)) = prec.
Proof.
  intros Hz Hd. unfold mant. rewrite Z2Pos.id.
  - rewrite digits_pow by lia. lia.
  - apply Z.mul_pos_pos; [lia|]. apply Z.pow_pos_nonneg; lia.
Qed.

Lemma mant_val (z : Z) :
  0 < z -> Zdigits2 z <= prec -> Zpos (mant z) = z * 2 ^ (prec - Zdigits2 z).
Proof.
  intros Hz Hd. unfold mant. rewrite Z2Pos.id; [reflexivity|].
  apply Z.mul_pos_pos; [lia|]. apply Z.pow_pos_nonneg; lia.
Qed.

Lemma binary_round_scaled (s : bool) (z k : Z) :
  0 < z -> Zdigits2 z <= prec -> 0 <= k ->
  binary_round prec emax s (Z.to_pos (z * 2 ^ k)) (- k)
  = S754_finite s (mant z) (expo z).
Proof.
  intros Hz Hd Hk.
  pose proof (digits_pos z Hz) as Hd0.
  assert (Hzk : 0 < z * 2 ^ k) by (apply Z.mul_pos_pos; [lia|apply Z.pow_pos_nonneg; lia]).
  assert (Hq : 0 < z * 2 ^ (prec - Zdigits2 z))
    by (apply Z.mul_pos_pos; [lia|apply Z.pow_pos_nonneg; lia]).
  assert (Hqd : Zdigits2 (z * 2 ^ (prec - Zdigits2 z)) = prec)
    by (rewrite digits_pow by lia; lia).
  unfold binary_round.
  change (Zpos (digits2_pos (Z.to_pos (z * 2 ^ k))))
    with (Zdigits2 (Zpos (Z.to_pos (z * 2 ^ k)))).
  rewrite Z2Pos.id by exact Hzk. rewrite digits_pow by lia.
  replace (fexp prec emax (Zdigits2 z + k + - k)) with (Zdigits2 z - prec)
    by (unfold fexp, SpecFloat.emin, prec, emax in *; lia).
  unfold shl_align. unfold mant, expo.
  destruct (Zdigits2 z - prec - - k) as [|j|j] eqn:Ej.
  - rewrite Z2Pos.id by exact Hzk.
    replace (z * 2 ^ k) with (z * 2 ^ (prec - Zdigits2 z) * 2 ^ 0)
      by (rewrite Z.mul_1_r; f_equal; f_equal; lia).
    rewrite round_exact; [f_equal; lia|exact Hq|exact Hqd|lia|unfold prec in *; lia].
  - rewrite Z2Pos.id by exact Hzk.
    replace (z * 2 ^ k) with (z * 2 ^ (prec - Zdigits2 z) * 2 ^ (Zpos j)).
    2:{ rewrite <- Z.mul_assoc, <- Z.pow_add_r by lia. f_equal. f_equal. lia. }
    rewrite round_exact; [f_equal; lia|exact Hq|exact Hqd|lia|unfold prec in *; lia].
  - rewrite iter_xO. rewrite Z2Pos.id by exact Hzk.
    replace (z * 2 ^ k * 2 ^ Zpos j) with (z * 2 ^ (prec - Zdigits2 z) * 2 ^ 0).
    2:{ rewrite Z.mul_1_r, <- Z.mul_assoc, <- Z.pow_add_r by lia. f_equal. f_equal. lia. }
    rewrite round_exact; [f_equal; lia|exact Hq|exact Hqd|lia|unfold prec in *; lia].
Qed.

Lemma Z2SF_pos (z : Z) :
  0 < z -> Zdigits2 z <= prec -> Z2SF z = S754_finite false (mant z) (expo z).
Proof.
  intros Hz Hd. unfold Z2SF. destruct z as [|p|p]; try lia.
  cbn [binary_normalize].
  rewrite <- (binary_round_scaled false (Zpos p) 0) by lia.
  rewrite Z.mul_1_r. reflexivity.
Qed.

Lemma Z2SF_neg (z : Z) :
  0 < z -> Zdigits2 z <= prec -> Z2SF (- z) = S754_finite true (mant z) (expo z).
Proof.
  intros Hz Hd. unfold Z2SF. destruct z as [|p|p]; try lia.
  cbn [binary_normalize Z.opp].
  rewrite <- (binary_round_scaled true (Zpos p) 0) by lia.
  rewrite Z.mul_1_r. reflexivity.
Qed.

Lemma Zdigits2_abs (z : Z) : Zdigits2 (Z.abs z) = Zdigits2 z.
Proof. destruct z; reflexivity. Qed.

Lemma Z2SF_repr (z : Z) : Zdigits2 z <= prec -> Z2SF z = repr z.
Proof.
  intros Hd. unfold repr. destruct (Z.eqb_spec z 0) as [->|Hne]; [reflexivity|].
  destruct (Z.ltb_spec z 0) as [Hneg|Hpos].
  - rewrite <- (Z.opp_involutive z) at 1. rewrite Z.abs_neq by lia.
    apply Z2SF_neg; [lia|]. rewrite <- Zdigits2_abs, Z.abs_neq in Hd by lia. exact Hd.
  - rewrite Z.abs_eq by lia. apply Z2SF_pos; [lia|exact Hd].
Qed.

Lemma digits2_size (p : positive) : digits2_pos p = Pos.size p.
Proof. induction p; simpl; congruence. Qed.

Lemma digits_bound (z n : Z) : 0 <= n -> Z.abs z < 2 ^ n -> Zdigits2 z <= n.
Proof.
  intros Hn Hz. rewrite <- Zdigits2_abs.
  destruct (Z.abs z) as [|p|p] eqn:E; [simpl; lia| |lia].
  simpl. rewrite digits2_size.
  pose proof (Pos.size_le p) as Hs.
  assert (H2 : 2 ^ Zpos (Pos.size p) <= 2 * Zpos p).
  { change (2 * Zpos p) with (Zpos p~0). rewrite <- Pos2Z.inj_pow.
    apply Pos2Z.pos_le_pos. exact Hs. }
  assert (H3 : 2 ^ Zpos (Pos.size p) < 2 ^ (n + 1))
    by (rewrite Z.pow_add_r by lia; change (2 ^ 1) with 2; lia).
  apply Z.pow_lt_mono_r_iff in H3; lia.
Qed.

Lemma shl_align_val (m : positive) (e e' : Z) :
  e' <= e -> Zpos (fst (shl_align m e e')) = Zpos m * 2 ^ (e - e').
Proof.
  intros H. unfold shl_align. destruct (e' - e) as [|d|d] eqn:E; try lia.
  - replace (e - e') with 0 by lia. cbn [fst]. rewrite Z.mul_1_r. reflexivity.
  - cbn [fst]. rewrite iter_xO. f_equal. f_equal. lia.
Qed.

Lemma binary_normalize_scaled (d k : Z) :
  0 <= k -> Zdigits2 d <= prec ->
  binary_normalize prec emax (d * 2 ^ k) (- k) false = repr d.
Proof.
  intros Hk Hd. unfold repr.
  assert (Hp : 0 < 2 ^ k) by (apply Z.pow_pos_nonneg; lia).
  destruct (Z.eqb_spec d 0) as [->|Hne]; [reflexivity|].
  destruct (Z.ltb_spec d 0) as [Hneg|Hpos].
  - assert (Hv : d * 2 ^ k = Zneg (Z.to_pos (Z.abs d * 2 ^ k))).
    { rewrite <- Pos2Z.opp_pos, Z2Pos.id by (apply Z.mul_pos_pos; lia). lia. }
    rewrite Hv. cbn [binary_normalize].
    apply binary_round_scaled; [lia| |lia]. rewrite Zdigits2_abs. exact Hd.
  - assert (Hv : d * 2 ^ k = Zpos (Z.to_pos (Z.abs d * 2 ^ k))).
    { rewrite Z2Pos.id by (apply Z.mul_pos_pos; lia). lia. }
    rewrite Hv. cbn [binary_normalize].
    apply binary_round_scaled; [lia| |lia]. rewrite Zdigits2_abs. exact Hd.
Qed.

Lemma expo_nonpos (z : Z) : Zdigits2 z <= prec -> expo z <= 0.
Proof. unfold expo. lia. Qed.

(** The scaled mantissa of [repr z] at a common exponent [- k]. *)
Lemma aligned_val (z k : Z) :
  z <> 0 -> Zdigits2 z <= prec -> - k <= expo (Z.abs z) ->
  cond_Zopp (z <? 0) (Zpos (fst (shl_align (mant (Z.abs z)) (expo (Z.abs z)) (- k))))
  = z * 2 ^ k.
Proof.
  intros Hz Hd Hk.
  assert (Hd' : Zdigits2 (Z.abs z) <= prec) by (rewrite Zdigits2_abs; exact Hd).
  pose proof (digits_pos (Z.abs z) ltac:(lia)) as Hd0.
  rewrite shl_align_val by exact Hk.
  rewrite mant_val by lia.
  rewrite <- Z.mul_assoc, <- Z.pow_add_r by (unfold expo in *; lia).
  replace (prec - Zdigits2 (Z.abs z) + (expo (Z.abs z) - - k)) with k
    by (unfold expo; lia).
  unfold cond_Zopp. destruct (Z.ltb_spec z 0); lia.
Qed.

(** Subtraction of two small integers is exact. *)
Lemma SFsub_repr (a b : Z) :
  Zdigits2 a <= prec -> Zdigits2 b <= prec -> Zdigits2 (a - b) <= prec ->
  SFsub prec emax (repr a) (repr b) = repr (a - b).
Proof.
  intros Ha Hb Hab.
  destruct (Z.eq_dec a 0) as [->|Hna]; destruct (Z.eq_dec b 0) as [->|Hnb].
  - reflexivity.
  - replace (0 - b) with (- b) by lia.
    assert (Hs : (- b <? 0) = negb (b <? 0))
      by (destruct (Z.ltb_spec b 0), (Z.ltb_spec (- b) 0); simpl; lia).
    unfold repr. rewrite Z.abs_opp, Hs.
    destruct (Z.eqb_spec b 0) as [|_]; [contradiction|].
    destruct (Z.eqb_spec (- b) 0) as [|_]; [lia|].
    reflexivity.
  - rewrite Z.sub_0_r. unfold repr.
    destruct (Z.eqb_spec a 0) as [|_]; [contradiction|]. reflexivity.
  - unfold repr at 1 2.
    destruct (Z.eqb_spec a 0) as [|_]; [contradiction|].
    destruct (Z.eqb_spec b 0) as [|_]; [contradiction|].
    cbn [SFsub].
    set (ea := expo (Z.abs a)). set (eb := expo (Z.abs b)).
    assert (Hea : ea <= 0) by (apply expo_nonpos; rewrite Zdigits2_abs; exact Ha).
    assert (Heb : eb <= 0) by (apply expo_nonpos; rewrite Zdigits2_abs; exact Hb).
    set (k := - Z.min ea eb).
    replace (Z.min ea eb) with (- k) by (unfold k; lia).
    unfold ea, eb in *.
    rewrite (aligned_val a k), (aligned_val b k) by (try assumption; unfold k; lia).
    rewrite <- Z.mul_sub_distr_r.
    apply binary_normalize_scaled; [unfold k; lia|exact Hab].
Qed.

(** Division of two binary64 numbers with the same 53-bit mantissa: the
    quotient is the power of two given by the exponents. *)
Lemma SFdiv_same_mant (s1 s2 : bool) (m : positive) (e1 e2 : Z) :
  Zdigits2 (Zpos m) = prec -> -1021 <= e1 - e2 <= 1022 ->
  SFdiv prec emax (S754_finite s1 m e1) (S754_finite s2 m e2)
  = S754_finite (xorb s1 s2) (Z.to_pos (2 ^ 52)) (e1 - e2 - 52).
Proof.
  intros Hd He. cbn [SFdiv]. unfold SFdiv_core_binary.
  replace (Z.min (fexp prec emax (Zdigits2 (Zpos m) + e1 - (Zdigits2 (Zpos m) + e2)))
                 (e1 - e2)) with (e1 - e2 - prec)
    by (unfold fexp, SpecFloat.emin, prec, emax; lia).
  replace (e1 - e2 - (e1 - e2 - prec)) with prec by lia.
  change (match prec with Z0 => Zpos m | Zpos _ => Z.shiftl (Zpos m) prec | Zneg _ => 0 end)
    with (Z.shiftl (Zpos m) prec).
  rewrite Z.shiftl_mul_pow2 by (unfold prec; lia).
  destruct (Z.div_eucl (Zpos m * 2 ^ prec) (Zpos m)) as [q r] eqn:E.
  assert (Hq : q = 2 ^ prec).
  { change q with (fst (q, r)). rewrite <- E.
    change (fst (Z.div_eucl (Zpos m * 2 ^ prec) (Zpos m)))
      with ((Zpos m * 2 ^ prec) / Zpos m).
    rewrite Z.mul_comm. apply Z.div_mul. lia. }
  assert (Hr : r = 0).
  { change r with (snd (q, r)). rewrite <- E.
    change (snd (Z.div_eucl (Zpos m * 2 ^ prec) (Zpos m)))
      with ((Zpos m * 2 ^ prec) mod Zpos m).
    rewrite Z.mul_comm. apply Z.mod_mul. lia. }
  subst q r.
  assert (Hloc : new_location (Zpos m) 0 = loc_Exact).
  { unfold new_location, new_location_even, new_location_odd.
    destruct (Z.even (Zpos m)); reflexivity. }
  rewrite Hloc.
  change (2 ^ prec) with (2 ^ 52 * 2 ^ 1).
  rewrite round_exact; [f_equal; unfold prec; lia|reflexivity|reflexivity|lia|unfold prec; lia].
Qed.

Lemma mant_double (z : Z) :
  0 < z -> Zdigits2 (2 * z) <= prec ->
  mant (2 * z) = mant z /\ expo (2 * z) = expo z + 1.
Proof.
  intros Hz Hd. rewrite digits_double in Hd by exact Hz.
  pose proof (digits_pos z Hz) as Hd0.
  unfold mant, expo. rewrite digits_double by exact Hz. split; [|lia].
  f_equal.
  replace (prec - Zdigits2 z) with (Z.succ (prec - (Zdigits2 z + 1))) by lia.
  rewrite Z.pow_succ_r by lia. lia.
Qed.

(** ** The primitive operations on small integers *)

Lemma SFopp_repr (z : Z) : z <> 0 -> SFopp (repr z) = repr (- z).
Proof.
  intros Hz. unfold repr. rewrite Z.abs_opp.
  destruct (Z.eqb_spec z 0) as [|_]; [contradiction|].
  destruct (Z.eqb_spec (- z) 0) as [|_]; [lia|].
  cbn [SFopp]. f_equal.
  destruct (Z.ltb_spec z 0), (Z.ltb_spec (- z) 0); simpl; lia.
Qed.

Lemma float64_of_int_spec (z : Z) :
  Z.abs z < 2 ^ 53 -> Prim2SF (float64_of_int z) = repr z.
Proof.
  intros Hz.
  assert (HwB : 2 ^ 53 < wB) by reflexivity.
  assert (Hconv : forall n, 0 <= n < 2 ^ 53 ->
            Prim2SF (of_uint63 (of_Z n)) = repr n).
  { intros n Hn. rewrite of_uint63_spec, of_Z_spec, Z.mod_small by lia.
    apply Z2SF_repr. apply digits_bound; [unfold prec; lia|].
    rewrite Z.abs_eq by lia. unfold prec. lia. }
  unfold float64_of_int. destruct (Z.ltb_spec z 0) as [Hneg|Hpos].
  - rewrite FloatAxioms.opp_spec, Hconv by lia.
    rewrite SFopp_repr by lia. f_equal. lia.
  - apply Hconv. lia.
Qed.

Lemma int32_digits (z : Z) : in_int32 z -> Zdigits2 z <= prec.
Proof.
  unfold in_int32. intros H. apply digits_bound; [unfold prec; lia|].
  unfold prec. lia.
Qed.

Lemma int32_diff_digits (a b : Z) :
  in_int32 a -> in_int32 b -> Zdigits2 (a - b) <= prec.
Proof.
  unfold in_int32. intros Ha Hb. apply digits_bound; [unfold prec; lia|].
  unfold prec. lia.
Qed.

Lemma float64_of_int32 (z : Z) :
  in_int32 z -> Prim2SF (float64_of_int z) = repr z.
Proof. unfold in_int32. intros H. apply float64_of_int_spec. lia. Qed.

(** The difference of two converted [int32] values is the converted
    difference. *)
Lemma float64_sub_int32 (a b : Z) :
  in_int32 a -> in_int32 b ->
  Prim2SF (float64_of_int a - float64_of_int b)%float = repr (a - b).
Proof.
  intros Ha Hb.
  rewrite FloatAxioms.sub_spec, !float64_of_int32 by assumption.
  apply SFsub_repr; auto using int32_digits, int32_diff_digits.
Qed.

Lemma repr_eqb_zero (d : Z) : SFeqb (repr d) (S754_zero false) = (d =? 0).
Proof. unfold repr. destruct (d =? 0), (d <? 0); reflexivity. Qed.

(** The guard [r != 0] of [handleAbsEvent] holds exactly when the
    calibration is not degenerate. *)
Lemma range_nonzero (info : input_absinfo) :
  in_int32 (minimum info) -> in_int32 (maximum info) ->
  negb (PrimFloat.eqb
          (float64_of_int (maximum info) - float64_of_int (minimum info)) 0)
  = negb (maximum info =? minimum info).
Proof.
  intros Hmin Hmax. rewrite FloatAxioms.eqb_spec, float64_sub_int32 by assumption.
  change (Prim2SF 0) with (S754_zero false). rewrite repr_eqb_zero.
  f_equal. destruct (Z.eqb_spec (maximum info - minimum info) 0),
    (Z.eqb_spec (maximum info) (minimum info)); try reflexivity; lia.
Qed.

(** The value of the rescaling, in the arithmetic of the IEEE 754
    specification. *)
Lemma normalize_spec (info : input_absinfo) (v : Z) :
  in_int32 v -> in_int32 (minimum info) -> in_int32 (maximum info) ->
  maximum info <> minimum info ->
  Prim2SF (normalize info v)
  = SF64sub (SF64mul (SF64div (repr (v - minimum info))
                              (repr (maximum info - minimum info)))
                     (Prim2SF 2))
            (Prim2SF 1).
Proof.
  intros Hv Hmin Hmax Hne. unfold normalize. cbv zeta.
  rewrite range_nonzero by assumption.
  destruct (Z.eqb_spec (maximum info) (minimum info)) as [|_]; [contradiction|].
  cbn [negb].
  rewrite FloatAxioms.sub_spec, FloatAxioms.mul_spec, FloatAxioms.div_spec.
  rewrite !float64_sub_int32 by assumption. reflexivity.
Qed.

Lemma normalize_min (info : input_absinfo) :
  in_int32 (minimum info) -> in_int32 (maximum info) ->
  maximum info <> minimum info ->
  normalize info (minimum info) = (-1)%float.
Proof.
  intros Hmin Hmax Hne. apply Prim2SF_inj.
  rewrite normalize_spec by assumption.
  rewrite Z.sub_diag. unfold repr at 2.
  destruct (Z.eqb_spec (maximum info - minimum info) 0) as [|_]; [lia|].
  destruct (maximum info - minimum info <? 0); reflexivity.
Qed.

Lemma normalize_max (info : input_absinfo) :
  in_int32 (minimum info) -> in_int32 (maximum info) ->
  maximum info <> minimum info ->
  normalize info (maximum info) = 1%float.
Proof.
  intros Hmin Hmax Hne. apply Prim2SF_inj.
  rewrite normalize_spec by assumption.
  pose proof (int32_diff_digits _ _ Hmax Hmin) as Hd.
  unfold repr.
  destruct (Z.eqb_spec (maximum info - minimum info) 0) as [|_]; [lia|].
  unfold SF64div. rewrite SFdiv_same_mant.
  - rewrite xorb_nilpotent, Z.sub_diag. reflexivity.
  - apply mant_digits; [lia|]. rewrite Zdigits2_abs. exact Hd.
  - lia.
Qed.

Lemma normalize_mid (info : input_absinfo) (v : Z) :
  in_int32 v -> in_int32 (minimum info) -> in_int32 (maximum info) ->
  minimum info < maximum info -> 2 * v = minimum info + maximum info ->
  normalize info v = 0%float.
Proof.
  intros Hv Hmin Hmax Hlt Hmid. apply Prim2SF_inj.
  rewrite normalize_spec by (try assumption; lia).
  pose proof (int32_diff_digits _ _ Hmax Hmin) as Hd.
  replace (maximum info - minimum info) with (2 * (v - minimum info)) in * by lia.
  assert (Hk : 0 < v - minimum info) by lia.
  destruct (mant_double (v - minimum info) Hk Hd) as [Hm He].
  unfold repr.
  destruct (Z.eqb_spec (v - minimum info) 0) as [|_]; [lia|].
  destruct (Z.eqb_spec (2 * (v - minimum info)) 0) as [|_]; [lia|].
  rewrite !Z.abs_eq by lia. rewrite Hm, He.
  destruct (Z.ltb_spec (v - minimum info) 0); [lia|].
  destruct (Z.ltb_spec (2 * (v - minimum info)) 0); [lia|].
  unfold SF64div. rewrite SFdiv_same_mant.
  - replace (expo (v - minimum info) - (expo (v - minimum info) + 1) - 52)
      with (-53) by lia.
    reflexivity.
  - apply mant_digits; [lia|]. rewrite digits_double in Hd by lia. lia.
  - lia.
Qed.

(** ** Axis normalization (C1) *)

(** C1, as the code has it.  For an event on a code outside the
    directional-pad range, mapped to axis [i], with [int32] value and
    calibration: [handleAbsEvent] stores one number [x] in axis [i] and
    changes nothing else.  When minimum < maximum, [x] is the rescaling
    ((v - min) / (max - min)) * 2 - 1 computed in binary64; it is exactly -1
    at the minimum, exactly 1 at the maximum, and exactly 0 at a value with
    2 * v = min + max.  When minimum = maximum, [x] is the raw value
    converted to binary64: the axis is overwritten, not kept. *)
Theorem handleAbsEvent_axis (g : nativeGamepad) (c v i : Z) (info : input_absinfo)
    (Hc : isHatCode c = false)
    (Hi : idx (absMap g) c = Some i)
    (Hinfo : idx (absInfo g) c = Some info)
    (Hr : 0 <= i < Z.of_nat (length (axes g)))
    (Hv : in_int32 v)
    (Hmin : in_int32 (minimum info)) (Hmax : in_int32 (maximum info)) :
  exists x,
    handleAbsEvent g c v = Some (set_axes g (<[Z.to_nat i := x]> (axes g))) /\
    (minimum info < maximum info ->
       x = ((float64_of_int v - float64_of_int (minimum info)) /
            (float64_of_int (maximum info) - float64_of_int (minimum info))
            * 2 - 1)%float /\
       (v = minimum info -> x = (-1)%float) /\
       (v = maximum info -> x = 1%float) /\
       (2 * v = minimum info + maximum info -> x = 0%float)) /\
    (minimum info = maximum info -> x = float64_of_int v).
Proof.
  exists (normalize info v). split; [|split].
  - unfold handleAbsEvent. rewrite Hi. bind_step. rewrite Hc, Hinfo.
    cbv beta iota. rewrite (upd_Some (axes g) i _ Hr). reflexivity.
  - intros Hlt.
    assert (Hne : maximum info <> minimum info) by lia.
    split; [|split; [|split]].
    + unfold normalize. cbv zeta. rewrite range_nonzero by assumption.
      destruct (Z.eqb_spec (maximum info) (minimum info)) as [|_];
        [contradiction|reflexivity].
    + intros ->. apply normalize_min; assumption.
    + intros ->. apply normalize_max; assumption.
    + intros Hmid. apply normalize_mid; assumption.
  - intros Heq. unfold normalize. cbv zeta. rewrite range_nonzero by assumption.
    rewrite Heq, Z.eqb_refl. reflexivity.
Qed.

Lemma handleAbsEvent_axis_witness :
  isHatCode 0 = false /\
  idx (absMap zeroNative) 0 = Some 0 /\
  idx (absInfo (set_absInfo zeroNative
                  (mkAbsinfo 0 (-32768) 32767 :: repeat zero_absinfo 63))) 0
    = Some (mkAbsinfo 0 (-32768) 32767) /\
  exists x,
    handleAbsEvent (set_absInfo zeroNative
                      (mkAbsinfo 0 (-32768) 32767 :: repeat zero_absinfo 63))
                   0 32767
    = Some (set_axes (set_absInfo zeroNative
                        (mkAbsinfo 0 (-32768) 32767 :: repeat zero_absinfo 63))
              (<[Z.to_nat 0 := x]> (axes zeroNative))) /\
    (-32768 < 32767 ->
       x = ((float64_of_int 32767 - float64_of_int (-32768)) /
            (float64_of_int 32767 - float64_of_int (-32768)) * 2 - 1)%float /\
       (32767 = -32768 -> x = (-1)%float) /\
       (32767 = 32767 -> x = 1%float) /\
       (2 * 32767 = -32768 + 32767 -> x = 0%float)) /\
    (-32768 = 32767 -> x = float64_of_int 32767).
Proof.
  split; [reflexivity|]. split; [reflexivity|]. split; [reflexivity|].
  apply (handleAbsEvent_axis
           (set_absInfo zeroNative
              (mkAbsinfo 0 (-32768) 32767 :: repeat zero_absinfo 63))
           0 32767 0 (mkAbsinfo 0 (-32768) 32767));
    try reflexivity; unfold in_int32; simpl; lia.
Defined.

(** C1 as stated fails in its second half: with the degenerate calibration
    minimum = maximum = 0 of a fresh gamepad, an event with value 7 on code
    0 changes axis 0 from 0 to 7. *)
Lemma degenerate_calibration_overwrites :
  idx (absInfo zeroNative) 0 = Some (mkAbsinfo 0 0 0) /\
  idx (axes zeroNative) 0 = Some 0%float /\
  (g' ← handleAbsEvent zeroNative 0 7; idx (axes g') 0) = Some 7%float /\
  PrimFloat.eqb 7 0 = false.
Proof. repeat split; vm_compute; reflexivity. Qed.

(** ** Further properties of the prober and the reader *)

Lemma lookup_repeat {A : Type} (x : A) (n i : nat) :
  (i < n)%nat -> repeat x n !! i = Some x.
Proof.
  revert i. induction n as [|n IH]; intros [|i] H; simpl; try lia; [reflexivity|].
  apply IH. lia.
Qed.

Lemma keyLoop_dense (keyBits : list byte) (codes : list Z) (km km' : list Z)
    (bc bc' : Z) :
  NoDup codes -> keyLoop keyBits codes km bc = Some (km', bc') ->
  bc' = bc + Z.of_nat (length (List.filter (present keyBits) codes)) /\
  map (fun c => idx km' (c - _BTN_MISC)) (List.filter (present keyBits) codes)
  = map Some (seqZ bc (Z.of_nat (length (List.filter (present keyBits) codes)))) /\
  forall c, present keyBits c = false \/ c ∉ codes ->
            idx km' (c - _BTN_MISC) = idx km (c - _BTN_MISC).
Proof.
  intros Hnd. revert km bc.
  induction Hnd as [|c0 rest Hnotin Hnd IH]; intros km bc H; cbn [keyLoop] in H.
  - injection H as <- <-. cbn. split; [lia|]. split; [reflexivity|]. reflexivity.
  - cbn [List.filter].
    destruct (isBitSet keyBits c0) as [[|]|] eqn:Eb; cbn in H; [| |discriminate];
      (assert (Hp0 : present keyBits c0 = _) by (unfold present; rewrite Eb; reflexivity));
      rewrite Hp0.
    + destruct (upd km (c0 - _BTN_MISC) bc) as [km1|] eqn:Eu; cbn in H; [|discriminate].
      destruct (IH km1 (bc + 1) H) as (Hbc & Hmap & Hframe).
      cbn [length map]. split; [lia|]. split.
      * rewrite Nat2Z.inj_succ, seqZ_cons by lia. cbn [map].
        rewrite (Hframe c0) by (right; exact Hnotin).
        rewrite (idx_upd_eq _ _ _ _ Eu). f_equal.
        rewrite Hmap. f_equal. f_equal; lia.
      * intros c Hc.
        assert (Hne : c0 <> c).
        { intros <-. destruct Hc as [Hc|Hc].
          - rewrite Hp0 in Hc. discriminate.
          - apply Hc. apply list_elem_of_here. }
        rewrite Hframe.
        -- apply (idx_upd_ne _ _ _ _ _ Eu). lia.
        -- destruct Hc as [Hc|Hc]; [left; exact Hc|right].
           intros Hin. apply Hc. apply list_elem_of_further. exact Hin.
    + destruct (IH km bc H) as (Hbc & Hmap & Hframe).
      split; [exact Hbc|]. split; [exact Hmap|].
      intros c Hc. apply Hframe.
      destruct Hc as [Hc|Hc]; [left; exact Hc|right].
      intros Hin. apply Hc. apply list_elem_of_further. exact Hin.
Qed.

(** The key map is dense for every key bitmap: the loop returns; the button
    count is the number of present key codes; the present codes, taken in
    ascending order, hold the indices 0, 1, ..., count - 1 in that order;
    the entry of an absent code keeps the zero value. *)
Theorem keyMap_dense (kb : list byte) :
  exists km n,
    keyLoop (fill (Z.to_nat (Z.quot (_KEY_CNT + 7) 8)) kb) keyCodes
            (keyMap zeroNative) 0 = Some (km, n) /\
    n = Z.of_nat (length (List.filter
          (present (fill (Z.to_nat (Z.quot (_KEY_CNT + 7) 8)) kb)) keyCodes)) /\
    map (fun c => idx km (c - _BTN_MISC))
        (List.filter (present (fill (Z.to_nat (Z.quot (_KEY_CNT + 7) 8)) kb)) keyCodes)
    = map Some (seqZ 0 n) /\
    forall c, _BTN_MISC <= c < _KEY_CNT ->
              present (fill (Z.to_nat (Z.quot (_KEY_CNT + 7) 8)) kb) c = false ->
              idx km (c - _BTN_MISC) = Some 0.
Proof.
  unfold keyCodes.
  destruct (keyLoop_total (fill (Z.to_nat (Z.quot (_KEY_CNT + 7) 8)) kb)
              (seqZ _BTN_MISC (_KEY_CNT - _BTN_MISC))
              (keyMap zeroNative) 0 codes_key (fill_length _ _) eq_refl)
    as (km & n & E & _ & _).
  exists km, n. split; [exact E|].
  destruct (keyLoop_dense _ _ _ _ _ _ (NoDup_seqZ _ _) E) as (Hn & Hmap & Hframe).
  split; [lia|]. split; [rewrite Hmap; f_equal; f_equal; lia|].
  intros c Hc Hp. rewrite Hframe by (left; exact Hp).
  unfold idx. destruct (Z.ltb_spec (c - _BTN_MISC) 0); [lia|].
  change (keyMap zeroNative) with (repeat 0 (Z.to_nat (_KEY_CNT - _BTN_MISC))).
  apply lookup_repeat. unfold _KEY_CNT, _BTN_MISC in *. lia.
Qed.

(** An error of one of the four capability queries is returned with the
    handle closed and the registry as it was: nothing is registered. *)
Theorem openGamepad_query_errors (w : string -> device) (s : sys)
    (gs : list Gamepad) (p : string) (f : Z) (e : errno)
    (Hnew : gamepads_find gs (fun gp => String.eqb (path (native gp)) p) = None)
    (Hopen : dev_open (w p) = inr f) :
  (dev_evBits (w p) = inl e ->
     openGamepad w s gs p = Some (Some (ErrEvBits e), gs, sys_close (sys_open s p) f)) /\
  (forall ev, dev_evBits (w p) = inr ev -> dev_keyBits (w p) = inl e ->
     openGamepad w s gs p = Some (Some (ErrKeyBits e), gs, sys_close (sys_open s p) f)) /\
  (forall ev kb, dev_evBits (w p) = inr ev -> dev_keyBits (w p) = inr kb ->
     dev_absBits (w p) = inl e ->
     openGamepad w s gs p = Some (Some (ErrAbsBits e), gs, sys_close (sys_open s p) f)) /\
  (forall ev kb ab, dev_evBits (w p) = inr ev -> dev_keyBits (w p) = inr kb ->
     dev_absBits (w p) = inr ab -> dev_id (w p) = inl e ->
     openGamepad w s gs p = Some (Some (ErrID e), gs, sys_close (sys_open s p) f)).
Proof.
  unfold openGamepad, probeDevice. rewrite Hnew, Hopen.
  split; [|split; [|split]].
  - intros ->. reflexivity.
  - intros ev -> ->. reflexivity.
  - intros ev kb -> -> ->. reflexivity.
  - intros ev kb ab -> -> -> ->. reflexivity.
Qed.

Lemma openGamepad_query_errors_witness :
  gamepads_find [] (fun gp => String.eqb (path (native gp)) samplePath) = None /\
  dev_open (mkDevice (inr 3) (inl (EOTHER 5)) (inr []) (inr [])
              (inr (mkInputID 3 1 1 1)) (inr []) steadyAbs) = inr 3 /\
  openGamepad (fun _ => mkDevice (inr 3) (inl (EOTHER 5)) (inr []) (inr [])
                          (inr (mkInputID 3 1 1 1)) (inr []) steadyAbs)
    noCalls [] samplePath
  = Some (Some (ErrEvBits (EOTHER 5)), [],
          sys_close (sys_open noCalls samplePath) 3).
Proof.
  split; [reflexivity|]. split; [reflexivity|].
  apply (openGamepad_query_errors
           (fun _ => mkDevice (inr 3) (inl (EOTHER 5)) (inr []) (inr [])
                       (inr (mkInputID 3 1 1 1)) (inr []) steadyAbs)
           noCalls [] samplePath 3 (EOTHER 5)); reflexivity.
Defined.

(** [openGamepad] returns for every registry, path and device (it neither
    panics nor exhausts the fuel of the absolute-axis loop); the registry it
    leaves is the old one, or the old one followed by one well-formed entry
    for the path. *)
Theorem openGamepad_returns (w : string -> device) (s : sys)
    (gs : list Gamepad) (p : string) :
  exists err gs' s',
    openGamepad w s gs p = Some (err, gs', s') /\
    (gs' = gs \/
     exists gp, gs' = gs ++ [gp] /\ path (native gp) = p /\ wf (native gp)).
Proof.
  unfold openGamepad.
  destruct (gamepads_find gs _) as [gp|]; [eauto 10|].
  destruct (dev_open (w p)) as [e|f]; [destruct e; eauto 10|].
  unfold probeDevice.
  destruct (dev_evBits (w p)) as [e|ev]; [cbn; eauto 10|].
  destruct (dev_keyBits (w p)) as [e|kb]; [cbn; eauto 10|].
  destruct (dev_absBits (w p)) as [e|ab]; [cbn; eauto 10|].
  destruct (dev_id (w p)) as [e|id]; [cbn; eauto 10|].
  cbv zeta.
  destruct (evBits_query ev EV_KEY) as [hasKey HK]; [unfold EV_KEY, EV_CNT; lia|].
  destruct (evBits_query ev EV_ABS) as [hasAbs HA]; [unfold EV_ABS, EV_CNT; lia|].
  rewrite HK. bind_step. destruct hasKey; cbv beta iota delta [negb];
    [|cbn [deferClose]; eauto 10].
  rewrite HA. cbv beta iota delta [negb]. destruct hasAbs; cbv beta iota;
    [|cbn [deferClose]; eauto 10].
  destruct (wf_fresh p f) as [Hwf Hpo].
  destruct (buildMaps_total (w p)
              (fill (Z.to_nat (Z.quot (_KEY_CNT + 7) 8)) kb)
              (fill (Z.to_nat (Z.quot (_ABS_CNT + 7) 8)) ab)
              (set_fd (set_path zeroNative p) f))
    as (err & g' & E & Hwf' & _ & Hp' & _);
    [apply fill_length | apply fill_length | exact Hwf | exact Hpo |].
  rewrite E. cbv beta iota. unfold registered.
  destruct err as [e|]; cbn [deferClose];
    eexists _, _, _; (split; [reflexivity|]); right;
    eexists; (split; [reflexivity|]); cbn [native]; auto.
Qed.

Lemma sameShape_refl (g : nativeGamepad) : sameShape g g.
Proof. unfold sameShape. tauto. Qed.

Lemma sameShape_trans (g1 g2 g3 : nativeGamepad) :
  sameShape g1 g2 -> sameShape g2 g3 -> sameShape g1 g3.
Proof. unfold sameShape. intuition congruence. Qed.

Lemma sameShape_wf (g g' : nativeGamepad) : sameShape g g' -> wf g -> wf g'.
Proof.
  intros (Hk & Hm & Ha & Hb & Hh & _ & Li & La & Lb & Lh) [].
  constructor; congruence.
Qed.

Lemma handleAbsEvent_shape (g g' : nativeGamepad) (c v : Z) :
  handleAbsEvent g c v = Some g' -> sameShape g g'.
Proof.
  unfold handleAbsEvent. intros H.
  destruct (idx (absMap g) c) as [i|]; cbn in H; [|discriminate].
  destruct (isHatCode c).
  - destruct (Z.rem (c - _ABS_HAT0X) 2) as [|[| |]|];
      try (injection H as <-; apply sameShape_refl);
      destruct (idx (hats g) i); cbn in H; try discriminate;
      destruct (upd (hats g) i _) eqn:Eu; cbn in H; try discriminate;
      injection H as <-; apply upd_length in Eu;
      unfold sameShape; cbn; tauto.
  - destruct (idx (absInfo g) c); cbn in H; [|discriminate].
    destruct (upd (axes g) i _) eqn:Eu; cbn in H; [|discriminate].
    injection H as <-. apply upd_length in Eu. unfold sameShape. cbn. tauto.
Qed.

Lemma pollAbsState_from_shape (q : abs_oracle) (codes : list Z) (t t' : nat)
    (g g' : nativeGamepad) (err : option gerror) :
  pollAbsState_from q codes t g = Some (err, g', t') -> sameShape g g'.
Proof.
  revert t g. induction codes as [|c rest IH]; intros t g H; cbn [pollAbsState_from] in H.
  - injection H as _ <- _. apply sameShape_refl.
  - destruct (idx (absMap g) c) as [m|]; cbn in H; [|discriminate].
    destruct (m <? 0); [apply IH in H; exact H|].
    destruct (q t c) as [e|info].
    + injection H as _ <- _. apply sameShape_refl.
    + destruct (upd (absInfo g) c info) as [ai|] eqn:Eu; cbn in H; [|discriminate].
      destruct (handleAbsEvent (set_absInfo g ai) c (value info)) as [g1|] eqn:E;
        cbn in H; [|discriminate].
      apply IH in H. apply handleAbsEvent_shape in E. apply upd_length in Eu.
      eapply sameShape_trans; [|exact H].
      eapply sameShape_trans; [|exact E].
      unfold sameShape. cbn. tauto.
Qed.

Lemma pollAbsState_shape (q : abs_oracle) (t t' : nat)
    (g g' : nativeGamepad) (err : option gerror) :
  pollAbsState q t g = Some (err, g', t') -> sameShape g g'.
Proof. unfold pollAbsState. apply pollAbsState_from_shape. Qed.

Lemma handleSyn_shape (q : abs_oracle) (t t1 : nat) (g g1 : nativeGamepad)
    (e : input_event) :
  handleSyn q t g e = Some (g1, t1) -> sameShape g g1.
Proof.
  unfold handleSyn. intros Es. destruct (typ e =? EV_SYN).
  - destruct (code e =? _SYN_DROPPED).
    + injection Es as <- _. unfold sameShape. cbn. tauto.
    + destruct (code e =? _SYN_REPORT).
      * destruct (pollAbsState q t (set_dropped g false)) as [[[er g2] t2]|] eqn:Ep;
          bind_in Es; [|discriminate].
        injection Es as <- _.
        apply pollAbsState_shape in Ep.
        eapply sameShape_trans; [|exact Ep]. unfold sameShape. cbn. tauto.
      * injection Es as <- _. apply sameShape_refl.
  - injection Es as <- _. apply sameShape_refl.
Qed.

Lemma processEvent_shape (q : abs_oracle) (t t' : nat) (g g' : nativeGamepad)
    (e : input_event) :
  processEvent q t g e = Some (g', t') -> sameShape g g'.
Proof.
  unfold processEvent. intros H.
  destruct (handleSyn q t g e) as [[g1 t1]|] eqn:Es; bind_in H; [|discriminate].
  apply handleSyn_shape in Es.
  eapply sameShape_trans; [exact Es|].
  destruct (dropped g1); [injection H as <- _; apply sameShape_refl|].
  destruct (typ e =? EV_KEY).
  - destruct (idx (keyMap g1) _) as [i|]; bind_in H; [|discriminate].
    destruct (upd (buttons g1) i _) eqn:Eu; bind_in H; [|discriminate].
    injection H as <- _. apply upd_length in Eu. unfold sameShape. cbn. tauto.
  - destruct (typ e =? EV_ABS).
    + destruct (handleAbsEvent g1 (code e) (evalue e)) as [g2|] eqn:E; bind_in H;
        [|discriminate].
      injection H as <- _. apply handleAbsEvent_shape in E. exact E.
    + injection H as <- _. apply sameShape_refl.
Qed.

Lemma readLoop_shape (q : abs_oracle) (reads : list read_result) (t : nat)
    (s s' : sys) (g g' : nativeGamepad) (err : option gerror) :
  readLoop q reads t s g = Some (err, g', s') -> sameShape g g'.
Proof.
  revert t g. induction reads as [|r reads IH]; intros t g H; cbn [readLoop] in H.
  - injection H as _ <- _. apply sameShape_refl.
  - destruct r as [data|e].
    + destruct (processEvent q t g _) as [[g1 t1]|] eqn:E; bind_in H; [|discriminate].
      apply IH in H. apply processEvent_shape in E.
      eapply sameShape_trans; eassumption.
    + destruct e; cbv beta iota in H; try (unfold close in H; cbv beta iota in H);
        injection H as _ <- _;
        first [apply sameShape_refl | unfold sameShape; cbn; tauto].
Qed.

(** What discovery fixed stays fixed: whenever [update] returns, the index
    maps, the counts and the path are those it started with, and a
    well-formed gamepad is still well formed. *)
Theorem update_keeps_shape (q : abs_oracle) (reads : list read_result)
    (s : sys) (g : nativeGamepad) :
  match update q reads s g with
  | Some (_, g', _) =>
      keyMap g' = keyMap g /\ absMap g' = absMap g /\
      axisCount_ g' = axisCount_ g /\ buttonCount_ g' = buttonCount_ g /\
      hatCount_ g' = hatCount_ g /\ path g' = path g /\ (wf g -> wf g')
  | None => True
  end.
Proof.
  unfold update. destruct (fd g =? 0); [tauto|].
  destruct (readLoop q reads 0 s g) as [[[err g'] s']|] eqn:E; [|exact I].
  apply readLoop_shape in E. pose proof (sameShape_wf g g' E) as Hwf.
  destruct E as (? & ? & ? & ? & ? & ? & _). tauto.
Qed.

(** A key event whose code is below the base of the button range makes the
    reader panic when [dropped] is clear: the [uint16] difference wraps
    around to an index beyond the key map. *)
Theorem key_event_below_base_panics (q : abs_oracle) (t : nat)
    (g : nativeGamepad) (e : input_event)
    (Hd : dropped g = false) (Ht : typ e = EV_KEY)
    (Hc : 0 <= code e < _BTN_MISC)
    (Hk : length (keyMap g) = Z.to_nat (_KEY_CNT - _BTN_MISC)) :
  processEvent q t g e = None.
Proof.
  unfold processEvent, handleSyn. rewrite Ht.
  change (EV_KEY =? EV_SYN) with false. change (EV_KEY =? EV_KEY) with true.
  bind_step. rewrite Hd.
  assert (Hw : uint16_wrap (code e - _BTN_MISC) = code e - _BTN_MISC + 65536).
  { unfold uint16_wrap, _BTN_MISC in *.
    rewrite <- (Z.mod_add _ 1) by lia. rewrite Z.mod_small; lia. }
  assert (Hi : idx (keyMap g) (uint16_wrap (code e - _BTN_MISC)) = None).
  { rewrite Hw. unfold idx, _BTN_MISC in *.
    destruct (Z.ltb_spec (code e - 256 + 65536) 0); [reflexivity|].
    apply lookup_ge_None. rewrite Hk. unfold _KEY_CNT, _BTN_MISC. lia. }
  rewrite Hi. reflexivity.
Qed.

Lemma key_event_below_base_panics_witness :
  dropped zeroNative = false /\ typ (mkEvent 1 30 1) = EV_KEY /\
  0 <= code (mkEvent 1 30 1) < _BTN_MISC /\
  processEvent steadyAbs 0 zeroNative (mkEvent 1 30 1) = None.
Proof.
  split; [reflexivity|]. split; [reflexivity|]. split; [unfold _BTN_MISC; simpl; lia|].
  apply (key_event_below_base_panics steadyAbs 0 zeroNative (mkEvent 1 30 1));
    [reflexivity | reflexivity | unfold _BTN_MISC; simpl; lia | reflexivity].
Defined.

(** ** The absolute-axis map on paired bitmaps *)

Lemma hat_code_cases (c : Z) :
  isHatCode c = true ->
  c = 16 \/ c = 17 \/ c = 18 \/ c = 19 \/ c = 20 \/ c = 21 \/ c = 22 \/ c = 23.
Proof.
  intros H. apply isHatCode_inv in H. unfold _ABS_HAT0X, _ABS_HAT3Y in H. lia.
Qed.

Lemma hatX_next (c : Z) :
  isHatX c = true ->
  isHatCode (c + 1) = true /\ isHatX (c + 1) = false /\ isHatY (c + 1) = true /\
  isHatY (c + 1 + 1) = false /\ c + 1 < _ABS_CNT.
Proof.
  unfold isHatX. intros H. apply andb_true_iff in H as [Hc Hr].
  destruct (hat_code_cases c Hc) as [->|[->|[->|[->|[->|[->|[->| ->]]]]]]];
    try discriminate Hr; vm_compute; repeat split; reflexivity.
Qed.

Lemma hatY_pred (c : Z) :
  isHatCode c = false -> isHatY (c + 1) = false.
Proof.
  intros H. unfold isHatY. destruct (isHatCode (c + 1)) eqn:E; [|reflexivity].
  destruct (hat_code_cases _ E) as [Hc|[Hc|[Hc|[Hc|[Hc|[Hc|[Hc|Hc]]]]]]];
    rewrite Hc; try reflexivity;
    (replace c with (c + 1 - 1) in H by lia; rewrite Hc in H; discriminate H).
Qed.

Lemma hat_X_or_Y (c : Z) :
  isHatCode c = true -> isHatY c = false -> isHatX c = true.
Proof.
  intros Hc. unfold isHatX, isHatY. rewrite Hc.
  destruct (hat_code_cases c Hc) as [->|[->|[->|[->|[->|[->|[->| ->]]]]]]];
    vm_compute; congruence.
Qed.

Lemma paired_Y (absBits : list byte) (c : Z) :
  pairedb absBits = true -> isHatY c = true ->
  present absBits (c - 1) = false -> present absBits c = false.
Proof.
  unfold pairedb, isHatY. cbn [forallb]. intros Hp Hy Hx.
  apply andb_true_iff in Hy as [Hc Hr].
  repeat (apply andb_true_iff in Hp as [? Hp]).
  destruct (hat_code_cases c Hc) as [->|[->|[->|[->|[->|[->|[->| ->]]]]]]];
    try discriminate Hr;
    match goal with
    | H : implb (present absBits ?y) _ = true |- present absBits ?y = false =>
        change (y - 1) with (y - 1) in H; cbn [Z.sub Z.add Z.opp Z.pos_sub Pos.pred_double] in Hx;
        destruct (present absBits y); [|reflexivity];
        cbn [Z.sub Z.add Z.opp Z.pos_sub Pos.pred_double] in H; rewrite Hx in H; discriminate H
    end.
Qed.

Lemma absCodesFrom_done (c : Z) : _ABS_CNT <= c -> absCodesFrom c = [].
Proof.
  intros H. unfold absCodesFrom, seqZ.
  replace (Z.to_nat (_ABS_CNT - c)) with 0%nat by lia. reflexivity.
Qed.

Lemma absCodesFrom_cons (c : Z) :
  c < _ABS_CNT -> absCodesFrom c = c :: absCodesFrom (c + 1).
Proof.
  intros H. unfold absCodesFrom. rewrite seqZ_cons by lia.
  f_equal. f_equal; lia.
Qed.

Lemma present_bit (absBits : list byte) (c : Z) (b : bool) :
  isBitSet absBits c = Some b -> present absBits c = b.
Proof. unfold present. intros ->. destruct b; reflexivity. Qed.

Lemma filter_keep {A : Type} (f : A -> bool) (a : A) (l : list A) :
  f a = true -> List.filter f (a :: l) = a :: List.filter f l.
Proof. intros H. cbn [List.filter]. rewrite H. reflexivity. Qed.

Lemma filter_drop {A : Type} (f : A -> bool) (a : A) (l : list A) :
  f a = false -> List.filter f (a :: l) = List.filter f l.
Proof. intros H. cbn [List.filter]. rewrite H. reflexivity. Qed.

(** The invariant of the absolute-axis loop on a paired bitmap, from any
    position that is not a present Y code. *)
Lemma absLoop_dense (absBits : list byte) (q : abs_oracle)
    (Hp : pairedb absBits = true) (fuel : nat) :
  forall (c : Z) (t : nat) (g : nativeGamepad) (ax hc : Z)
         (g' : nativeGamepad) (ax' hc' : Z) (t' : nat),
  0 <= c ->
  (isHatY c = true -> present absBits c = false) ->
  absLoop fuel absBits q c t g ax hc = Some (None, g', ax', hc', t') ->
  ax' = ax + Z.of_nat (length (List.filter (axisPresent absBits) (absCodesFrom c))) /\
  hc' = hc + Z.of_nat (length (List.filter (hatPresent absBits) (absCodesFrom c))) /\
  map (idx (absMap g')) (List.filter (axisPresent absBits) (absCodesFrom c))
  = map Some (seqZ ax (Z.of_nat (length
      (List.filter (axisPresent absBits) (absCodesFrom c))))) /\
  map (idx (absMap g')) (List.filter (hatPresent absBits) (absCodesFrom c))
  = map Some (seqZ hc (Z.of_nat (length
      (List.filter (hatPresent absBits) (absCodesFrom c))))) /\
  (forall j, j < c -> idx (absMap g') j = idx (absMap g) j) /\
  (forall j, c <= j < _ABS_CNT -> present absBits j = false ->
             skippedY absBits j = false -> idx (absMap g') j = Some (-1)).
Proof.
  induction fuel as [|fuel IH]; intros c t g ax hc g' ax' hc' t' Hc Hentry E;
    cbn [absLoop] in E;
    (destruct (Z.ltb_spec c _ABS_CNT) as [Hlt|Hge]; cbn [negb] in E;
     [|injection E as <- <- <- <-; rewrite (absCodesFrom_done c Hge); cbn;
       repeat split; try lia; intros; lia]).
  - discriminate E.
  - destruct (upd (absMap g) c (-1)) as [am1|] eqn:Eu1; bind_in E; [|discriminate E].
    cbv zeta in E.
    destruct (isBitSet absBits c) as [b|] eqn:Eb; bind_in E; [|discriminate E].
    pose proof (present_bit _ _ _ Eb) as Hpres.
    rewrite (absCodesFrom_cons c Hlt).
    destruct b; cbn [negb] in E.
    + destruct (isHatCode c) eqn:Hhat.
      * (* a present X code *)
        assert (HX : isHatX c = true).
        { apply hat_X_or_Y; [exact Hhat|].
          destruct (isHatY c); [|reflexivity]. specialize (Hentry eq_refl). congruence. }
        destruct (hatX_next c HX) as (Hn1 & Hn2 & Hn3 & Hn4 & Hn5).
        destruct (upd (absMap (set_absMap g am1)) c hc) as [am2|] eqn:Eu2; bind_in E;
          [|discriminate E].
        cbn [absMap set_absMap] in Eu2.
        apply IH in E; [|lia|rewrite Hn4; discriminate].
        destruct E as (Ea & Eh & Ma & Mh & Fr & Ab).
        cbn [absMap set_absMap] in Fr.
        rewrite (absCodesFrom_cons (c + 1) Hn5).
        rewrite (filter_drop (axisPresent absBits) c)
          by (unfold axisPresent; rewrite Hhat; apply andb_false_r).
        rewrite (filter_drop (axisPresent absBits) (c + 1))
          by (unfold axisPresent; rewrite Hn1; apply andb_false_r).
        rewrite (filter_keep (hatPresent absBits) c)
          by (unfold hatPresent; rewrite Hpres, HX; reflexivity).
        rewrite (filter_drop (hatPresent absBits) (c + 1))
          by (unfold hatPresent; rewrite Hn2; apply andb_false_r).
        cbn [length map]. rewrite Nat2Z.inj_succ, (seqZ_cons hc) by lia.
        cbn [map].
        assert (Hidx : idx (absMap g') c = Some hc).
        { rewrite Fr by lia. apply (idx_upd_eq _ _ _ _ Eu2). }
        rewrite Hidx.
        split; [exact Ea|]. split; [lia|]. split; [exact Ma|].
        split; [f_equal; rewrite Mh; f_equal; f_equal; lia|].
        split.
        -- intros j Hj. rewrite Fr by lia.
           rewrite (idx_upd_ne _ _ _ _ _ Eu2) by lia.
           apply (idx_upd_ne _ _ _ _ _ Eu1). lia.
        -- intros j Hj Hjp Hjs.
           destruct (Z.eq_dec j c) as [->|Hne1]; [congruence|].
           destruct (Z.eq_dec j (c + 1)) as [->|Hne2].
           ++ unfold skippedY in Hjs. rewrite Hn3 in Hjs.
              replace (c + 1 - 1) with c in Hjs by lia.
              rewrite Hpres in Hjs. discriminate.
           ++ apply Ab; [lia|exact Hjp|exact Hjs].
      * (* a present axis code *)
        destruct (q t c) as [e|info]; [discriminate E|].
        destruct (upd (absInfo (set_absMap g am1)) c info) as [ai|] eqn:Eu3;
          bind_in E; [|discriminate E].
        cbv zeta in E.
        destruct (upd (absMap (set_absInfo (set_absMap g am1) ai)) c ax) as [am2|] eqn:Eu2;
          bind_in E; [|discriminate E].
        cbn [absMap set_absMap set_absInfo] in Eu2.
        apply IH in E; [|lia|rewrite (hatY_pred c Hhat); discriminate].
        destruct E as (Ea & Eh & Ma & Mh & Fr & Ab).
        cbn [absMap set_absMap set_absInfo] in Fr.
        rewrite (filter_keep (axisPresent absBits) c)
          by (unfold axisPresent; rewrite Hpres, Hhat; reflexivity).
        rewrite (filter_drop (hatPresent absBits) c)
          by (unfold hatPresent, isHatX; rewrite Hhat; apply andb_false_r).
        cbn [length map]. rewrite Nat2Z.inj_succ, (seqZ_cons ax) by lia.
        cbn [map].
        assert (Hidx : idx (absMap g') c = Some ax).
        { rewrite Fr by lia. apply (idx_upd_eq _ _ _ _ Eu2). }
        rewrite Hidx.
        split; [lia|]. split; [exact Eh|].
        split; [f_equal; rewrite Ma; f_equal; f_equal; lia|].
        split; [exact Mh|].
        split.
        -- intros j Hj. rewrite Fr by lia.
           rewrite (idx_upd_ne _ _ _ _ _ Eu2) by lia.
           apply (idx_upd_ne _ _ _ _ _ Eu1). lia.
        -- intros j Hj Hjp Hjs.
           destruct (Z.eq_dec j c) as [->|Hne1]; [congruence|].
           apply Ab; [lia|exact Hjp|exact Hjs].
    + (* an absent code *)
      apply IH in E; [|lia|].
      2:{ intros HY. apply (paired_Y absBits (c + 1) Hp HY).
          replace (c + 1 - 1) with c by lia. exact Hpres. }
      destruct E as (Ea & Eh & Ma & Mh & Fr & Ab).
      cbn [absMap set_absMap] in Fr.
      rewrite (filter_drop (axisPresent absBits) c)
        by (unfold axisPresent; rewrite Hpres; reflexivity).
      rewrite (filter_drop (hatPresent absBits) c)
        by (unfold hatPresent; rewrite Hpres; reflexivity).
      split; [exact Ea|]. split; [exact Eh|]. split; [exact Ma|].
      split; [exact Mh|].
      split.
      * intros j Hj. rewrite Fr by lia. apply (idx_upd_ne _ _ _ _ _ Eu1). lia.
      * intros j Hj Hjp Hjs.
        destruct (Z.eq_dec j c) as [->|Hne1].
        -- rewrite Fr by lia. apply (idx_upd_eq _ _ _ _ Eu1).
        -- apply Ab; [lia|exact Hjp|exact Hjs].
Qed.

(** The index maps are dense on every paired bitmap.  For every key bitmap
    and every absolute-axis bitmap in which no directional pad has its Y
    code without its X code, [buildMaps] on a fresh entry does not panic,
    and when it returns without error: the present key codes, the present
    axis codes and the present X codes, each taken in ascending order, hold
    the indices 0, 1, ..., count - 1 of their index space, the three counts
    are the numbers of such codes, and every other absent absolute code
    holds -1 (the Y code after a present X code is passed over). *)
Theorem dense_maps_paired (d : device) (kb ab : list byte) (p : string) (f : Z)
    (Hp : pairedb (fill (Z.to_nat (Z.quot (_ABS_CNT + 7) 8)) ab) = true) :
  match buildMaps d (fill (Z.to_nat (Z.quot (_KEY_CNT + 7) 8)) kb)
                  (fill (Z.to_nat (Z.quot (_ABS_CNT + 7) 8)) ab)
                  (set_fd (set_path zeroNative p) f) with
  | Some (None, g) =>
      map (fun c => idx (keyMap g) (c - _BTN_MISC))
          (List.filter (present (fill (Z.to_nat (Z.quot (_KEY_CNT + 7) 8)) kb))
                       keyCodes)
      = map Some (seqZ 0 (buttonCount_ g)) /\
      map (idx (absMap g))
          (List.filter (axisPresent (fill (Z.to_nat (Z.quot (_ABS_CNT + 7) 8)) ab))
                       (absCodesFrom 0))
      = map Some (seqZ 0 (axisCount_ g)) /\
      map (idx (absMap g))
          (List.filter (hatPresent (fill (Z.to_nat (Z.quot (_ABS_CNT + 7) 8)) ab))
                       (absCodesFrom 0))
      = map Some (seqZ 0 (hatCount_ g)) /\
      buttonCount_ g = Z.of_nat (length (List.filter
        (present (fill (Z.to_nat (Z.quot (_KEY_CNT + 7) 8)) kb)) keyCodes)) /\
      axisCount_ g = Z.of_nat (length (List.filter
        (axisPresent (fill (Z.to_nat (Z.quot (_ABS_CNT + 7) 8)) ab))
        (absCodesFrom 0))) /\
      hatCount_ g = Z.of_nat (length (List.filter
        (hatPresent (fill (Z.to_nat (Z.quot (_ABS_CNT + 7) 8)) ab))
        (absCodesFrom 0))) /\
      forall j, 0 <= j < _ABS_CNT ->
        present (fill (Z.to_nat (Z.quot (_ABS_CNT + 7) 8)) ab) j = false ->
        skippedY (fill (Z.to_nat (Z.quot (_ABS_CNT + 7) 8)) ab) j = false ->
        idx (absMap g) j = Some (-1)
  | Some (Some _, _) => True
  | None => False
  end.
Proof.
  set (keyBits := fill (Z.to_nat (Z.quot (_KEY_CNT + 7) 8)) kb) in *.
  set (absBits := fill (Z.to_nat (Z.quot (_ABS_CNT + 7) 8)) ab) in *.
  set (g0 := set_fd (set_path zeroNative p) f).
  destruct (wf_fresh p f) as [Hwf Hpo]. fold g0 in Hwf, Hpo.
  unfold buildMaps, keyCodes.
  destruct (keyLoop_total keyBits (seqZ _BTN_MISC (_KEY_CNT - _BTN_MISC))
              (keyMap g0) 0 codes_key (fill_length _ _) (wf_keyMap _ Hwf))
    as (km & bc & Ek & Hkm & _).
  rewrite Ek. bind_step.
  destruct (keyLoop_dense _ _ _ _ _ _ (NoDup_seqZ _ _) Ek) as (Hbc & Hkmap & _).
  destruct Hpo as (Pm & Pi & Pa & Ph).
  destruct (absLoop_fuel (Z.to_nat _ABS_CNT) absBits (dev_abs d) 0 0
              (set_keyMap g0 km) 0 0)
    as (err & g1 & ax & hc & t1 & Ea & Hm1 & Hi1 & Hax & Hhc & F);
    [ apply fill_length | lia | unfold _ABS_CNT; lia | exact Pm | exact Pi | lia
    | unfold _ABS_CNT; lia | lia | unfold _ABS_HAT0X; lia |].
  rewrite Ea. cbv beta iota.
  destruct err as [e|]; [exact I|].
  cbn [keyMap axes buttons hats fd path axisCount_ buttonCount_ hatCount_
       dropped set_keyMap] in F.
  destruct F as (Fk & Fa & Fb & Fh & _).
  apply absLoop_dense in Ea; [|exact Hp|lia|discriminate].
  destruct Ea as (Eax & Ehc & Ma & Mh & _ & Ab).
  destruct (pollAbsState_total (dev_abs d) t1 (set_counts g1 ax bc hc))
    as (err & g2 & t2 & Ep & _).
  { unfold poll_ok. cbn [absMap absInfo axes hats set_counts].
    rewrite Fa, Fh. tauto. }
  rewrite Ep. cbv beta iota.
  destruct err as [e|]; [exact I|].
  apply pollAbsState_frame in Ep.
  cbn [keyMap absMap buttons fd path axisCount_ buttonCount_ hatCount_
       dropped set_counts] in Ep.
  destruct Ep as (_ & Gm & Gk & _ & _ & _ & Gac & Gbc & Ghc).
  rewrite Gm, Gk, Gac, Gbc, Ghc, Fk.
  split; [rewrite Hkmap; f_equal; f_equal; lia|].
  split; [rewrite Ma; f_equal; f_equal; lia|].
  split; [rewrite Mh; f_equal; f_equal; lia|].
  split; [lia|]. split; [lia|]. split; [lia|].
  intros j Hj. apply Ab. lia.
Qed.

Lemma dense_maps_paired_witness :
  pairedb (fill (Z.to_nat (Z.quot (_ABS_CNT + 7) 8))
             [Byte.x03; Byte.x00; Byte.x0f]) = true /\
  match buildMaps (sampleDevice [Byte.x0a] [] [Byte.x03; Byte.x00; Byte.x0f] steadyAbs)
                  (fill (Z.to_nat (Z.quot (_KEY_CNT + 7) 8)) [])
                  (fill (Z.to_nat (Z.quot (_ABS_CNT + 7) 8))
                     [Byte.x03; Byte.x00; Byte.x0f])
                  (set_fd (set_path zeroNative samplePath) 3) with
  | Some (None, g) =>
      map (fun c => idx (keyMap g) (c - _BTN_MISC))
          (List.filter (present (fill (Z.to_nat (Z.quot (_KEY_CNT + 7) 8)) []))
                       keyCodes)
      = map Some (seqZ 0 (buttonCount_ g)) /\
      map (idx (absMap g))
          (List.filter (axisPresent (fill (Z.to_nat (Z.quot (_ABS_CNT + 7) 8))
                                       [Byte.x03; Byte.x00; Byte.x0f]))
                       (absCodesFrom 0))
      = map Some (seqZ 0 (axisCount_ g)) /\
      map (idx (absMap g))
          (List.filter (hatPresent (fill (Z.to_nat (Z.quot (_ABS_CNT + 7) 8))
                                      [Byte.x03; Byte.x00; Byte.x0f]))
                       (absCodesFrom 0))
      = map Some (seqZ 0 (hatCount_ g)) /\
      buttonCount_ g = Z.of_nat (length (List.filter
        (present (fill (Z.to_nat (Z.quot (_KEY_CNT + 7) 8)) [])) keyCodes)) /\
      axisCount_ g = Z.of_nat (length (List.filter
        (axisPresent (fill (Z.to_nat (Z.quot (_ABS_CNT + 7) 8))
                        [Byte.x03; Byte.x00; Byte.x0f]))
        (absCodesFrom 0))) /\
      hatCount_ g = Z.of_nat (length (List.filter
        (hatPresent (fill (Z.to_nat (Z.quot (_ABS_CNT + 7) 8))
                       [Byte.x03; Byte.x00; Byte.x0f]))
        (absCodesFrom 0))) /\
      forall j, 0 <= j < _ABS_CNT ->
        present (fill (Z.to_nat (Z.quot (_ABS_CNT + 7) 8))
                   [Byte.x03; Byte.x00; Byte.x0f]) j = false ->
        skippedY (fill (Z.to_nat (Z.quot (_ABS_CNT + 7) 8))
                    [Byte.x03; Byte.x00; Byte.x0f]) j = false ->
        idx (absMap g) j = Some (-1)
  | Some (Some _, _) => True
  | None => False
  end.
Proof.
  split; [reflexivity|].
  apply (dense_maps_paired
           (sampleDevice [Byte.x0a] [] [Byte.x03; Byte.x00; Byte.x0f] steadyAbs)
           [] [Byte.x03; Byte.x00; Byte.x0f] samplePath 3).
  reflexivity.
Defined.

(** ** The dropped flag and the resynchronization (C8) *)

Lemma idx_insert_eq {A : Type} (l : list A) (i : Z) (v : A) :
  0 <= i < Z.of_nat (length l) -> idx (<[Z.to_nat i := v]> l) i = Some v.
Proof.
  intros H. unfold idx. destruct (Z.ltb_spec i 0); [lia|].
  apply list_lookup_insert_eq. lia.
Qed.

Lemma idx_insert_ne {A : Type} (l : list A) (i j : Z) (v : A) :
  0 <= i -> i <> j -> idx (<[Z.to_nat i := v]> l) j = idx l j.
Proof.
  intros Hi H. unfold idx. destruct (Z.ltb_spec j 0); [reflexivity|].
  apply list_lookup_insert_ne. lia.
Qed.

Lemma handleAbsEvent_axis_step (g : nativeGamepad) (c v m : Z) (info : input_absinfo) :
  isHatCode c = false -> idx (absMap g) c = Some m ->
  idx (absInfo g) c = Some info -> 0 <= m < Z.of_nat (length (axes g)) ->
  handleAbsEvent g c v = Some (set_axes g (<[Z.to_nat m := normalize info v]> (axes g))).
Proof.
  intros Hh Hm Hi Hr. unfold handleAbsEvent. rewrite Hm. bind_step.
  rewrite Hh, Hi. bind_step. rewrite (upd_Some (axes g) m _ Hr). reflexivity.
Qed.

Lemma handleAbsEvent_hat_axes (g g' : nativeGamepad) (c v : Z) :
  isHatCode c = true -> handleAbsEvent g c v = Some g' -> axes g' = axes g.
Proof.
  intros Hh H. unfold handleAbsEvent in H.
  destruct (idx (absMap g) c) as [i|]; bind_in H; [|discriminate].
  rewrite Hh in H.
  destruct (hat_axis_cases c Hh) as [E|E]; rewrite E in H;
    (destruct (idx (hats g) i); bind_in H; [|discriminate]);
    (destruct (upd (hats g) i _); bind_in H; [|discriminate]);
    injection H as <-; reflexivity.
Qed.

Lemma hatBits_dirs (h v : Z) :
  dirsOf true (hatBits h hatLeft hatRight v) = (v <? 0, 0 <? v) /\
  dirsOf false (hatBits h hatLeft hatRight v) = dirsOf false h /\
  dirsOf false (hatBits h hatUp hatDown v) = (v <? 0, 0 <? v) /\
  dirsOf true (hatBits h hatUp hatDown v) = dirsOf true h.
Proof.
  unfold dirsOf. pow2_dirs.
  destruct (hatBits_pair h 3 1 v) as (Xn & Xp & Xz & Xk); [lia..|].
  destruct (hatBits_pair h 0 2 v) as (Yn & Yp & Yz & Yk); [lia..|].
  split; [|split; [|split]].
  - destruct (Z.ltb_spec v 0) as [Hv|Hv]; [|destruct (Z.ltb_spec 0 v) as [Hv'|Hv']].
    + destruct (Xn Hv) as [-> ->]. destruct (Z.ltb_spec 0 v); [lia|reflexivity].
    + destruct (Xp Hv') as [-> ->]. reflexivity.
    + destruct (Xz ltac:(lia)) as [-> ->]. reflexivity.
  - rewrite (Xk 0), (Xk 2) by lia. reflexivity.
  - destruct (Z.ltb_spec v 0) as [Hv|Hv]; [|destruct (Z.ltb_spec 0 v) as [Hv'|Hv']].
    + destruct (Yn Hv) as [-> ->]. destruct (Z.ltb_spec 0 v); [lia|reflexivity].
    + destruct (Yp Hv') as [-> ->]. reflexivity.
    + destruct (Yz ltac:(lia)) as [-> ->]. reflexivity.
  - rewrite (Yk 3), (Yk 1) by lia. reflexivity.
Qed.

Lemma queriesFrom_here (g : nativeGamepad) (lo : Z) : queriesFrom g lo lo = 0%nat.
Proof. unfold queriesFrom. rewrite Z.sub_diag. reflexivity. Qed.

Lemma queriesFrom_step (g : nativeGamepad) (lo c : Z) :
  lo < c ->
  queriesFrom g lo c
  = ((if mappedb g lo then 1 else 0) + queriesFrom g (lo + 1) c)%nat.
Proof.
  intros H. unfold queriesFrom. rewrite seqZ_cons by lia.
  replace (Z.pred (c - lo)) with (c - (lo + 1)) by lia.
  replace (Z.succ lo) with (lo + 1) by lia.
  cbn [List.filter]. destruct (mappedb g lo); reflexivity.
Qed.

(** The hat an event on a directional-pad code writes, and the axes it
    leaves alone. *)
Lemma handleAbsEvent_hat_step (g g1 : nativeGamepad) (c v m : Z) :
  isHatCode c = true -> idx (absMap g) c = Some m ->
  handleAbsEvent g c v = Some g1 ->
  exists h, idx (hats g) m = Some h /\
    hats g1 = <[Z.to_nat m := if horizontal c then hatBits h hatLeft hatRight v
                              else hatBits h hatUp hatDown v]> (hats g) /\
    0 <= m < Z.of_nat (length (hats g)).
Proof.
  intros Hh Hm E.
  destruct (idx (hats g) m) as [h|] eqn:Eh.
  - rewrite (handleAbsEvent_hat g c v m h Hh Hm Eh) in E. injection E as <-.
    exists h. split; [reflexivity|]. split; [reflexivity|].
    apply (idx_Some_inv _ _ _ Eh).
  - exfalso. unfold handleAbsEvent in E. rewrite Hm in E. bind_in E. rewrite Hh in E.
    destruct (hat_axis_cases c Hh) as [R|R]; rewrite R in E; rewrite Eh in E;
      discriminate E.
Qed.

Lemma handleAbsEvent_axis_hats (g g1 : nativeGamepad) (c v : Z) :
  isHatCode c = false -> handleAbsEvent g c v = Some g1 -> hats g1 = hats g.
Proof.
  intros Hh H. unfold handleAbsEvent in H.
  destruct (idx (absMap g) c) as [i|]; bind_in H; [|discriminate].
  rewrite Hh in H.
  destruct (idx (absInfo g) c); bind_in H; [|discriminate].
  destruct (upd (axes g) i _); bind_in H; [|discriminate].
  injection H as <-. reflexivity.
Qed.

Lemma mappedb_true (g : nativeGamepad) (c m : Z) :
  idx (absMap g) c = Some m -> 0 <= m -> mappedb g c = true.
Proof. intros H Hm. unfold mappedb. rewrite H. apply Z.leb_le. exact Hm. Qed.

Lemma mappedb_false (g : nativeGamepad) (c m : Z) :
  idx (absMap g) c = Some m -> m < 0 -> mappedb g c = false.
Proof. intros H Hm. unfold mappedb. rewrite H. apply Z.leb_gt. exact Hm. Qed.

(** The resynchronizer on the codes [lo], ..., [lo + n - 1], started at the
    query count [t].  It returns; it stops at the first code [c0] whose
    query fails, or runs through; the codes below [c0] that have an index
    were answered and the answers show; everything else is untouched. *)
Lemma poll_range (q : abs_oracle) (n : nat) :
  forall (lo : Z) (t : nat) (g : nativeGamepad),
  0 <= lo -> lo + Z.of_nat n <= _ABS_CNT -> poll_ok g ->
  exists err g' t' c0,
    pollAbsState_from q (seqZ lo (Z.of_nat n)) t g = Some (err, g', t') /\
    absMap g' = absMap g /\ poll_ok g' /\
    lo <= c0 <= lo + Z.of_nat n /\
    (err = None -> c0 = lo + Z.of_nat n) /\
    (forall e, err = Some e ->
       c0 < lo + Z.of_nat n /\
       exists m e0, mappedTo g c0 m /\
                    q (t + queriesFrom g lo c0)%nat c0 = inl e0 /\
                    e = ErrAbsPoll e0) /\
    (forall c m, lo <= c < c0 -> mappedTo g c m ->
       exists info, q (t + queriesFrom g lo c)%nat c = inr info /\
                    shows g g' c0 c m info) /\
    untouched g g' lo c0.
Proof.
  induction n as [|n IH]; intros lo t g Hlo Hhi Hpo.
  - exists None, g, t, lo. cbn [Z.of_nat seqZ pollAbsState_from].
    change (seqZ lo 0) with (@nil Z). cbn [pollAbsState_from].
    split; [reflexivity|]. split; [reflexivity|]. split; [exact Hpo|].
    split; [lia|]. split; [intros _; lia|]. split; [discriminate|].
    split; [intros c m Hc; lia|].
    unfold untouched. auto.
  - rewrite seqZ_cons by lia.
    replace (Z.pred (Z.of_nat (S n))) with (Z.of_nat n) by lia.
    replace (Z.succ lo) with (lo + 1) by lia.
    cbn [pollAbsState_from].
    pose proof Hpo as ((Hlen & Hb) & Hi & Ha & Hh).
    destruct (idx_Some (absMap g) lo) as [m Hm];
      [rewrite Hlen; unfold _ABS_CNT in *; lia|].
    rewrite Hm. bind_step.
    destruct (Z.ltb_spec m 0) as [Hneg|Hpos].
    + (* no index: the code is passed over *)
      pose proof (mappedb_false g lo m Hm Hneg) as Hmb.
      destruct (IH (lo + 1) t g ltac:(lia) ltac:(lia) Hpo)
        as (err & g' & t' & c0 & E & M & P & Hc0 & Hnone & Herr & Hshow & Hun).
      exists err, g', t', c0. split; [exact E|]. split; [exact M|].
      split; [exact P|]. split; [lia|]. split; [intros He; specialize (Hnone He); lia|].
      split.
      { intros e He. destruct (Herr e He) as (Hlt & m0 & e0 & Hmp & Hq & Ee).
        split; [lia|]. exists m0, e0. split; [exact Hmp|]. split; [|exact Ee].
        destruct (Z.eq_dec c0 lo) as [->|Hne].
        - destruct Hmp as [Hm0 Hp0]. rewrite Hm in Hm0. injection Hm0 as <-. lia.
        - rewrite queriesFrom_step by lia. rewrite Hmb. exact Hq. }
      split.
      { intros c m0 Hc Hmp.
        destruct (Z.eq_dec c lo) as [->|Hne].
        - destruct Hmp as [Hm0 Hp0]. rewrite Hm in Hm0. injection Hm0 as <-. lia.
        - rewrite queriesFrom_step by lia. rewrite Hmb.
          apply Hshow; [lia|exact Hmp]. }
      destruct Hun as (U1 & U2 & U3). split; [|split].
      * intros c Hc. apply U1. intros [Hr Hmc]. apply Hc. split; [lia|exact Hmc].
      * intros i Hno. apply U2. intros c Hc. apply Hno. lia.
      * intros i hz Hno. apply U3. intros c Hc. apply Hno. lia.
    + pose proof (mappedb_true g lo m Hm Hpos) as Hmb.
      destruct (q t lo) as [e0|info] eqn:Q.
      * (* the query fails *)
        exists (Some (ErrAbsPoll e0)), g, (S t), lo.
        split; [reflexivity|]. split; [reflexivity|]. split; [exact Hpo|].
        split; [lia|]. split; [discriminate|].
        split.
        { intros e He. injection He as <-. split; [lia|].
          exists m, e0. split; [split; assumption|].
          rewrite queriesFrom_here, Nat.add_0_r. auto. }
        split; [intros c m0 Hc; lia|].
        unfold untouched. auto.
      * (* the query is answered *)
        assert (Hci : 0 <= lo < Z.of_nat (length (absInfo g)))
          by (rewrite Hi; unfold _ABS_CNT in *; lia).
        rewrite (upd_Some (absInfo g) lo info Hci). bind_step.
        set (g0 := set_absInfo g (<[Z.to_nat lo := info]> (absInfo g))).
        assert (Hpo0 : poll_ok g0).
        { unfold poll_ok, g0 in *. cbn [absMap absInfo axes hats set_absInfo].
          rewrite length_insert. tauto. }
        destruct (handleAbsEvent_total g0 lo (value info) m Hpo0 Hm Hpos)
          as (g1 & E1 & Hpo1).
        rewrite E1. bind_step.
        pose proof (handleAbsEvent_frame g0 g1 lo (value info) E1)
          as (_ & M1 & _ & _ & _ & _ & _ & _ & _ & I1).
        cbn [absMap absInfo set_absInfo g0] in M1, I1.
        destruct (IH (lo + 1) (S t) g1 ltac:(lia) ltac:(lia) Hpo1)
          as (err & g' & t' & c0 & E & M & P & Hc0 & Hnone & Herr & Hshow & Hun).
        unfold mappedTo, shows, untouched, queriesFrom, mappedb in Herr, Hshow, Hun.
        rewrite M1 in M, Herr, Hshow, Hun.
        fold (mappedb g) in Herr, Hshow, Hun.
        destruct Hun as (U1 & U2 & U3).
        (* what the event on [lo] wrote *)
        assert (Hinfo1 : idx (absInfo g1) lo = Some info).
        { rewrite I1. apply idx_insert_eq. exact Hci. }
        assert (Hmr : 0 <= m < Z.of_nat (length (axes g0))).
        { destruct (Hb lo m Hm) as [Hm64 _]. unfold g0. cbn [axes set_absInfo].
          rewrite Ha. unfold _ABS_CNT in *. lia. }
        assert (Haxes1 : forall i, (isHatCode lo = false -> i <> m) ->
                                   idx (axes g1) i = idx (axes g) i).
        { intros i Hne. destruct (isHatCode lo) eqn:Hhc.
          - rewrite (handleAbsEvent_hat_axes g0 g1 lo (value info) Hhc E1). reflexivity.
          - pose proof E1 as E1'.
            rewrite (handleAbsEvent_axis_step g0 lo (value info) m info Hhc Hm) in E1';
              [|unfold g0; cbn [absInfo set_absInfo]; apply idx_insert_eq; exact Hci
               |exact Hmr].
            injection E1' as <-. cbn [axes set_axes set_absInfo g0].
            apply idx_insert_ne; [lia|]. intros ->. apply Hne; reflexivity. }
        assert (Hhats1 : forall i hz,
                  (isHatCode lo = true -> horizontal lo = hz -> i <> m) ->
                  option_map (dirsOf hz) (idx (hats g1) i)
                  = option_map (dirsOf hz) (idx (hats g) i)).
        { intros i hz Hne. destruct (isHatCode lo) eqn:Hhc.
          - destruct (handleAbsEvent_hat_step g0 g1 lo (value info) m Hhc Hm E1)
              as (h & Hh0 & -> & Hmh).
            cbn [hats set_absInfo g0] in *.
            destruct (Z.eq_dec i m) as [->|Him].
            + rewrite idx_insert_eq by exact Hmh. rewrite Hh0. cbn [option_map].
              f_equal.
              destruct (hatBits_dirs h (value info)) as (D1 & D2 & D3 & D4).
              destruct (horizontal lo) eqn:Hz; destruct hz; try assumption;
                exfalso; exact (Hne eq_refl eq_refl eq_refl).
            + rewrite idx_insert_ne by lia. reflexivity.
          - rewrite (handleAbsEvent_axis_hats g0 g1 lo (value info) Hhc E1).
            reflexivity. }
        exists err, g', t', c0. split; [exact E|]. split; [exact M|].
        split; [exact P|]. split; [lia|].
        split; [intros He; specialize (Hnone He); lia|].
        split.
        { intros e He. destruct (Herr e He) as (Hlt & m0 & e1 & Hmp & Hq & Ee).
          split; [lia|]. exists m0, e1. split; [exact Hmp|]. split; [|exact Ee].
          rewrite queriesFrom_step by lia. rewrite Hmb.
          replace (t + (1 + queriesFrom g (lo + 1) c0))%nat
            with (S t + queriesFrom g (lo + 1) c0)%nat by lia.
          exact Hq. }
        split.
        { intros c m0 Hc Hmp.
          destruct (Z.eq_dec c lo) as [->|Hne].
          - destruct Hmp as [Hm0 Hp0]. rewrite Hm in Hm0. injection Hm0 as <-.
            exists info. rewrite queriesFrom_here, Nat.add_0_r.
            split; [exact Q|].
            unfold shows. split; [|split].
            + rewrite U1; [exact Hinfo1|]. intros [Hr _]. lia.
            + intros Hhc Hlast. rewrite U2.
              * pose proof E1 as E1'.
                rewrite (handleAbsEvent_axis_step g0 lo (value info) m info Hhc Hm) in E1';
                  [|unfold g0; cbn [absInfo set_absInfo]; apply idx_insert_eq; exact Hci
                   |exact Hmr].
                injection E1' as <-. cbn [axes set_axes].
                apply idx_insert_eq. exact Hmr.
              * intros c' Hc'. apply Hlast. lia.
            + intros Hhc Hlast. rewrite U3.
              * destruct (handleAbsEvent_hat_step g0 g1 lo (value info) m Hhc Hm E1)
                  as (h & Hh0 & -> & Hmh).
                cbn [hats set_absInfo g0] in *.
                rewrite idx_insert_eq by exact Hmh. cbn [option_map]. f_equal.
                destruct (hatBits_dirs h (value info)) as (D1 & D2 & D3 & D4).
                destruct (horizontal lo); assumption.
              * intros c' Hc'. apply Hlast. lia.
          - destruct (Hshow c m0 ltac:(lia) Hmp) as (info0 & Q0 & S0).
            exists info0. rewrite queriesFrom_step by lia. rewrite Hmb.
            replace (t + (1 + queriesFrom g (lo + 1) c))%nat
              with (S t + queriesFrom g (lo + 1) c)%nat by lia.
            split; [exact Q0|]. exact S0. }
        unfold untouched. split; [|split].
        -- intros c Hc. rewrite U1.
           ++ rewrite I1. apply idx_insert_ne; [lia|]. intros ->.
              apply Hc. split; [lia|exact Hmb].
           ++ intros [Hr Hmc]. apply Hc. split; [lia|exact Hmc].
        -- intros i Hno. rewrite U2.
           ++ apply Haxes1. intros Hhc ->. exact (Hno lo ltac:(lia) Hhc Hm).
           ++ intros c Hc. apply Hno. lia.
        -- intros i hz Hno. rewrite U3.
           ++ apply Hhats1. intros Hhc Hz ->. exact (Hno lo ltac:(lia) Hhc Hz Hm).
           ++ intros c Hc. apply Hno. lia.
Qed.

Lemma processEvent_report (q : abs_oracle) (t : nat) (g : nativeGamepad)
    (e : input_event) :
  isReport e = true ->
  processEvent q t g e
  = ('(_, g', t') ← pollAbsState q t (set_dropped g false); Some (g', t')).
Proof.
  unfold isReport. intros H. apply andb_true_iff in H as [Ht Hc].
  apply Z.eqb_eq in Hc.
  unfold processEvent, handleSyn. rewrite Ht, Hc.
  cbn [Z.eqb _SYN_REPORT _SYN_DROPPED].
  destruct (pollAbsState q t (set_dropped g false)) as [[[err g1] t1]|] eqn:E;
    [|reflexivity].
  cbn [mbind option_bind].
  apply pollAbsState_frame in E as (Hd & _). cbn [dropped set_dropped] in Hd.
  rewrite Hd. apply Z.eqb_eq in Ht. rewrite Ht. reflexivity.
Qed.

Lemma twoAxisPad_ok : poll_ok twoAxisPad.
Proof.
  unfold twoAxisPad.
  destruct (wf_fresh samplePath 3) as [Hwf Hpo].
  destruct (buildMaps_total (sampleDevice [Byte.x0a] [] [Byte.x03] steadyAbs)
              (fill (Z.to_nat (Z.quot (_KEY_CNT + 7) 8)) [])
              (fill (Z.to_nat (Z.quot (_ABS_CNT + 7) 8)) [Byte.x03])
              (set_fd (set_path zeroNative samplePath) 3)
              (fill_length _ _) (fill_length _ _) Hwf Hpo)
    as (err & g' & E & _ & Hpo' & _).
  rewrite E. exact Hpo'.
Qed.

Lemma poll_spec (q : abs_oracle) (t : nat) (g : nativeGamepad) :
  poll_ok g ->
  exists err g' t' c0,
    pollAbsState q t g = Some (err, g', t') /\
    absMap g' = absMap g /\ poll_ok g' /\
    0 <= c0 <= _ABS_CNT /\
    (err = None -> c0 = _ABS_CNT) /\
    (forall e, err = Some e ->
       c0 < _ABS_CNT /\
       exists m e0, mappedTo g c0 m /\
                    q (t + queriesFrom g 0 c0)%nat c0 = inl e0 /\
                    e = ErrAbsPoll e0) /\
    (forall c m, c < c0 -> mappedTo g c m ->
       exists info, q (t + queriesFrom g 0 c)%nat c = inr info /\
                    shows g g' c0 c m info) /\
    untouched g g' 0 c0.
Proof.
  intros Hpo. unfold pollAbsState.
  destruct (poll_range q (Z.to_nat _ABS_CNT) 0 t g ltac:(lia)
              ltac:(unfold _ABS_CNT; lia) Hpo)
    as (err & g' & t' & c0 & E & M & P & Hc0 & Hnone & Herr & Hshow & Hun).
  rewrite Z2Nat.id in E, Hc0, Hnone, Herr by (unfold _ABS_CNT; lia).
  exists err, g', t', c0. split; [exact E|]. split; [exact M|]. split; [exact P|].
  split; [lia|]. split; [intros He; specialize (Hnone He); lia|].
  split; [exact Herr|]. split; [|exact Hun].
  intros c m Hc Hmp. apply Hshow; [|exact Hmp].
  destruct Hmp as [Hm _]. apply idx_Some_inv in Hm. lia.
Qed.





(** ** The resynchronizer *)

(** The resynchronizer.  On a gamepad whose maps and arrays are valid
    [pollAbsState] returns.  It queries the codes that have an index in
    ascending order, the n-th query of the call being answered at the
    query count [t + n], and applies each answer, up to a code [c0]: the
    end of the code range when it returns no error, and otherwise the
    first code whose query fails, whose error it returns.  The answers of
    the codes below [c0] show; everything else is untouched: the other
    calibration records, axes and hat directions, the [dropped] flag, the
    buttons, the key map, the handle, the path and the counts. *)
Theorem pollAbsState_resyncs (q : abs_oracle) (t : nat) (g : nativeGamepad)
    (Hpo : poll_ok g) :
  exists err g' t' c0,
    pollAbsState q t g = Some (err, g', t') /\
    absMap g' = absMap g /\ poll_ok g' /\
    0 <= c0 <= _ABS_CNT /\
    (err = None -> c0 = _ABS_CNT) /\
    (forall e, err = Some e ->
       c0 < _ABS_CNT /\
       exists m e0, mappedTo g c0 m /\
                    q (t + queriesFrom g 0 c0)%nat c0 = inl e0 /\
                    e = ErrAbsPoll e0) /\
    (forall c m, c < c0 -> mappedTo g c m ->
       exists info, q (t + queriesFrom g 0 c)%nat c = inr info /\
                    shows g g' c0 c m info) /\
    untouched g g' 0 c0 /\
    dropped g' = dropped g /\ keyMap g' = keyMap g /\ buttons g' = buttons g /\
    fd g' = fd g /\ path g' = path g /\ axisCount_ g' = axisCount_ g /\
    buttonCount_ g' = buttonCount_ g /\ hatCount_ g' = hatCount_ g.
Proof.
  destruct (poll_spec q t g Hpo)
    as (err & g' & t' & c0 & E & M & P & Hc0 & Hnone & Herr & Hshow & Hun).
  pose proof (pollAbsState_frame q t t' g g' err E)
    as (Fd & _ & Fk & Fb & Ff & Fp & Fa & Fbc & Fh).
  exists err, g', t', c0. split; [exact E|]. split; [exact M|]. split; [exact P|].
  split; [exact Hc0|]. split; [exact Hnone|]. split; [exact Herr|].
  split; [exact Hshow|]. split; [exact Hun|]. tauto.
Qed.

Lemma pollAbsState_resyncs_witness :
  poll_ok twoAxisPad /\
  exists err g' t' c0,
    pollAbsState secondFails 0 twoAxisPad = Some (err, g', t') /\
    absMap g' = absMap twoAxisPad /\ poll_ok g' /\
    0 <= c0 <= _ABS_CNT /\
    (err = None -> c0 = _ABS_CNT) /\
    (forall e, err = Some e ->
       c0 < _ABS_CNT /\
       exists m e0, mappedTo twoAxisPad c0 m /\
                    secondFails (0 + queriesFrom twoAxisPad 0 c0)%nat c0 = inl e0 /\
                    e = ErrAbsPoll e0) /\
    (forall c m, c < c0 -> mappedTo twoAxisPad c m ->
       exists info, secondFails (0 + queriesFrom twoAxisPad 0 c)%nat c = inr info /\
                    shows twoAxisPad g' c0 c m info) /\
    untouched twoAxisPad g' 0 c0 /\
    dropped g' = dropped twoAxisPad /\ keyMap g' = keyMap twoAxisPad /\
    buttons g' = buttons twoAxisPad /\
    fd g' = fd twoAxisPad /\ path g' = path twoAxisPad /\
    axisCount_ g' = axisCount_ twoAxisPad /\
    buttonCount_ g' = buttonCount_ twoAxisPad /\ hatCount_ g' = hatCount_ twoAxisPad.
Proof.
  split; [exact twoAxisPad_ok|].
  exact (pollAbsState_resyncs secondFails 0 twoAxisPad twoAxisPad_ok).
Defined.
(** ** The registry under [openGamepad] *)

Lemma find_path_None (gs : list Gamepad) (p : string) :
  gamepads_find gs (hasPath p) = None <-> p ∉ paths gs.
Proof.
  unfold gamepads_find, paths, hasPath. induction gs as [|gp gs IH]; simpl.
  - split; [intros _; apply not_elem_of_nil|reflexivity].
  - destruct (String.eqb_spec (path (native gp)) p) as [E|E].
    + split; [discriminate|]. intros H. exfalso. apply H. rewrite E. apply list_elem_of_here.
    + rewrite IH. rewrite not_elem_of_cons. split; [intros H; split; [congruence|exact H]|tauto].
Qed.

Lemma find_path_Some (gs : list Gamepad) (p : string) (gp : Gamepad) :
  gamepads_find gs (hasPath p) = Some gp -> gp ∈ gs /\ path (native gp) = p.
Proof.
  unfold gamepads_find, hasPath. induction gs as [|g0 gs IH]; simpl; [discriminate|].
  destruct (String.eqb_spec (path (native g0)) p) as [E|E].
  - intros [= <-]. split; [apply list_elem_of_here|exact E].
  - intros H. apply IH in H as [H1 H2]. split; [apply list_elem_of_further; exact H1|exact H2].
Qed.

Lemma keymap_ok_zero : keymap_ok (keyMap zeroNative).
Proof.
  unfold keymap_ok. change (keyMap zeroNative) with (repeat 0 (Z.to_nat (_KEY_CNT - _BTN_MISC))).
  apply Forall_forall. intros x Hx. apply list_elem_of_In, repeat_spec in Hx.
  subst x. unfold _KEY_CNT, _BTN_MISC. lia.
Qed.

Lemma keyLoop_keymap (keyBits : list byte) (codes : list Z) :
  forall (km km' : list Z) (bc bc' : Z),
  keymap_ok km -> 0 <= bc ->
  bc + Z.of_nat (length codes) <= _KEY_CNT - _BTN_MISC ->
  keyLoop keyBits codes km bc = Some (km', bc') -> keymap_ok km'.
Proof.
  induction codes as [|c codes IH]; intros km km' bc bc' Hk Hb Hn E; cbn [keyLoop] in E.
  - injection E as <- _. exact Hk.
  - cbn [length] in Hn.
    destruct (isBitSet keyBits c) as [b|]; bind_in E; [|discriminate E].
    destruct b; cbn [negb] in E.
    + destruct (upd km (c - _BTN_MISC) bc) as [km1|] eqn:Eu; bind_in E; [|discriminate E].
      apply upd_inv in Eu as [_ ->].
      apply (IH _ _ _ _) in E; [exact E| |lia|lia].
      unfold keymap_ok in *. apply Forall_insert; [exact Hk|lia].
    + apply (IH _ _ _ _ Hk Hb) in E; [exact E|lia].
Qed.

(** [buildMaps] returns, and the entry it leaves is valid and keeps its
    path and handle. *)
Lemma buildMaps_valid (d : device) (keyBits absBits : list byte) (g : nativeGamepad) :
  length keyBits = Z.to_nat (Z.quot (_KEY_CNT + 7) 8) ->
  length absBits = Z.to_nat (Z.quot (_ABS_CNT + 7) 8) ->
  wf g -> poll_ok g -> keymap_ok (keyMap g) ->
  exists err g',
    buildMaps d keyBits absBits g = Some (err, g') /\
    valid g' /\ path g' = path g /\ fd g' = fd g.
Proof.
  intros Hkb Hab Hwf Hpo Hk.
  destruct (buildMaps_total d keyBits absBits g Hkb Hab Hwf Hpo)
    as (err & g' & E & Hwf' & Hpo' & Hp' & Hf').
  exists err, g'. split; [exact E|]. split; [|auto].
  split; [exact Hwf'|]. split; [exact Hpo'|].
  revert E. unfold buildMaps.
  destruct (keyLoop_total keyBits (seqZ _BTN_MISC (_KEY_CNT - _BTN_MISC))
              (keyMap g) 0 codes_key Hkb (wf_keyMap _ Hwf))
    as (km & bc & Ek & _).
  rewrite Ek. bind_step.
  assert (Hkm : keymap_ok km).
  { apply (keyLoop_keymap keyBits _ (keyMap g) km 0 bc Hk ltac:(lia)) in Ek; [exact Ek|].
    rewrite length_seqZ. unfold _KEY_CNT, _BTN_MISC. lia. }
  destruct Hpo as (Pm & Pi & _).
  destruct (absLoop_fuel (Z.to_nat _ABS_CNT) absBits (dev_abs d) 0 0
              (set_keyMap g km) 0 0)
    as (err1 & g1 & ax & hc & t1 & Ea & _ & _ & _ & _ & Fk & _);
    [ exact Hab | lia | unfold _ABS_CNT; lia | exact Pm | exact Pi | lia
    | unfold _ABS_CNT; lia | lia | unfold _ABS_HAT0X; lia |].
  rewrite Ea. cbv beta iota.
  cbn [keyMap set_keyMap] in Fk.
  destruct err1 as [e|].
  - intros [= _ <-]. rewrite Fk. exact Hkm.
  - destruct (pollAbsState (dev_abs d) t1 (set_counts g1 ax bc hc))
      as [[[err2 g2] t2]|] eqn:Ep; cbv beta iota; [|discriminate].
    intros [= _ <-].
    apply pollAbsState_frame in Ep.
    cbn [keyMap set_counts] in Ep. destruct Ep as (_ & _ & Gk & _).
    rewrite Gk, Fk. exact Hkm.
Qed.

(** What a call of [openGamepad] does to the registry and to the handles:
    it returns; the registry is the old one, or the old one followed by one
    well-formed entry for the path, which was not registered and was opened
    as the entry's handle; it opens nothing but the path, and closes nothing
    but the handle it opened. *)
Lemma openGamepad_effect (w : string -> device) (s : sys)
    (gs : list Gamepad) (p : string) :
  exists err gs' s',
    openGamepad w s gs p = Some (err, gs', s') /\
    (gs' = gs \/
     exists gp, gs' = gs ++ [gp] /\ path (native gp) = p /\ valid (native gp) /\
                (p ∉ paths gs) /\ dev_open (w p) = inr (fd (native gp)) /\
                opens s' = p :: opens s /\ (err = None -> closes s' = closes s)) /\
    (opens s' = opens s \/ opens s' = p :: opens s /\ (p ∉ paths gs)) /\
    (closes s' = closes s \/
     exists f, dev_open (w p) = inr f /\ closes s' = f :: closes s).
Proof.
  assert (Hdone : forall (err : option gerror) (s' : sys),
             (opens s' = opens s \/ opens s' = p :: opens s /\ (p ∉ paths gs)) ->
             (closes s' = closes s \/
              exists f, dev_open (w p) = inr f /\ closes s' = f :: closes s) ->
             exists err0 gs' s0,
               Some (err, gs, s') = Some (err0, gs', s0) /\
               (gs' = gs \/
                exists gp, gs' = gs ++ [gp] /\ path (native gp) = p /\ valid (native gp) /\
                  (p ∉ paths gs) /\ dev_open (w p) = inr (fd (native gp)) /\
                  opens s0 = p :: opens s /\ (err0 = None -> closes s0 = closes s)) /\
               (opens s0 = opens s \/ opens s0 = p :: opens s /\ (p ∉ paths gs)) /\
               (closes s0 = closes s \/
                exists f, dev_open (w p) = inr f /\ closes s0 = f :: closes s)).
  { intros err s' H1 H2. exists err, gs, s'. auto. }
  unfold openGamepad. fold (hasPath p).
  destruct (gamepads_find gs (hasPath p)) as [gp|] eqn:Hf; [apply Hdone; auto|].
  apply find_path_None in Hf.
  destruct (dev_open (w p)) as [[]|f] eqn:Ho; [apply Hdone; cbn; auto..|].
  assert (Hc : exists f0, (inr f : errno + Z) = inr f0 /\
                 closes (sys_close (sys_open s p) f) = f0 :: closes s).
  { exists f. auto. }
  unfold probeDevice.
  destruct (dev_evBits (w p)) as [e0|ev]; [cbn [deferClose]; apply Hdone; cbn; auto|].
  destruct (dev_keyBits (w p)) as [e1|kb]; [cbn [deferClose]; apply Hdone; cbn; auto|].
  destruct (dev_absBits (w p)) as [e2|ab]; [cbn [deferClose]; apply Hdone; cbn; auto|].
  destruct (dev_id (w p)) as [e3|id]; [cbn [deferClose]; apply Hdone; cbn; auto|].
  cbv zeta.
  destruct (evBits_query ev EV_KEY) as [hasKey HK]; [unfold EV_KEY, EV_CNT; lia|].
  destruct (evBits_query ev EV_ABS) as [hasAbs HA]; [unfold EV_ABS, EV_CNT; lia|].
  rewrite HK. bind_step. destruct hasKey; cbv beta iota delta [negb];
    [|cbn [deferClose]; apply Hdone; cbn; auto].
  rewrite HA. cbv beta iota delta [negb]. destruct hasAbs; cbv beta iota;
    [|cbn [deferClose]; apply Hdone; cbn; auto].
  destruct (wf_fresh p f) as [Hwf Hpo].
  destruct (buildMaps_valid (w p)
              (fill (Z.to_nat (Z.quot (_KEY_CNT + 7) 8)) kb)
              (fill (Z.to_nat (Z.quot (_ABS_CNT + 7) 8)) ab)
              (set_fd (set_path zeroNative p) f))
    as (err & g' & E & Hval & Hp' & Hfd');
    [apply fill_length | apply fill_length | exact Hwf | exact Hpo
    | exact keymap_ok_zero |].
  rewrite E. cbv beta iota. unfold registered.
  cbn [path fd set_fd set_path] in Hp', Hfd'.
  destruct err as [e|]; cbn [deferClose].
  - eexists _, _, _. split; [reflexivity|]. split; [|split].
    + right. eexists. split; [reflexivity|]. cbn [native]. rewrite Hfd'.
      repeat (split; [auto; fail|]). discriminate.
    + right. auto.
    + right. exists f. auto.
  - eexists _, _, _. split; [reflexivity|]. split; [|split].
    + right. eexists. split; [reflexivity|]. cbn [native]. rewrite Hfd'. auto 10.
    + right. auto.
    + left. reflexivity.
Qed.


(** The registry under [openGamepad].  For every registry, path and reply
    of the kernel the call returns; it never removes, reorders or changes
    an entry: the registry is the old one, followed by at most one new
    entry, which has the path and is valid; paths that were distinct are
    still distinct; no other path than the given one is opened, and it is
    opened only if it is not registered; nothing is closed but the handle
    that was opened, and nothing at all when the call returns without
    error with the entry registered. *)
Theorem openGamepad_registry (w : string -> device) (s : sys)
    (gs : list Gamepad) (p : string) :
  exists err gs' s',
    openGamepad w s gs p = Some (err, gs', s') /\
    (exists added, gs' = gs ++ added /\ (length added <= 1)%nat /\
       Forall (fun gp => path (native gp) = p /\ valid (native gp)) added /\
       (added <> [] -> err = None -> closes s' = closes s)) /\
    (NoDup (paths gs) -> NoDup (paths gs')) /\
    (opens s' = opens s \/ opens s' = p :: opens s /\ (p ∉ paths gs)) /\
    (closes s' = closes s \/
     exists f, dev_open (w p) = inr f /\ closes s' = f :: closes s).
Proof.
  destruct (openGamepad_effect w s gs p) as (err & gs' & s' & E & Hg & Ho & Hc).
  exists err, gs', s'. split; [exact E|]. split; [|split; [|split; assumption]].
  - destruct Hg as [->|(gp & -> & Hp & Hv & _ & _ & _ & Hcl)].
    + exists []. rewrite app_nil_r. split; [reflexivity|]. split; [simpl; lia|].
      split; [constructor|]. intros H. contradiction.
    + exists [gp]. split; [reflexivity|]. split; [simpl; lia|].
      split; [constructor; [auto|constructor]|]. intros _. exact Hcl.
  - intros Hnd. destruct Hg as [->|(gp & -> & Hp & _ & Hnew & _)]; [exact Hnd|].
    unfold paths. rewrite fmap_app. apply NoDup_app. split; [exact Hnd|].
    split; [|apply NoDup_singleton].
    intros x Hx Hx'. simpl in Hx'. apply list_elem_of_singleton in Hx'.
    subst x. rewrite Hp in Hx. exact (Hnew Hx).
Qed.
(** ** Event records *)

Lemma byteZ_range (b : byte) : 0 <= byteZ b < 256.
Proof. unfold byteZ. pose proof (Byte.to_N_bounded b). lia. Qed.

Lemma byteZ_Zbyte (z : Z) : byteZ (Zbyte z) = z mod 256.
Proof.
  unfold Zbyte, byteZ.
  assert (Hr : 0 <= z mod 256 < 256) by (apply Z.mod_pos_bound; lia).
  destruct (Byte.of_N (Z.to_N (z mod 256))) as [b|] eqn:E.
  - apply Byte.to_of_N in E. rewrite E. lia.
  - apply Byte.of_N_None_iff in E. lia.
Qed.

Lemma land_low_high (a b k : Z) :
  0 <= k -> 0 <= a < 2 ^ k -> Z.land a (b * 2 ^ k) = 0.
Proof.
  intros Hk Ha. apply Z.bits_inj'. intros n Hn.
  rewrite Z.land_spec, Z.bits_0.
  destruct (Z.lt_ge_cases n k) as [Hlt|Hge].
  - rewrite Z.mul_pow2_bits_low by lia. apply andb_false_r.
  - destruct (Z.eq_dec a 0) as [->|Hne]; [rewrite Z.bits_0; reflexivity|].
    rewrite (Z.bits_above_log2 a n); [reflexivity|lia|].
    apply Z.log2_lt_pow2; [lia|].
    apply Z.lt_le_trans with (2 ^ k); [lia|].
    apply Z.pow_le_mono_r; lia.
Qed.

Lemma lor_low_high (a b k : Z) :
  0 <= k -> 0 <= a < 2 ^ k -> Z.lor a (b * 2 ^ k) = a + b * 2 ^ k.
Proof.
  intros Hk Ha. rewrite <- Z.add_lor_land, (land_low_high a b k Hk Ha). lia.
Qed.

(** The [uint16], [uint32] and [int32] assembly of bytes, as numbers. *)
Lemma assemble_u16 (b0 b1 : Z) :
  0 <= b0 < 256 -> 0 <= b1 < 256 ->
  Z.lor b0 (uint16_wrap (Z.shiftl b1 8)) = b0 + b1 * 2 ^ 8.
Proof.
  intros H0 H1. rewrite Z.shiftl_mul_pow2 by lia.
  unfold uint16_wrap. rewrite Z.mod_small by lia.
  apply lor_low_high; lia.
Qed.

Lemma assemble_u32 (b0 b1 b2 b3 : Z) :
  0 <= b0 < 256 -> 0 <= b1 < 256 -> 0 <= b2 < 256 -> 0 <= b3 < 256 ->
  Z.lor (Z.lor (Z.lor b0 (uint32_wrap (Z.shiftl b1 8)))
               (uint32_wrap (Z.shiftl b2 16)))
        (uint32_wrap (Z.shiftl b3 24))
  = b0 + b1 * 2 ^ 8 + b2 * 2 ^ 16 + b3 * 2 ^ 24.
Proof.
  intros H0 H1 H2 H3. rewrite !Z.shiftl_mul_pow2 by lia.
  unfold uint32_wrap. rewrite !Z.mod_small by lia.
  rewrite (lor_low_high b0 b1 8) by lia.
  rewrite (lor_low_high _ b2 16) by lia.
  rewrite (lor_low_high _ b3 24) by lia. reflexivity.
Qed.

Lemma assemble_i32 (b0 b1 b2 b3 : Z) :
  0 <= b0 < 256 -> 0 <= b1 < 256 -> 0 <= b2 < 256 -> 0 <= b3 < 256 ->
  Z.lor (Z.lor (Z.lor b0 (int32_wrap (Z.shiftl b1 8)))
               (int32_wrap (Z.shiftl b2 16)))
        (int32_wrap (Z.shiftl b3 24))
  = int32_wrap (b0 + b1 * 2 ^ 8 + b2 * 2 ^ 16 + b3 * 2 ^ 24).
Proof.
  intros H0 H1 H2 H3. rewrite !Z.shiftl_mul_pow2 by lia.
  assert (E1 : int32_wrap (b1 * 2 ^ 8) = b1 * 2 ^ 8).
  { unfold int32_wrap. rewrite Z.mod_small by lia. lia. }
  assert (E2 : int32_wrap (b2 * 2 ^ 16) = b2 * 2 ^ 16).
  { unfold int32_wrap. rewrite Z.mod_small by lia. lia. }
  assert (E3 : int32_wrap (b3 * 2 ^ 24)
               = (if b3 <? 128 then b3 else b3 - 256) * 2 ^ 24).
  { unfold int32_wrap. destruct (Z.ltb_spec b3 128).
    - rewrite Z.mod_small by lia. lia.
    - rewrite <- (Z.mod_add _ (-1)) by lia. rewrite Z.mod_small by lia. lia. }
  rewrite E1, E2, E3.
  rewrite (lor_low_high b0 b1 8) by lia.
  rewrite (lor_low_high _ b2 16) by lia.
  rewrite (lor_low_high _ _ 24) by lia.
  unfold int32_wrap. destruct (Z.ltb_spec b3 128).
  - rewrite Z.mod_small by lia. lia.
  - rewrite <- (Z.mod_add _ (-1)) by lia. rewrite Z.mod_small by lia. lia.
Qed.

Lemma le16_value (z : Z) :
  0 <= z < 2 ^ 16 -> z mod 256 + (z / 2 ^ 8) mod 256 * 2 ^ 8 = z.
Proof. intros H. change (2 ^ 8) with 256. Z.to_euclidean_division_equations. lia. Qed.

Lemma le32_value (z : Z) :
  z mod 256 + (z / 2 ^ 8) mod 256 * 2 ^ 8 + (z / 2 ^ 16) mod 256 * 2 ^ 16
  + (z / 2 ^ 24) mod 256 * 2 ^ 24 = z mod 2 ^ 32.
Proof.
  change (2 ^ 8) with 256. change (2 ^ 16) with 65536.
  change (2 ^ 24) with 16777216. change (2 ^ 32) with 4294967296.
  Z.to_euclidean_division_equations. lia.
Qed.

Lemma int32_wrap_mod (z : Z) : int32_wrap (z mod 2 ^ 32) = int32_wrap z.
Proof.
  unfold int32_wrap. rewrite Zplus_mod_idemp_l. reflexivity.
Qed.

Lemma int32_wrap_small (z : Z) : in_int32 z -> int32_wrap z = z.
Proof. unfold in_int32, int32_wrap. intros H. rewrite Z.mod_small by lia. lia. Qed.

Lemma int32_wrap_range (z : Z) : in_int32 (int32_wrap z).
Proof.
  unfold in_int32, int32_wrap.
  pose proof (Z.mod_pos_bound (z + 2 ^ 31) (2 ^ 32) ltac:(lia)). lia.
Qed.

Lemma sixteen (ts : list byte) :
  length ts = 16%nat ->
  exists a0 a1 a2 a3 a4 a5 a6 a7 a8 a9 a10 a11 a12 a13 a14 a15,
    ts = [a0; a1; a2; a3; a4; a5; a6; a7; a8; a9; a10; a11; a12; a13; a14; a15].
Proof.
  intros H.
  do 16 (destruct ts as [|? ts]; [discriminate H|]).
  destruct ts; [|discriminate H]. eauto 20.
Qed.

Theorem decode_event_little_endian :
  (forall buf : list byte,
     0 <= typ (decode_event buf) < 2 ^ 16 /\
     0 <= code (decode_event buf) < 2 ^ 16 /\
     in_int32 (evalue (decode_event buf))) /\
  (forall (ts junk : list byte) (e : input_event),
     length ts = 16%nat ->
     0 <= typ e < 2 ^ 16 -> 0 <= code e < 2 ^ 16 -> in_int32 (evalue e) ->
     decode_event (fill 24 (event_bytes ts e ++ junk)) = e).
Proof.
  split.
  - intros buf. unfold decode_event. cbn [typ code evalue].
    rewrite !assemble_u16, assemble_i32 by apply byteZ_range.
    pose proof (byteZ_range (nth 16 buf Byte.x00)).
    pose proof (byteZ_range (nth 17 buf Byte.x00)).
    pose proof (byteZ_range (nth 18 buf Byte.x00)).
    pose proof (byteZ_range (nth 19 buf Byte.x00)).
    split; [lia|]. split; [lia|]. apply int32_wrap_range.
  - intros ts junk [t c v] Hts Ht Hc Hv. cbn [typ code evalue] in *.
    destruct (sixteen ts Hts) as (a0 & a1 & a2 & a3 & a4 & a5 & a6 & a7 & a8 & a9
                                  & a10 & a11 & a12 & a13 & a14 & a15 & ->).
    unfold event_bytes, le16b, le32b, fill. cbn [typ code evalue app take].
    unfold decode_event. cbn [nth].
    rewrite !assemble_u16, assemble_i32 by apply byteZ_range.
    rewrite !byteZ_Zbyte.
    rewrite (le16_value t Ht), (le16_value c Hc), le32_value, int32_wrap_mod.
    rewrite (int32_wrap_small v Hv). reflexivity.
Qed.

(** ** The handle and the queue of a gamepad *)

Lemma handleSyn_fd (q : abs_oracle) (t t1 : nat) (g g1 : nativeGamepad)
    (e : input_event) :
  handleSyn q t g e = Some (g1, t1) -> fd g1 = fd g.
Proof.
  unfold handleSyn. intros Es. destruct (typ e =? EV_SYN).
  - destruct (code e =? _SYN_DROPPED).
    + injection Es as <- _. reflexivity.
    + destruct (code e =? _SYN_REPORT).
      * destruct (pollAbsState q t (set_dropped g false)) as [[[er g2] t2]|] eqn:Ep;
          bind_in Es; [|discriminate].
        injection Es as <- _.
        apply pollAbsState_frame in Ep. destruct Ep as (_ & _ & _ & _ & Hfd & _).
        exact Hfd.
      * injection Es as <- _. reflexivity.
  - injection Es as <- _. reflexivity.
Qed.

Lemma processEvent_fd (q : abs_oracle) (t t' : nat) (g g' : nativeGamepad)
    (e : input_event) :
  processEvent q t g e = Some (g', t') -> fd g' = fd g.
Proof.
  unfold processEvent. intros H.
  destruct (handleSyn q t g e) as [[g1 t1]|] eqn:Es; bind_in H; [|discriminate].
  apply handleSyn_fd in Es. rewrite <- Es.
  destruct (dropped g1); [injection H as <- _; reflexivity|].
  destruct (typ e =? EV_KEY).
  - destruct (idx (keyMap g1) _) as [i|]; bind_in H; [|discriminate].
    destruct (upd (buttons g1) i _) eqn:Eu; bind_in H; [|discriminate].
    injection H as <- _. reflexivity.
  - destruct (typ e =? EV_ABS).
    + destruct (handleAbsEvent g1 (code e) (evalue e)) as [g2|] eqn:E; bind_in H;
        [|discriminate].
      injection H as <- _. apply handleAbsEvent_frame in E.
      destruct E as (_ & _ & _ & _ & Hfd & _). exact Hfd.
    + injection H as <- _. reflexivity.
Qed.

Lemma readLoop_handle (q : abs_oracle) (reads : list read_result) :
  forall (t : nat) (s : sys) (g : nativeGamepad),
  fd g <> 0 ->
  match readLoop q reads t s g with
  | Some (err, g', s') =>
      opens s' = opens s /\
      ((fd g' = fd g /\ closes s' = closes s) \/
       (fd g' = 0 /\ closes s' = fd g :: closes s /\ err = None))
  | None => True
  end.
Proof.
  induction reads as [|r reads IH]; intros t s g Hfd; cbn [readLoop].
  - auto.
  - destruct r as [data|e].
    + destruct (processEvent q t g _) as [[g1 t1]|] eqn:E; bind_step; [|exact I].
      apply processEvent_fd in E. specialize (IH t1 s g1). rewrite E in IH.
      apply IH. exact Hfd.
    + destruct e; cbv beta iota; auto.
      unfold close. destruct (Z.eqb_spec (fd g) 0); [contradiction|].
      cbn. auto.
Qed.

(** The handle of a gamepad.  Whenever [update] returns it has opened
    nothing, and either the handle is the one it started with and nothing
    was closed, or the device was found disconnected: the handle is now the
    value 0, the old handle was closed exactly once, and no error is
    returned.  A gamepad whose handle is 0 is left alone: [update] reads
    nothing and changes nothing.  Closing twice is closing once. *)
Theorem handle_lifecycle (q : abs_oracle) (reads : list read_result) (s : sys)
    (g : nativeGamepad) :
  match update q reads s g with
  | Some (err, g', s') =>
      opens s' = opens s /\
      ((fd g' = fd g /\ closes s' = closes s) \/
       (fd g <> 0 /\ fd g' = 0 /\ closes s' = fd g :: closes s /\ err = None))
  | None => True
  end /\
  (fd g = 0 -> update q reads s g = Some (None, g, s)) /\
  (forall rest, fd g <> 0 ->
     update q (ReadErr ENODEV :: rest) s g = Some (None, set_fd g 0, sys_close s (fd g))) /\
  close (close s g).2 (close s g).1 = close s g.
Proof.
  split; [|split; [|split]].
  - unfold update. destruct (Z.eqb_spec (fd g) 0) as [Hz|Hnz]; [auto|].
    pose proof (readLoop_handle q reads 0 s g Hnz) as H.
    destruct (readLoop q reads 0 s g) as [[[err g'] s']|]; [|exact I].
    destruct H as [Ho [H|H]]; [auto|]. split; [exact Ho|]. right. tauto.
  - intros Hz. unfold update. rewrite Hz. reflexivity.
  - intros rest Hnz. unfold update.
    destruct (Z.eqb_spec (fd g) 0); [contradiction|].
    cbn [readLoop]. unfold close.
    destruct (Z.eqb_spec (fd g) 0); [contradiction|]. reflexivity.
  - unfold close. cbn. destruct (fd g =? 0); reflexivity.
Qed.

Lemma readLoop_junk (q : abs_oracle) (junk : list (list byte))
    (rest : list read_result) (t : nat) (s : sys) (g : nativeGamepad) :
  dropped g = true ->
  Forall (fun d => isReport (decode_event (fill 24 d)) = false) junk ->
  readLoop q (map ReadOk junk ++ rest) t s g = readLoop q rest t s g.
Proof.
  intros Hd Hj. induction Hj as [|d junk Hr Hj IH]; [reflexivity|].
  cbn [map app readLoop]. rewrite (processEvent_discard q t g _ Hd Hr).
  bind_step. exact IH.
Qed.

(** Recovery after an overflow.  An overflow event, then any events that
    are not the report-complete event, then the report-complete event: the
    gamepad continues from exactly the state one run of the resynchronizer
    gives on the state it had at the overflow (with [dropped] clear),
    whatever the events in between were. *)
Theorem overflow_then_report_resyncs (q : abs_oracle) (ov rep : list byte)
    (junk : list (list byte)) (rest : list read_result) (s : sys)
    (g : nativeGamepad)
    (Hfd : fd g <> 0)
    (Hov : isOverflow (decode_event (fill 24 ov)) = true)
    (Hjunk : Forall (fun d => isReport (decode_event (fill 24 d)) = false) junk)
    (Hrep : isReport (decode_event (fill 24 rep)) = true) :
  update q (ReadOk ov :: map ReadOk junk ++ ReadOk rep :: rest) s g
  = ('(_, g', t') ← pollAbsState q 0 (set_dropped g false); readLoop q rest t' s g').
Proof.
  unfold update. destruct (Z.eqb_spec (fd g) 0); [contradiction|].
  cbn [readLoop].
  assert (Hstep : processEvent q 0 g (decode_event (fill 24 ov))
                  = Some (set_dropped g true, 0%nat)).
  { unfold isOverflow in Hov. apply andb_true_iff in Hov as [Ht Hc].
    unfold processEvent, handleSyn. rewrite Ht, Hc. reflexivity. }
  rewrite Hstep. bind_step.
  rewrite readLoop_junk by (exact Hjunk || reflexivity).
  cbn [readLoop]. rewrite (processEvent_report q 0 _ _ Hrep).
  change (set_dropped (set_dropped g true) false) with (set_dropped g false).
  destruct (pollAbsState q 0 (set_dropped g false)) as [[[err g1] t1]|];
    reflexivity.
Qed.


Lemma overflow_then_report_resyncs_witness :
  fd twoAxisPad <> 0 /\
  isOverflow (decode_event (fill 24 overflowRecord)) = true /\
  Forall (fun d => isReport (decode_event (fill 24 d)) = false) [keyRecord] /\
  isReport (decode_event (fill 24 reportRecord)) = true /\
  update steadyAbs (ReadOk overflowRecord :: map ReadOk [keyRecord]
                      ++ ReadOk reportRecord :: []) noCalls twoAxisPad
  = ('(_, g', t') ← pollAbsState steadyAbs 0 (set_dropped twoAxisPad false);
     readLoop steadyAbs [] t' noCalls g').
Proof.
  assert (H1 : fd twoAxisPad <> 0) by (vm_compute; discriminate).
  assert (H3 : Forall (fun d => isReport (decode_event (fill 24 d)) = false)
                      [keyRecord]).
  { apply List.Forall_cons; [reflexivity|apply List.Forall_nil]. }
  split; [exact H1|]. split; [reflexivity|]. split; [exact H3|].
  split; [reflexivity|].
  exact (overflow_then_report_resyncs steadyAbs overflowRecord reportRecord
           [keyRecord] [] noCalls twoAxisPad H1 eq_refl H3 eq_refl).
Defined.
Lemma handleSyn_other (q : abs_oracle) (t : nat) (g : nativeGamepad)
    (e : input_event) :
  typ e <> EV_SYN -> handleSyn q t g e = Some (g, t).
Proof.
  intros H. unfold handleSyn.
  destruct (Z.eqb_spec (typ e) EV_SYN); [contradiction|reflexivity].
Qed.

(** An event reaches the queries.  On a well-formed gamepad whose [dropped]
    flag is clear:
    - a key event for a code of the button range whose [keyMap] entry [i]
      is below the button count makes [isButtonPressed i] answer whether
      the value is non-zero;
    - an absolute event for a code outside the directional-pad range whose
      [absMap] entry [i] is a valid axis index makes [axisValue i] answer
      the rescaled value;
    - an absolute event for a directional-pad code whose [absMap] entry [i]
      is a valid hat index makes [hatState i] answer the updated mask;
    and in each case every other index of that query, and the two other
    queries, answer as before. *)
Theorem event_then_query (q : abs_oracle) (t : nat) (g : nativeGamepad)
    (e : input_event) (i : Z) (Hwf : wf g) (Hd : dropped g = false) :
  (typ e = EV_KEY -> _BTN_MISC <= code e < _KEY_CNT ->
   idx (keyMap g) (code e - _BTN_MISC) = Some i -> 0 <= i < buttonCount_ g ->
   exists g',
     processEvent q t g e = Some (g', t) /\
     isButtonPressed g' i = Some (negb (evalue e =? 0)) /\
     (forall j, j <> i -> isButtonPressed g' j = isButtonPressed g j) /\
     (forall j, axisValue g' j = axisValue g j) /\
     (forall j, hatState g' j = hatState g j)) /\
  (typ e = EV_ABS -> isHatCode (code e) = false ->
   idx (absMap g) (code e) = Some i -> 0 <= i < axisCount_ g ->
   exists g' info,
     processEvent q t g e = Some (g', t) /\
     idx (absInfo g) (code e) = Some info /\
     axisValue g' i = Some (normalize info (evalue e)) /\
     (forall j, j <> i -> axisValue g' j = axisValue g j) /\
     (forall j, isButtonPressed g' j = isButtonPressed g j) /\
     (forall j, hatState g' j = hatState g j)) /\
  (typ e = EV_ABS -> isHatCode (code e) = true ->
   idx (absMap g) (code e) = Some i -> 0 <= i < hatCount_ g ->
   exists g' h,
     processEvent q t g e = Some (g', t) /\
     idx (hats g) i = Some h /\
     hatState g' i = Some (if Z.rem (code e - _ABS_HAT0X) 2 =? 0
                           then hatBits h hatLeft hatRight (evalue e)
                           else hatBits h hatUp hatDown (evalue e)) /\
     (forall j, j <> i -> hatState g' j = hatState g j) /\
     (forall j, isButtonPressed g' j = isButtonPressed g j) /\
     (forall j, axisValue g' j = axisValue g j)).
Proof.
  destruct Hwf as [Wk Wm Wi Wa Wb Wh Wac Wbc Whc].
  split; [|split].
  - intros Ht Hc Hi Hr.
    unfold processEvent. rewrite handleSyn_other by (rewrite Ht; discriminate).
    bind_step. rewrite Hd, Ht. change (EV_KEY =? EV_KEY) with true. cbv beta iota.
    assert (Hw : uint16_wrap (code e - _BTN_MISC) = code e - _BTN_MISC).
    { unfold uint16_wrap, _BTN_MISC, _KEY_CNT in *. apply Z.mod_small. lia. }
    rewrite Hw, Hi. bind_step.
    assert (Hir : 0 <= i < Z.of_nat (length (buttons g))).
    { rewrite Wb. unfold _KEY_CNT, _BTN_MISC in *. lia. }
    rewrite (upd_Some (buttons g) i _ Hir). bind_step.
    eexists. split; [reflexivity|].
    unfold isButtonPressed, axisValue, hatState.
    cbn [buttons axes hats buttonCount_ axisCount_ hatCount_ set_buttons].
    split.
    { destruct (Z.ltb_spec i 0); [lia|]. destruct (Z.leb_spec (buttonCount_ g) i); [lia|].
      cbn [orb]. apply idx_insert_eq. exact Hir. }
    split; [|auto].
    intros j Hj. destruct ((j <? 0) || (buttonCount_ g <=? j)); [reflexivity|].
    apply idx_insert_ne; lia.
  - intros Ht Hh Hi Hr.
    unfold processEvent. rewrite handleSyn_other by (rewrite Ht; discriminate).
    bind_step. rewrite Hd, Ht. change (EV_ABS =? EV_KEY) with false.
    change (EV_ABS =? EV_ABS) with true. cbv beta iota.
    destruct (idx_Some (absInfo g) (code e)) as [info Hinfo].
    { rewrite Wi, <- Wm. apply (idx_Some_inv _ _ _ Hi). }
    assert (Hir : 0 <= i < Z.of_nat (length (axes g))).
    { rewrite Wa. unfold _ABS_CNT in *. lia. }
    unfold handleAbsEvent. rewrite Hi. bind_step. rewrite Hh, Hinfo. bind_step.
    rewrite (upd_Some (axes g) i _ Hir). bind_step.
    eexists _, info. split; [reflexivity|]. split; [reflexivity|].
    unfold isButtonPressed, axisValue, hatState.
    cbn [buttons axes hats buttonCount_ axisCount_ hatCount_ set_axes].
    split.
    { destruct (Z.ltb_spec i 0); [lia|]. destruct (Z.leb_spec (axisCount_ g) i); [lia|].
      cbn [orb]. apply idx_insert_eq. exact Hir. }
    split; [|auto].
    intros j Hj. destruct ((j <? 0) || (axisCount_ g <=? j)); [reflexivity|].
    apply idx_insert_ne; lia.
  - intros Ht Hh Hi Hr.
    unfold processEvent. rewrite handleSyn_other by (rewrite Ht; discriminate).
    bind_step. rewrite Hd, Ht. change (EV_ABS =? EV_KEY) with false.
    change (EV_ABS =? EV_ABS) with true. cbv beta iota.
    assert (Hir : 0 <= i < Z.of_nat (length (hats g))) by (rewrite Wh; lia).
    destruct (idx_Some (hats g) i Hir) as [h Hhat].
    rewrite (handleAbsEvent_hat g (code e) (evalue e) i h Hh Hi Hhat). bind_step.
    eexists _, h. split; [reflexivity|]. split; [exact Hhat|].
    unfold isButtonPressed, axisValue, hatState.
    cbn [buttons axes hats buttonCount_ axisCount_ hatCount_ set_hats].
    split.
    { destruct (Z.ltb_spec i 0); [lia|]. destruct (Z.leb_spec (hatCount_ g) i); [lia|].
      cbn [orb]. apply idx_insert_eq. exact Hir. }
    split; [|auto].
    intros j Hj. destruct ((j <? 0) || (hatCount_ g <=? j)); [reflexivity|].
    apply idx_insert_ne; lia.
Qed.


Lemma smallPad_valid : valid smallPad.
Proof.
  split; [|split].
  - constructor; vm_compute; try reflexivity; split; discriminate.
  - unfold poll_ok. split; [exact absmap_ok_zero|]. repeat split.
  - exact keymap_ok_zero.
Qed.

Lemma event_then_query_witness :
  wf smallPad /\ dropped smallPad = false /\
  exists g',
    processEvent steadyAbs 0 smallPad (mkEvent 1 256 1) = Some (g', 0%nat) /\
    isButtonPressed g' 0 = Some (negb (evalue (mkEvent 1 256 1) =? 0)) /\
    (forall j, j <> 0 -> isButtonPressed g' j = isButtonPressed smallPad j) /\
    (forall j, axisValue g' j = axisValue smallPad j) /\
    (forall j, hatState g' j = hatState smallPad j).
Proof.
  split; [exact (proj1 smallPad_valid)|]. split; [reflexivity|].
  apply (proj1 (event_then_query steadyAbs 0 smallPad (mkEvent 1 256 1) 0
                  (proj1 smallPad_valid) eq_refl));
    [reflexivity | vm_compute; split; [discriminate|reflexivity] | reflexivity
    | vm_compute; split; [discriminate|reflexivity]].
Defined.
Lemma idx_None_ge {A : Type} (l : list A) (i : Z) :
  Z.of_nat (length l) <= i -> idx l i = None.
Proof.
  intros H. unfold idx. destruct (Z.ltb_spec i 0); [reflexivity|].
  apply lookup_ge_None. lia.
Qed.

Lemma idx_None_neg {A : Type} (l : list A) (i : Z) : i < 0 -> idx l i = None.
Proof. intros H. unfold idx. destruct (Z.ltb_spec i 0); [reflexivity|lia]. Qed.

Lemma upd_None_neg {A : Type} (l : list A) (i : Z) (v : A) : i < 0 -> upd l i v = None.
Proof. intros H. unfold upd. destruct (Z.leb_spec 0 i); [lia|reflexivity]. Qed.

Lemma handleAbsEvent_unmapped (g : nativeGamepad) (c v m : Z) :
  length (absInfo g) = length (absMap g) ->
  idx (absMap g) c = Some m -> m < 0 -> handleAbsEvent g c v = None.
Proof.
  intros Hl Hc Hm. unfold handleAbsEvent. rewrite Hc. bind_step.
  destruct (isHatCode c) eqn:Hh.
  - destruct (hat_axis_cases c Hh) as [E|E]; rewrite E;
      rewrite (idx_None_neg (hats g) m Hm); reflexivity.
  - destruct (idx (absInfo g) c); [|reflexivity]. bind_step.
    rewrite (upd_None_neg (axes g) m _ Hm). reflexivity.
Qed.

(** When the reader panics.  On a well-formed gamepad whose index maps hold
    valid entries, the loop body panics for an event exactly when [dropped]
    is clear and the event is a key event whose code lies outside the button
    range, or an absolute event whose code lies outside the code range or
    has no index (a negative [absMap] entry).  In particular no
    synchronization event makes it panic. *)
Theorem reader_panics_exactly (q : abs_oracle) (t : nat) (g : nativeGamepad)
    (e : input_event) (Hwf : wf g) (Hpo : poll_ok g)
    (Hkm : keymap_ok (keyMap g)) (He : 0 <= code e < 2 ^ 16) :
  processEvent q t g e = None <->
  dropped g = false /\
  ((typ e = EV_KEY /\ (code e < _BTN_MISC \/ _KEY_CNT <= code e)) \/
   (typ e = EV_ABS /\
    (_ABS_CNT <= code e \/ exists m, idx (absMap g) (code e) = Some m /\ m < 0))).
Proof.
  destruct Hwf as [Wk Wm Wi Wa Wb Wh Wac Wbc Whc].
  unfold processEvent.
  destruct (Z.eq_dec (typ e) EV_SYN) as [Hs|Hs].
  - (* synchronization events *)
    split.
    + intros H. exfalso. unfold handleSyn in H. rewrite Hs in H.
      change (EV_SYN =? EV_SYN) with true in H. cbv beta iota in H.
      change (EV_SYN =? EV_KEY) with false in H.
      change (EV_SYN =? EV_ABS) with false in H.
      destruct (code e =? _SYN_DROPPED).
      { bind_in H. destruct (dropped (set_dropped g true)); discriminate H. }
      destruct (code e =? _SYN_REPORT).
      * destruct (pollAbsState_total q t (set_dropped g false))
          as (err & g1 & t1 & E & _); [exact Hpo|].
        rewrite E in H. bind_in H. destruct (dropped g1); discriminate H.
      * bind_in H. destruct (dropped g); discriminate H.
    + intros (_ & [[Ht _]|[Ht _]]); rewrite Hs in Ht; discriminate Ht.
  - rewrite (handleSyn_other q t g e Hs). bind_step.
    destruct (dropped g) eqn:Hd.
    { split; [discriminate|]. intros [H _]. discriminate H. }
    destruct (Z.eqb_spec (typ e) EV_KEY) as [Hk|Hk].
    + (* key events *)
      destruct (Z.lt_ge_cases (code e) _BTN_MISC) as [Hlo|Hlo].
      * assert (Hi : idx (keyMap g) (uint16_wrap (code e - _BTN_MISC)) = None).
        { apply idx_None_ge. rewrite Wk. unfold uint16_wrap, _BTN_MISC, _KEY_CNT in *.
          rewrite <- (Z.mod_add _ 1) by lia. rewrite Z.mod_small by lia. lia. }
        rewrite Hi. split; [intros _; auto|reflexivity].
      * assert (Hw : uint16_wrap (code e - _BTN_MISC) = code e - _BTN_MISC).
        { unfold uint16_wrap, _BTN_MISC in *. apply Z.mod_small. lia. }
        rewrite Hw.
        destruct (Z.lt_ge_cases (code e) _KEY_CNT) as [Hhi|Hhi].
        -- destruct (idx_Some (keyMap g) (code e - _BTN_MISC)) as [i Hi].
           { rewrite Wk. unfold _KEY_CNT, _BTN_MISC in *. lia. }
           rewrite Hi. bind_step.
           assert (Hir : 0 <= i < Z.of_nat (length (buttons g))).
           { rewrite Wb. unfold idx in Hi.
             destruct (code e - _BTN_MISC <? 0); [discriminate|].
             pose proof (Forall_lookup_1 _ _ _ _ Hkm Hi) as Hr. simpl in Hr.
             unfold _KEY_CNT, _BTN_MISC in *. lia. }
           rewrite (upd_Some (buttons g) i _ Hir). bind_step.
           split; [discriminate|].
           intros (_ & [[_ [H|H]]|[Ht _]]); try lia.
           rewrite Hk in Ht. discriminate Ht.
        -- assert (Hi : idx (keyMap g) (code e - _BTN_MISC) = None).
           { apply idx_None_ge. rewrite Wk. unfold _BTN_MISC, _KEY_CNT in *. lia. }
           rewrite Hi. split; [intros _; auto|reflexivity].
    + destruct (Z.eqb_spec (typ e) EV_ABS) as [Ha|Ha].
      * (* absolute events *)
        destruct (Z.lt_ge_cases (code e) _ABS_CNT) as [Hc|Hc].
        -- destruct (idx_Some (absMap g) (code e)) as [m Hm];
             [rewrite Wm; unfold _ABS_CNT in *; lia|].
           destruct (Z.lt_ge_cases m 0) as [Hneg|Hpos].
           ++ rewrite (handleAbsEvent_unmapped g (code e) (evalue e) m)
                by (congruence || assumption).
              split; [intros _|reflexivity].
              split; [reflexivity|]. right. split; [exact Ha|]. right. eauto.
           ++ destruct (handleAbsEvent_total g (code e) (evalue e) m Hpo Hm Hpos)
                as (g' & E & _).
              rewrite E. bind_step. split; [discriminate|].
              intros (_ & [[Ht _]|[_ [H|(m' & Hm' & Hneg)]]]).
              ** congruence.
              ** lia.
              ** rewrite Hm in Hm'. injection Hm' as <-. lia.
        -- assert (Hi : idx (absMap g) (code e) = None).
           { apply idx_None_ge. rewrite Wm. unfold _ABS_CNT in *. lia. }
           unfold handleAbsEvent. rewrite Hi.
           split; [intros _; auto|reflexivity].
      * split; [discriminate|].
        intros (_ & [[Ht _]|[Ht _]]); contradiction.
Qed.


Lemma reader_panics_exactly_witness :
  wf smallPad /\ poll_ok smallPad /\ keymap_ok (keyMap smallPad) /\
  0 <= code (mkEvent 1 30 1) < 2 ^ 16 /\
  (processEvent steadyAbs 0 smallPad (mkEvent 1 30 1) = None <->
   dropped smallPad = false /\
   ((typ (mkEvent 1 30 1) = EV_KEY /\
     (code (mkEvent 1 30 1) < _BTN_MISC \/ _KEY_CNT <= code (mkEvent 1 30 1))) \/
    (typ (mkEvent 1 30 1) = EV_ABS /\
     (_ABS_CNT <= code (mkEvent 1 30 1) \/
      exists m, idx (absMap smallPad) (code (mkEvent 1 30 1)) = Some m /\ m < 0)))).
Proof.
  assert (H4 : 0 <= code (mkEvent 1 30 1) < 2 ^ 16)
    by (vm_compute; split; [discriminate|reflexivity]).
  split; [exact (proj1 smallPad_valid)|].
  split; [exact (proj1 (proj2 smallPad_valid))|].
  split; [exact (proj2 (proj2 smallPad_valid))|].
  split; [exact H4|].
  exact (reader_panics_exactly steadyAbs 0 smallPad (mkEvent 1 30 1)
           (proj1 smallPad_valid) (proj1 (proj2 smallPad_valid))
           (proj2 (proj2 smallPad_valid)) H4).
Defined.
(** ** The Y codes of the directional pads *)

(** The loop over the absolute codes writes no [absMap] entry below the
    code it starts from. *)
Lemma absLoop_below (absBits : list byte) (q : abs_oracle) (fuel : nat) :
  forall (c : Z) (t : nat) (g : nativeGamepad) (ax hc : Z)
         (err : option gerror) (g' : nativeGamepad) (ax' hc' : Z) (t' : nat),
  0 <= c ->
  absLoop fuel absBits q c t g ax hc = Some (err, g', ax', hc', t') ->
  forall j, j < c -> idx (absMap g') j = idx (absMap g) j.
Proof.
  induction fuel as [|fuel IH]; intros c t g ax hc err g' ax' hc' t' Hc E j Hj;
    cbn [absLoop] in E;
    (destruct (c <? _ABS_CNT); cbn [negb] in E;
     [|injection E as _ <- _ _ _; reflexivity]).
  - discriminate E.
  - destruct (upd (absMap g) c (-1)) as [am1|] eqn:Eu1; bind_in E; [|discriminate E].
    cbv zeta in E.
    assert (H1 : idx am1 j = idx (absMap g) j) by (apply (idx_upd_ne _ _ _ _ _ Eu1); lia).
    destruct (isBitSet absBits c) as [b|]; bind_in E; [|discriminate E].
    destruct b; cbn [negb] in E.
    + destruct (isHatCode c).
      * destruct (upd (absMap (set_absMap g am1)) c hc) as [am2|] eqn:Eu2; bind_in E;
          [|discriminate E].
        cbn [absMap set_absMap] in Eu2.
        rewrite (IH (c + 1 + 1) _ _ _ _ _ _ _ _ _ ltac:(lia) E j ltac:(lia)).
        cbn [absMap set_absMap]. rewrite <- H1. apply (idx_upd_ne _ _ _ _ _ Eu2). lia.
      * destruct (q t c) as [e|info].
        -- injection E as _ <- _ _ _. cbn [absMap set_absMap]. exact H1.
        -- destruct (upd (absInfo (set_absMap g am1)) c info) as [ai|]; bind_in E;
             [|discriminate E].
           cbv zeta in E.
           destruct (upd (absMap (set_absInfo (set_absMap g am1) ai)) c ax) as [am2|] eqn:Eu2;
             bind_in E; [|discriminate E].
           cbn [absMap set_absMap set_absInfo] in Eu2.
           rewrite (IH (c + 1) _ _ _ _ _ _ _ _ _ ltac:(lia) E j ltac:(lia)).
           cbn [absMap set_absMap set_absInfo]. rewrite <- H1.
           apply (idx_upd_ne _ _ _ _ _ Eu2). lia.
    + rewrite (IH (c + 1) _ _ _ _ _ _ _ _ _ ltac:(lia) E j ltac:(lia)).
      cbn [absMap set_absMap]. exact H1.
Qed.

Lemma skippedY_next_absent (absBits : list byte) (c : Z) :
  present absBits c = false -> skippedY absBits (c + 1) = false.
Proof.
  intros H. unfold skippedY. replace (c + 1 - 1) with c by lia.
  rewrite H. apply andb_false_r.
Qed.

(** On a paired bitmap the loop never writes the [absMap] entry of the Y
    code of a present pair. *)
Lemma absLoop_skips (absBits : list byte) (q : abs_oracle)
    (Hp : pairedb absBits = true) (fuel : nat) :
  forall (c : Z) (t : nat) (g : nativeGamepad) (ax hc : Z)
         (err : option gerror) (g' : nativeGamepad) (ax' hc' : Z) (t' : nat),
  0 <= c -> skippedY absBits c = false ->
  absLoop fuel absBits q c t g ax hc = Some (err, g', ax', hc', t') ->
  forall y, skippedY absBits y = true -> idx (absMap g') y = idx (absMap g) y.
Proof.
  induction fuel as [|fuel IH]; intros c t g ax hc err g' ax' hc' t' Hc Hentry E y Hy;
    cbn [absLoop] in E;
    (destruct (c <? _ABS_CNT); cbn [negb] in E;
     [|injection E as _ <- _ _ _; reflexivity]).
  - discriminate E.
  - assert (Hyc : y <> c) by (intros ->; congruence).
    destruct (upd (absMap g) c (-1)) as [am1|] eqn:Eu1; bind_in E; [|discriminate E].
    cbv zeta in E.
    assert (H1 : idx am1 y = idx (absMap g) y) by (apply (idx_upd_ne _ _ _ _ _ Eu1); lia).
    destruct (isBitSet absBits c) as [b|] eqn:Eb; bind_in E; [|discriminate E].
    pose proof (present_bit _ _ _ Eb) as Hpres.
    destruct b; cbn [negb] in E.
    + destruct (isHatCode c) eqn:Hhat.
      * assert (HX : isHatX c = true).
        { apply hat_X_or_Y; [exact Hhat|].
          destruct (isHatY c) eqn:HY; [|reflexivity].
          unfold skippedY in Hentry. rewrite HY in Hentry. cbn [andb] in Hentry.
          pose proof (paired_Y absBits c Hp HY Hentry). congruence. }
        destruct (hatX_next c HX) as (Hn1 & Hn2 & Hn3 & Hn4 & Hn5).
        destruct (upd (absMap (set_absMap g am1)) c hc) as [am2|] eqn:Eu2; bind_in E;
          [|discriminate E].
        cbn [absMap set_absMap] in Eu2.
        assert (H2 : idx am2 y = idx am1 y) by (apply (idx_upd_ne _ _ _ _ _ Eu2); lia).
        destruct (Z.eq_dec y (c + 1)) as [->|Hne].
        -- rewrite (absLoop_below _ _ _ (c + 1 + 1) _ _ _ _ _ _ _ _ _ ltac:(lia) E (c + 1) ltac:(lia)).
           cbn [absMap set_absMap]. congruence.
        -- rewrite (IH (c + 1 + 1) _ _ _ _ _ _ _ _ _ ltac:(lia)
                      ltac:(unfold skippedY; rewrite Hn4; reflexivity) E y Hy).
           cbn [absMap set_absMap]. congruence.
      * destruct (q t c) as [e|info].
        -- injection E as _ <- _ _ _. cbn [absMap set_absMap]. exact H1.
        -- destruct (upd (absInfo (set_absMap g am1)) c info) as [ai|]; bind_in E;
             [|discriminate E].
           cbv zeta in E.
           destruct (upd (absMap (set_absInfo (set_absMap g am1) ai)) c ax) as [am2|] eqn:Eu2;
             bind_in E; [|discriminate E].
           cbn [absMap set_absMap set_absInfo] in Eu2.
           assert (H2 : idx am2 y = idx am1 y) by (apply (idx_upd_ne _ _ _ _ _ Eu2); lia).
           rewrite (IH (c + 1) _ _ _ _ _ _ _ _ _ ltac:(lia)
                      ltac:(unfold skippedY; rewrite (hatY_pred c Hhat); reflexivity) E y Hy).
           cbn [absMap set_absMap set_absInfo]. congruence.
    + rewrite (IH (c + 1) _ _ _ _ _ _ _ _ _ ltac:(lia) (skippedY_next_absent _ _ Hpres) E y Hy).
      cbn [absMap set_absMap]. exact H1.
Qed.

(** The vertical axis of every directional pad drives hat 0.  On a paired
    bitmap, when [buildMaps] returns without error, the [absMap] entry of
    the Y code of every present pair is the zero value the array started
    with (the loop passes the code over), so an event on that code updates
    the up/down bits of [hats[0]], whatever hat index the X code of the pair
    received. *)
Theorem hat_Y_events_reach_hat_zero (d : device) (kb ab : list byte) (p : string)
    (f : Z)
    (Hp : pairedb (fill (Z.to_nat (Z.quot (_ABS_CNT + 7) 8)) ab) = true) :
  match buildMaps d (fill (Z.to_nat (Z.quot (_KEY_CNT + 7) 8)) kb)
                  (fill (Z.to_nat (Z.quot (_ABS_CNT + 7) 8)) ab)
                  (set_fd (set_path zeroNative p) f) with
  | Some (None, g) =>
      forall y, skippedY (fill (Z.to_nat (Z.quot (_ABS_CNT + 7) 8)) ab) y = true ->
        idx (absMap g) y = Some 0 /\
        forall v, exists h,
          idx (hats g) 0 = Some h /\
          handleAbsEvent g y v
          = Some (set_hats g (<[0%nat := hatBits h hatUp hatDown v]> (hats g)))
  | Some (Some _, _) => True
  | None => False
  end.
Proof.
  set (keyBits := fill (Z.to_nat (Z.quot (_KEY_CNT + 7) 8)) kb) in *.
  set (absBits := fill (Z.to_nat (Z.quot (_ABS_CNT + 7) 8)) ab) in *.
  set (g0 := set_fd (set_path zeroNative p) f).
  destruct (wf_fresh p f) as [Hwf Hpo]. fold g0 in Hwf, Hpo.
  unfold buildMaps.
  destruct (keyLoop_total keyBits (seqZ _BTN_MISC (_KEY_CNT - _BTN_MISC))
              (keyMap g0) 0 codes_key (fill_length _ _) (wf_keyMap _ Hwf))
    as (km & bc & Ek & Hkm & _).
  rewrite Ek. bind_step.
  destruct Hpo as (Pm & Pi & Pa & Ph).
  destruct (absLoop_fuel (Z.to_nat _ABS_CNT) absBits (dev_abs d) 0 0
              (set_keyMap g0 km) 0 0)
    as (err & g1 & ax & hc & t1 & Ea & Hm1 & Hi1 & Hax & Hhc & F);
    [ apply fill_length | lia | unfold _ABS_CNT; lia | exact Pm | exact Pi | lia
    | unfold _ABS_CNT; lia | lia | unfold _ABS_HAT0X; lia |].
  rewrite Ea. cbv beta iota.
  destruct err as [e|]; [exact I|].
  cbn [keyMap axes buttons hats fd path axisCount_ buttonCount_ hatCount_
       dropped set_keyMap] in F.
  destruct F as (Fk & Fa & Fb & Fh & _).
  pose proof (absLoop_skips absBits (dev_abs d) Hp _ 0 _ _ _ _ _ _ _ _ _
                ltac:(lia) eq_refl Ea) as Hskip.
  cbn [absMap set_keyMap] in Hskip.
  destruct (pollAbsState_total (dev_abs d) t1 (set_counts g1 ax bc hc))
    as (err & g2 & t2 & Ep & Hpo2).
  { unfold poll_ok. cbn [absMap absInfo axes hats set_counts].
    rewrite Fa, Fh. tauto. }
  rewrite Ep. cbv beta iota.
  destruct err as [e|]; [exact I|].
  apply pollAbsState_frame in Ep.
  cbn [keyMap absMap buttons fd path axisCount_ buttonCount_ hatCount_
       dropped set_counts] in Ep.
  destruct Ep as (_ & Gm & _).
  intros y Hy.
  assert (HY : isHatY y = true).
  { unfold skippedY in Hy. apply andb_true_iff in Hy as [Hy _]. exact Hy. }
  unfold isHatY in HY. apply andb_true_iff in HY as [Hcode Hrem].
  apply Z.eqb_eq in Hrem.
  assert (Hm : idx (absMap g2) y = Some 0).
  { rewrite Gm, (Hskip y Hy).
    change (absMap g0) with (repeat 0 (Z.to_nat _ABS_CNT)).
    pose proof (isHatCode_inv y Hcode) as Hrange.
    unfold _ABS_HAT0X, _ABS_HAT3Y in Hrange.
    unfold idx. destruct (Z.ltb_spec y 0); [lia|].
    apply lookup_repeat. unfold _ABS_CNT. lia. }
  split; [exact Hm|].
  intros v.
  destruct Hpo2 as (_ & _ & _ & Hh2).
  destruct (idx_Some (hats g2) 0) as [h Hh]; [rewrite Hh2; lia|].
  exists h. split; [exact Hh|].
  rewrite (handleAbsEvent_hat g2 y v 0 h Hcode Hm Hh).
  rewrite Hrem. reflexivity.
Qed.


Lemma hat_Y_events_reach_hat_zero_witness :
  pairedb (fill (Z.to_nat (Z.quot (_ABS_CNT + 7) 8))
             [Byte.x03; Byte.x00; Byte.x0f]) = true /\
  match buildMaps (sampleDevice [Byte.x0a] [] [Byte.x03; Byte.x00; Byte.x0f] steadyAbs)
                  (fill (Z.to_nat (Z.quot (_KEY_CNT + 7) 8)) [])
                  (fill (Z.to_nat (Z.quot (_ABS_CNT + 7) 8))
                     [Byte.x03; Byte.x00; Byte.x0f])
                  (set_fd (set_path zeroNative samplePath) 3) with
  | Some (None, g) =>
      forall y, skippedY (fill (Z.to_nat (Z.quot (_ABS_CNT + 7) 8))
                            [Byte.x03; Byte.x00; Byte.x0f]) y = true ->
        idx (absMap g) y = Some 0 /\
        forall v, exists h,
          idx (hats g) 0 = Some h /\
          handleAbsEvent g y v
          = Some (set_hats g (<[0%nat := hatBits h hatUp hatDown v]> (hats g)))
  | Some (Some _, _) => True
  | None => False
  end.
Proof.
  split; [reflexivity|].
  apply (hat_Y_events_reach_hat_zero
           (sampleDevice [Byte.x0a] [] [Byte.x03; Byte.x00; Byte.x0f] steadyAbs)
           [] [Byte.x03; Byte.x00; Byte.x0f] samplePath 3).
  reflexivity.
Defined.
(** ** The device directory watcher *)

Lemma strip_prefix_Some (p s r : string) :
  strip_prefix p s = Some r -> s = p +:+ r.
Proof.
  revert s. induction p as [|a p IH]; intros s H; simpl in H.
  - injection H as <-. reflexivity.
  - destruct s as [|b s]; [discriminate|].
    destruct (Ascii.eqb_spec a b) as [<-|]; [|discriminate].
    apply IH in H. rewrite H. reflexivity.
Qed.

Lemma strip_prefix_app (p r : string) : strip_prefix p (p +:+ r) = Some r.
Proof.
  induction p as [|a p IH]; simpl; [reflexivity|].
  rewrite Ascii.eqb_refl. exact IH.
Qed.

Lemma reEvent_spec (nm : string) :
  reEvent_MatchString nm = true <->
  exists ds, ds <> EmptyString /\ allDigits ds = true /\ nm = "event" +:+ ds.
Proof.
  unfold reEvent_MatchString. split.
  - destruct (strip_prefix "event" nm) as [[|c rest]|] eqn:E; try discriminate.
    intros H. exists (String c rest). split; [discriminate|]. split; [exact H|].
    apply strip_prefix_Some. exact E.
  - intros (ds & Hne & Hd & ->). rewrite strip_prefix_app.
    destruct ds as [|c rest]; [congruence|exact Hd].
Qed.

Lemma reEvent_node (nm : string) :
  reEvent_MatchString nm = true -> isEventNode (filepath_Join dirName nm).
Proof.
  intros H. apply reEvent_spec in H as (ds & Hne & Hd & ->).
  exists ds. split; [exact Hne|]. split; [exact Hd|]. reflexivity.
Qed.

(** Removal takes one entry out and keeps the others in order. *)
Lemma remove_sublist (gs : list Gamepad) (f : Gamepad -> bool) :
  sublist (gamepads_remove gs f) gs.
Proof.
  induction gs as [|gp gs IH]; simpl; [constructor|].
  destruct (f gp); [apply sublist_cons; reflexivity|apply sublist_skip; exact IH].
Qed.

Lemma paths_sublist (gs gs' : list Gamepad) :
  sublist gs' gs -> sublist (paths gs') (paths gs).
Proof. intros H. unfold paths. apply fmap_sublist. exact H. Qed.

Lemma step_ok_refl (s : sys) (gs : list Gamepad) : step_ok s gs s gs.
Proof. constructor; [auto|auto|exists []; auto]. Qed.

Lemma step_ok_trans (s1 s2 s3 : sys) (g1 g2 g3 : list Gamepad) :
  step_ok s1 g1 s2 g2 -> step_ok s2 g2 s3 g3 -> step_ok s1 g1 s3 g3.
Proof.
  intros [N1 E1 (n1 & O1 & F1)] [N2 E2 (n2 & O2 & F2)]. constructor.
  - auto.
  - intros gp H. destruct (E2 gp H) as [H2|H2]; [apply E1; exact H2|right; exact H2].
  - exists (n2 ++ n1). rewrite O2, O1, app_assoc. split; [reflexivity|].
    apply Forall_app; auto.
Qed.

Lemma openGamepad_step (w : string -> device) (s : sys) (gs : list Gamepad)
    (p : string) :
  isEventNode p ->
  exists err gs' s', openGamepad w s gs p = Some (err, gs', s') /\ step_ok s gs s' gs'.
Proof.
  intros Hp.
  destruct (openGamepad_effect w s gs p) as (err & gs' & s' & E & Hg & Ho & _).
  exists err, gs', s'. split; [exact E|]. constructor.
  - intros Hnd. destruct Hg as [->|(gp & -> & Hpath & _ & Hnew & _)]; [exact Hnd|].
    unfold paths. rewrite fmap_app. apply NoDup_app. split; [exact Hnd|].
    split; [|apply NoDup_singleton].
    intros x Hx Hx'. simpl in Hx'. apply list_elem_of_singleton in Hx'.
    subst x. rewrite Hpath in Hx. exact (Hnew Hx).
  - intros gp Hin. destruct Hg as [->|(gp' & -> & Hpath & Hwf & _)]; [left; exact Hin|].
    apply elem_of_app in Hin as [Hin|Hin]; [left; exact Hin|].
    apply list_elem_of_singleton in Hin. subst gp'. right. rewrite Hpath. auto.
  - destruct Ho as [->|[-> _]]; [exists []; auto|].
    exists [p]. split; [reflexivity|]. constructor; [exact Hp|constructor].
Qed.

Lemma close_opens (s : sys) (g : nativeGamepad) : opens (close s g).2 = opens s.
Proof. unfold close. simpl. destruct (fd g =? 0); reflexivity. Qed.

Lemma watchEvent_step (w : string -> device) (mask : Z) (nm : string) (s : sys)
    (gs : list Gamepad) :
  exists err gs' s', watchEvent w mask nm s gs = Some (err, gs', s') /\
                     step_ok s gs s' gs'.
Proof.
  unfold watchEvent.
  destruct (reEvent_MatchString nm) eqn:Hm; cbn [negb].
  2:{ exists None, gs, s. split; [reflexivity|apply step_ok_refl]. }
  cbv zeta.
  destruct (Z.land mask (Z.lor IN_CREATE IN_ATTRIB) =? 0); cbn [negb].
  - destruct (Z.land mask IN_DELETE =? 0); cbn [negb].
    + exists None, gs, s. split; [reflexivity|apply step_ok_refl].
    + destruct (gamepads_find gs _) as [gp|].
      * pose proof (close_opens s (native gp)) as Hc.
        destruct (close s (native gp)) as [g1 s1]. simpl in Hc.
        eexists _, _, _. split; [reflexivity|]. constructor.
        -- intros Hnd. eapply sublist_NoDup; [exact Hnd|].
           apply paths_sublist, remove_sublist.
        -- intros x Hx. left. eapply elem_of_sublist; [exact Hx|apply remove_sublist].
        -- exists []. rewrite Hc. auto.
      * exists None, gs, s. split; [reflexivity|apply step_ok_refl].
  - apply openGamepad_step. apply reEvent_node. exact Hm.
Qed.

Lemma watchLoop_step (w : string -> device) (fuel : nat) :
  forall (cap : list byte) (len : Z) (s : sys) (gs : list Gamepad),
  match watchLoop fuel w cap len s gs with
  | Some (_, gs', s') => step_ok s gs s' gs'
  | None => True
  end.
Proof.
  induction fuel as [|fuel IH]; intros cap len s gs; cbn [watchLoop].
  - destruct (0 <? len); cbn [negb]; [exact I|apply step_ok_refl].
  - destruct (0 <? len); cbn [negb]; [|apply step_ok_refl].
    destruct (len <? 16); [exact I|]. cbv zeta.
    destruct (negb _); [exact I|].
    destruct (negb _); [exact I|].
    destruct (watchEvent_step w (i_mask (decode_header cap))
                (ByteSliceToString
                   (take (Z.to_nat (uint32_wrap (16 + i_len (decode_header cap) - 1) - 16))
                         (drop 16 cap))) s gs)
      as (err & gs1 & s1 & E & Hs).
    rewrite E. bind_step.
    destruct err as [e|]; [exact Hs|].
    specialize (IH (drop (Z.to_nat (uint32_wrap (16 + i_len (decode_header cap)))) cap)
                   (len - uint32_wrap (16 + i_len (decode_header cap))) s1 gs1).
    destruct (watchLoop fuel w _ _ s1 gs1) as [[[err' gs2] s2]|]; [|exact I].
    eapply step_ok_trans; eassumption.
Qed.

(** Whenever the watcher's [update] returns, with or without error:
    distinct paths are still distinct, every entry is an old one or a new
    well-formed one at a device node, and only device nodes were opened. *)
Theorem watcher_update_invariants (g : nativeGamepads) (rd : errno + list byte)
    (w : string -> device) (s : sys) (gs : list Gamepad) :
  match nativeGamepads_update g rd w s gs with
  | Some (_, gs', s') =>
      (NoDup (paths gs) -> NoDup (paths gs')) /\
      (forall gp, gp ∈ gs' ->
         gp ∈ gs \/ (isEventNode (path (native gp)) /\ valid (native gp))) /\
      exists new, opens s' = new ++ opens s /\ Forall isEventNode new
  | None => True
  end.
Proof.
  assert (Hrefl : (NoDup (paths gs) -> NoDup (paths gs)) /\
      (forall gp, gp ∈ gs ->
         gp ∈ gs \/ (isEventNode (path (native gp)) /\ valid (native gp))) /\
      exists new, opens s = new ++ opens s /\ Forall isEventNode new).
  { split; [auto|]. split; [auto|]. exists []. auto. }
  unfold nativeGamepads_update.
  destruct (inotify g <=? 0); [exact Hrefl|].
  destruct rd as [[]|data]; try exact Hrefl.
  cbv zeta.
  pose proof (watchLoop_step w (Z.to_nat (Z.min (Z.of_nat (length data)) 16384))
                (fill (Z.to_nat 16384) data)
                (Z.min (Z.of_nat (length data)) 16384) s gs) as H.
  destruct (watchLoop _ w _ _ s gs) as [[[err gs'] s']|]; bind_step; [|exact I].
  destruct H as [H1 H2 H3]. auto.
Qed.




Lemma string_bytes_length (s : string) :
  length (string_bytes s) = String.length s.
Proof.
  unfold string_bytes. rewrite length_map.
  induction s as [|c s IH]; simpl; [reflexivity|]. rewrite IH. reflexivity.
Qed.

Lemma ByteSliceToString_zeros (k : nat) :
  ByteSliceToString (repeat Byte.x00 k) = EmptyString.
Proof. destruct k; reflexivity. Qed.

Lemma ByteSliceToString_name (nm : string) (k : nat) :
  noNul nm = true ->
  ByteSliceToString (string_bytes nm ++ repeat Byte.x00 k) = nm.
Proof.
  induction nm as [|c nm IH]; intros H.
  - apply ByteSliceToString_zeros.
  - simpl in H. apply andb_true_iff in H as [Hc Hn].
    change (string_bytes (String c nm)) with (byte_of_ascii c :: string_bytes nm).
    cbn [app ByteSliceToString].
    destruct (Byte.eqb (byte_of_ascii c) Byte.x00) eqn:E.
    + apply Byte.byte_dec_bl in E.
      apply (f_equal ascii_of_byte) in E. rewrite ascii_of_byte_of_ascii in E.
      subst c. discriminate Hc.
    + rewrite ascii_of_byte_of_ascii, (IH Hn). reflexivity.
Qed.

Lemma header_len (cap : list byte) : 0 <= i_len (decode_header cap) < 2 ^ 32.
Proof.
  unfold decode_header. cbn [i_len].
  rewrite assemble_u32 by apply byteZ_range.
  pose proof (byteZ_range (nth 12 cap Byte.x00)).
  pose proof (byteZ_range (nth 13 cap Byte.x00)).
  pose proof (byteZ_range (nth 14 cap Byte.x00)).
  pose proof (byteZ_range (nth 15 cap Byte.x00)). lia.
Qed.

(** A slice expression that does not panic takes at least 17 bytes off the
    buffer. *)
Lemma record_advance (L c : Z) :
  0 <= L < 2 ^ 32 -> c < 2 ^ 32 - 16 ->
  16 <= uint32_wrap (16 + L - 1) <= c ->
  1 <= L /\ uint32_wrap (16 + L - 1) = 16 + L - 1 /\ uint32_wrap (16 + L) = 16 + L.
Proof.
  unfold uint32_wrap. change (2 ^ 32) with 4294967296. intros HL Hc H.
  Z.to_euclidean_division_equations. lia.
Qed.

Lemma watchLoop_done (w : string -> device) (fuel : nat) (cap : list byte)
    (len : Z) (s : sys) (gs : list Gamepad) :
  len <= 0 -> watchLoop fuel w cap len s gs = Some (None, gs, s).
Proof.
  intros H. destruct fuel; cbn [watchLoop];
    (destruct (Z.ltb_spec 0 len); [lia|reflexivity]).
Qed.

(** The fuel of [watchLoop] beyond the length of the buffer plays no role. *)
Lemma watchLoop_fuel (w : string -> device) (f1 : nat) :
  forall (f2 : nat) (cap : list byte) (len : Z) (s : sys) (gs : list Gamepad),
  Z.of_nat (length cap) < 2 ^ 32 - 16 ->
  len <= Z.of_nat f1 -> len <= Z.of_nat f2 ->
  watchLoop f1 w cap len s gs = watchLoop f2 w cap len s gs.
Proof.
  induction f1 as [|f1 IH]; intros f2 cap len s gs Hcap H1 H2.
  - rewrite !watchLoop_done by lia. reflexivity.
  - destruct f2 as [|f2]; [rewrite !watchLoop_done by lia; reflexivity|].
    cbn [watchLoop]. destruct (0 <? len); cbn [negb]; [|reflexivity].
    destruct (len <? 16); [reflexivity|]. cbv zeta.
    destruct (Z.leb_spec 16 (uint32_wrap (16 + i_len (decode_header cap) - 1)));
      cbn [andb negb]; [|reflexivity].
    destruct (Z.leb_spec (uint32_wrap (16 + i_len (decode_header cap) - 1))
                (Z.of_nat (length cap))); cbn [negb]; [|reflexivity].
    destruct (Z.leb_spec (uint32_wrap (16 + i_len (decode_header cap))) len);
      cbn [negb]; [|reflexivity].
    destruct (record_advance (i_len (decode_header cap)) (Z.of_nat (length cap))
                (header_len cap) Hcap ltac:(lia)) as (HL & Ehi & Elo).
    destruct (watchEvent w _ _ s gs) as [[[err gs1] s1]|]; bind_step; [|reflexivity].
    destruct err; [reflexivity|].
    apply IH; [rewrite length_drop; lia|lia|lia].
Qed.

Lemma note_bytes_length (n : notification) :
  length (note_bytes n) = (16 + (String.length (n_name n) + n_pad n))%nat.
Proof.
  unfold note_bytes, le32b. rewrite !length_app, string_bytes_length, repeat_length.
  simpl. lia.
Qed.

Lemma u32_small (z : Z) : 0 <= z < 2 ^ 32 -> 
  z mod 256 + (z / 2 ^ 8) mod 256 * 2 ^ 8 + (z / 2 ^ 16) mod 256 * 2 ^ 16
  + (z / 2 ^ 24) mod 256 * 2 ^ 24 = z.
Proof. intros H. rewrite le32_value. apply Z.mod_small. exact H. Qed.

(** The header of a notification decodes to its mask and the length of its
    name field. *)
Lemma decode_note (n : notification) (rest : list byte) :
  0 <= n_mask n < 2 ^ 32 ->
  Z.of_nat (String.length (n_name n) + n_pad n) < 2 ^ 32 ->
  i_mask (decode_header (note_bytes n ++ rest)) = n_mask n /\
  i_len (decode_header (note_bytes n ++ rest))
  = Z.of_nat (String.length (n_name n) + n_pad n).
Proof.
  intros Hm Hl. unfold note_bytes, le32b, decode_header.
  cbn [app nth i_mask i_len].
  rewrite !assemble_u32 by apply byteZ_range.
  rewrite !byteZ_Zbyte.
  rewrite (u32_small _ Hm), u32_small by lia. auto.
Qed.

Lemma note_body (n : notification) (rest : list byte) :
  drop 16 (note_bytes n ++ rest)
  = string_bytes (n_name n) ++ repeat Byte.x00 (n_pad n) ++ rest.
Proof.
  unfold note_bytes, le32b. cbn [app drop]. rewrite <- !app_assoc. reflexivity.
Qed.

Lemma watchLoop_records (w : string -> device) (ns : list notification) :
  forall (fuel : nat) (tail : list byte) (s : sys) (gs : list Gamepad),
  Forall note_ok ns ->
  Z.of_nat (length (concat (map note_bytes ns)) + length tail) < 2 ^ 32 - 16 ->
  (length ns <= fuel)%nat ->
  watchLoop fuel w (concat (map note_bytes ns) ++ tail)
            (Z.of_nat (length (concat (map note_bytes ns)))) s gs
  = watchEvents w (map (fun n => (n_mask n, n_name n)) ns) s gs.
Proof.
  induction ns as [|n ns IH]; intros fuel tail s gs Hok Hsize Hfuel.
  - apply watchLoop_done. simpl. lia.
  - apply Forall_cons in Hok as [(Hm & Hpad & Hnul) Hok].
    destruct fuel as [|fuel]; [simpl in Hfuel; lia|].
    cbn [map concat] in *. rewrite <- app_assoc.
    set (rest := concat (map note_bytes ns) ++ tail).
    rewrite !length_app, note_bytes_length in *.
    set (L := (String.length (n_name n) + n_pad n)%nat) in *.
    destruct (decode_note n rest Hm) as [Emask Elen]; [fold L; lia|]. fold L in Elen.
    cbn [watchLoop].
    destruct (Z.ltb_spec 0 (Z.of_nat (16 + L + length (concat (map note_bytes ns)))));
      [|lia]. cbn [negb].
    destruct (Z.ltb_spec (Z.of_nat (16 + L + length (concat (map note_bytes ns)))) 16);
      [lia|]. cbv zeta.
    rewrite Elen, Emask.
    assert (Ehi : uint32_wrap (16 + Z.of_nat L - 1) = 16 + Z.of_nat L - 1).
    { unfold uint32_wrap. apply Z.mod_small. unfold L in *. lia. }
    assert (Elo : uint32_wrap (16 + Z.of_nat L) = 16 + Z.of_nat L).
    { unfold uint32_wrap. apply Z.mod_small. lia. }
    rewrite Ehi, Elo.
    assert (Hcap : length (note_bytes n ++ rest)
                   = (16 + L + (length (concat (map note_bytes ns)) + length tail))%nat).
    { unfold rest. rewrite !length_app, note_bytes_length. fold L. lia. }
    rewrite Hcap.
    destruct (Z.leb_spec 16 (16 + Z.of_nat L - 1)); [|unfold L in *; lia].
    destruct (Z.leb_spec (16 + Z.of_nat L - 1)
                (Z.of_nat (16 + L + (length (concat (map note_bytes ns)) + length tail))));
      [|lia].
    cbn [andb negb].
    destruct (Z.leb_spec (16 + Z.of_nat L)
                (Z.of_nat (16 + L + length (concat (map note_bytes ns))))); [|lia].
    cbn [negb].
    assert (Ename : ByteSliceToString
              (take (Z.to_nat (16 + Z.of_nat L - 1 - 16)) (drop 16 (note_bytes n ++ rest)))
              = n_name n).
    { rewrite note_body.
      replace (Z.to_nat (16 + Z.of_nat L - 1 - 16))
        with (length (string_bytes (n_name n)) + (n_pad n - 1))%nat
        by (rewrite string_bytes_length; unfold L; lia).
      rewrite take_app_add.
      rewrite take_app_le by (rewrite repeat_length; lia).
      rewrite take_repeat by lia.
      apply ByteSliceToString_name. exact Hnul. }
    rewrite Ename. cbn [watchEvents].
    destruct (watchEvent w (n_mask n) (n_name n) s gs) as [[[err gs1] s1]|];
      bind_step; [|reflexivity].
    destruct err as [e|]; [reflexivity|].
    replace (drop (Z.to_nat (16 + Z.of_nat L)) (note_bytes n ++ rest)) with rest.
    2:{ replace (Z.to_nat (16 + Z.of_nat L)) with (length (note_bytes n))
          by (rewrite note_bytes_length; fold L; lia).
        rewrite drop_app_length. reflexivity. }
    replace (Z.of_nat (16 + L + length (concat (map note_bytes ns))) - (16 + Z.of_nat L))
      with (Z.of_nat (length (concat (map note_bytes ns)))) by lia.
    unfold rest. apply IH; [exact Hok|lia|simpl in Hfuel; lia].
Qed.

Lemma fill_short (n : nat) (data : list byte) :
  (length data <= n)%nat -> fill n data = data ++ repeat Byte.x00 (n - length data).
Proof.
  intros H. unfold fill. rewrite take_app_ge by exact H.
  rewrite take_repeat by lia. reflexivity.
Qed.

Lemma notes_count (ns : list notification) :
  (length ns <= length (concat (map note_bytes ns)))%nat.
Proof.
  induction ns as [|n ns IH]; cbn [map concat length]; [lia|].
  rewrite length_app, note_bytes_length. lia.
Qed.

(** The byte loop of the watcher decodes the record format of the kernel.
    On a buffer that is a sequence of well-formed notification records
    (header, name, one or more NUL bytes) [update] does not panic and does
    what handling the (mask, name) pairs in order does, up to the first
    error. *)
Theorem watch_records_decoded (g : nativeGamepads) (ns : list notification)
    (w : string -> device) (s : sys) (gs : list Gamepad)
    (Hon : 0 < inotify g) (Hok : Forall note_ok ns)
    (Hsize : Z.of_nat (length (concat (map note_bytes ns))) <= 16384) :
  nativeGamepads_update g (inr (concat (map note_bytes ns))) w s gs
  = ('(err, gs', s') ← watchEvents w (map (fun n => (n_mask n, n_name n)) ns) s gs;
     Some (option_map ErrProbe err, gs', s')).
Proof.
  unfold nativeGamepads_update.
  destruct (Z.leb_spec (inotify g) 0); [lia|]. cbv zeta.
  set (data := concat (map note_bytes ns)) in *.
  rewrite Z.min_l by lia. rewrite Nat2Z.id.
  rewrite fill_short by lia.
  unfold data. rewrite watchLoop_records; [reflexivity|exact Hok| |apply notes_count].
  fold data. rewrite repeat_length. lia.
Qed.


Lemma watch_records_decoded_witness :
  0 < inotify watching /\ Forall note_ok [arrival; removal] /\
  Z.of_nat (length (concat (map note_bytes [arrival; removal]))) <= 16384 /\
  nativeGamepads_update watching (inr (concat (map note_bytes [arrival; removal])))
    sampleWorld noCalls []
  = ('(err, gs', s') ← watchEvents sampleWorld
                         (map (fun n => (n_mask n, n_name n)) [arrival; removal])
                         noCalls [];
     Some (option_map ErrProbe err, gs', s')).
Proof.
  assert (H1 : 0 < inotify watching) by (vm_compute; reflexivity).
  assert (H2 : Forall note_ok [arrival; removal]).
  { repeat (apply List.Forall_cons;
            [split; [vm_compute; split; [discriminate|reflexivity]|
                     split; [vm_compute; lia|reflexivity]]|]).
    apply List.Forall_nil. }
  assert (H3 : Z.of_nat (length (concat (map note_bytes [arrival; removal]))) <= 16384).
  { vm_compute. discriminate. }
  split; [exact H1|]. split; [exact H2|]. split; [exact H3|].
  exact (watch_records_decoded watching [arrival; removal] sampleWorld noCalls []
           H1 H2 H3).
Defined.
Lemma nth_fill (n i : nat) (data : list byte) :
  (i < length data)%nat -> (i < n)%nat ->
  nth i (fill n data) Byte.x00 = nth i data Byte.x00.
Proof.
  intros Hi Hn. unfold fill. rewrite nth_firstn.
  destruct (Nat.ltb_spec i n); [apply app_nth1; exact Hi|lia].
Qed.

(** A record whose name field is empty, or a buffer that ends inside a
    header, makes the watcher's [update] panic: with a length field of 0 the
    slice expression for the name is [buf[16:15]]. *)
Theorem watch_empty_name_panics (g : nativeGamepads) (data : list byte)
    (w : string -> device) (s : sys) (gs : list Gamepad)
    (Hon : 0 < inotify g) :
  ((16 <= length data)%nat ->
   nth 12 data Byte.x00 = Byte.x00 -> nth 13 data Byte.x00 = Byte.x00 ->
   nth 14 data Byte.x00 = Byte.x00 -> nth 15 data Byte.x00 = Byte.x00 ->
   nativeGamepads_update g (inr data) w s gs = None) /\
  ((1 <= length data < 16)%nat ->
   nativeGamepads_update g (inr data) w s gs = None).
Proof.
  unfold nativeGamepads_update.
  destruct (Z.leb_spec (inotify g) 0); [lia|]. cbv zeta.
  split.
  - intros Hlen H12 H13 H14 H15.
    set (n := Z.min (Z.of_nat (length data)) 16384).
    assert (Hn : 16 <= n) by (unfold n; lia).
    destruct (Z.to_nat n) as [|fuel] eqn:Ef; [lia|].
    cbn [watchLoop].
    destruct (Z.ltb_spec 0 n); [|lia]. cbn [negb].
    destruct (Z.ltb_spec n 16); [lia|]. cbv zeta.
    assert (El : i_len (decode_header (fill (Z.to_nat 16384) data)) = 0).
    { unfold decode_header. cbn [i_len].
      rewrite !nth_fill by lia. rewrite H12, H13, H14, H15. reflexivity. }
    rewrite El. reflexivity.
  - intros Hlen.
    rewrite Z.min_l by lia. rewrite Nat2Z.id.
    destruct (length data) as [|fuel] eqn:Ef; [lia|].
    cbn [watchLoop].
    destruct (Z.ltb_spec 0 (Z.of_nat (S fuel))); [|lia]. cbn [negb].
    destruct (Z.ltb_spec (Z.of_nat (S fuel)) 16); [reflexivity|lia].
Qed.


Lemma watch_empty_name_panics_witness :
  0 < inotify watching /\
  nativeGamepads_update watching (inr (repeat Byte.x00 16)) sampleWorld noCalls []
  = None.
Proof.
  assert (H1 : 0 < inotify watching) by (vm_compute; reflexivity).
  split; [exact H1|].
  apply (proj1 (watch_empty_name_panics watching (repeat Byte.x00 16)
                  sampleWorld noCalls [] H1));
    [simpl; lia|reflexivity..].
Defined.
Lemma find_app_last (gs : list Gamepad) (gp : Gamepad) (p : string) :
  p ∉ paths gs -> path (native gp) = p ->
  gamepads_find (gs ++ [gp]) (hasPath p) = Some gp.
Proof.
  intros Hn Hp. unfold gamepads_find, hasPath.
  induction gs as [|g0 gs IH]; simpl.
  - rewrite Hp, String.eqb_refl. reflexivity.
  - unfold paths in Hn. simpl in Hn. apply not_elem_of_cons in Hn as [Hne Hn].
    destruct (String.eqb_spec (path (native g0)) p); [congruence|].
    apply IH. exact Hn.
Qed.

Lemma remove_app_last (gs : list Gamepad) (gp : Gamepad) (p : string) :
  p ∉ paths gs -> path (native gp) = p ->
  gamepads_remove (gs ++ [gp]) (hasPath p) = gs.
Proof.
  intros Hn Hp. unfold hasPath.
  induction gs as [|g0 gs IH]; simpl.
  - rewrite Hp, String.eqb_refl. reflexivity.
  - unfold paths in Hn. simpl in Hn. apply not_elem_of_cons in Hn as [Hne Hn].
    destruct (String.eqb_spec (path (native g0)) p); [congruence|].
    f_equal. apply IH. exact Hn.
Qed.

Lemma remove_path (gs : list Gamepad) (p : string) :
  NoDup (paths gs) -> p ∈ paths gs ->
  (p ∉ paths (gamepads_remove gs (hasPath p))) /\
  S (length (gamepads_remove gs (hasPath p))) = length gs /\
  forall gp, gp ∈ gs -> path (native gp) <> p ->
             gp ∈ gamepads_remove gs (hasPath p).
Proof.
  unfold hasPath. induction gs as [|g0 gs IH]; intros Hnd Hin.
  - apply elem_of_nil in Hin. destruct Hin.
  - unfold paths in Hnd, Hin. simpl in Hnd, Hin.
    apply NoDup_cons in Hnd as [Hfresh Hnd]. simpl.
    destruct (String.eqb_spec (path (native g0)) p) as [E|E].
    + subst p. split; [exact Hfresh|]. split; [reflexivity|].
      intros gp Hgp Hne. apply elem_of_cons in Hgp as [->|Hgp]; [congruence|exact Hgp].
    + apply elem_of_cons in Hin as [Hin|Hin]; [congruence|].
      destruct (IH Hnd Hin) as (H1 & H2 & H3).
      split.
      { unfold paths. simpl. apply not_elem_of_cons. split; [congruence|exact H1]. }
      split; [simpl; rewrite H2; reflexivity|].
      intros gp Hgp Hne. apply elem_of_cons in Hgp as [->|Hgp];
        [apply list_elem_of_here|apply list_elem_of_further, H3; assumption].
Qed.

(** The delete branch.  For a name that matches and a mask with the delete
    bit and neither the create nor the attribute bit: a path that is not
    registered changes nothing; a registered path (paths being distinct)
    leaves the registry without an entry for the path and with every other
    entry, opens nothing, and closes the entry's handle, unless the handle
    is the value 0 that stands for a closed one. *)
Theorem watch_delete (w : string -> device) (mask : Z) (nm : string)
    (s : sys) (gs : list Gamepad)
    (Hm : reEvent_MatchString nm = true)
    (Hc : Z.land mask (Z.lor IN_CREATE IN_ATTRIB) = 0)
    (Hd : Z.land mask IN_DELETE <> 0) :
  (filepath_Join dirName nm ∉ paths gs ->
   watchEvent w mask nm s gs = Some (None, gs, s)) /\
  (filepath_Join dirName nm ∈ paths gs -> NoDup (paths gs) ->
   exists gp gs' s',
     watchEvent w mask nm s gs = Some (None, gs', s') /\
     gp ∈ gs /\ path (native gp) = filepath_Join dirName nm /\
     (filepath_Join dirName nm ∉ paths gs') /\
     S (length gs') = length gs /\
     (forall x, x ∈ gs -> path (native x) <> filepath_Join dirName nm -> x ∈ gs') /\
     opens s' = opens s /\
     closes s' = if fd (native gp) =? 0 then closes s
                 else fd (native gp) :: closes s).
Proof.
  unfold watchEvent. rewrite Hm. cbn [negb]. cbv zeta.
  rewrite Hc. cbn [Z.eqb negb].
  destruct (Z.eqb_spec (Z.land mask IN_DELETE) 0) as [|_]; [contradiction|].
  cbn [negb]. fold (hasPath (filepath_Join dirName nm)).
  split.
  - intros Hn. apply find_path_None in Hn. rewrite Hn. reflexivity.
  - intros Hin Hnd.
    destruct (gamepads_find gs (hasPath (filepath_Join dirName nm))) as [gp|] eqn:Hf.
    2:{ apply find_path_None in Hf. contradiction. }
    apply find_path_Some in Hf as [Hgp Hp].
    destruct (remove_path gs _ Hnd Hin) as (H1 & H2 & H3).
    unfold close. cbv beta iota.
    eexists gp, _, _. split; [reflexivity|].
    split; [exact Hgp|]. split; [exact Hp|]. split; [exact H1|].
    split; [exact H2|]. split; [exact H3|].
    destruct (fd (native gp) =? 0); split; reflexivity.
Qed.


Lemma watch_delete_witness :
  reEvent_MatchString "event0" = true /\
  Z.land IN_DELETE (Z.lor IN_CREATE IN_ATTRIB) = 0 /\
  Z.land IN_DELETE IN_DELETE <> 0 /\
  watchEvent sampleWorld IN_DELETE "event0" noCalls [] = Some (None, [], noCalls).
Proof.
  assert (H3 : Z.land IN_DELETE IN_DELETE <> 0) by (vm_compute; discriminate).
  split; [reflexivity|]. split; [reflexivity|]. split; [exact H3|].
  apply (proj1 (watch_delete sampleWorld IN_DELETE "event0" noCalls []
                  eq_refl eq_refl H3)).
  apply not_elem_of_nil.
Defined.
(** Arrival and removal undo each other.  When a create or attribute
    notification for a name registers a gamepad, a delete notification for
    the same name leaves the registry as it was before the arrival and
    closes the handle the arrival opened. *)
Theorem watch_create_then_delete (w : string -> device) (mc md : Z) (nm : string)
    (s s1 : sys) (gs gs1 : list Gamepad)
    (Hm : reEvent_MatchString nm = true)
    (Hmc : Z.land mc (Z.lor IN_CREATE IN_ATTRIB) <> 0)
    (Hmd : Z.land md (Z.lor IN_CREATE IN_ATTRIB) = 0)
    (Hdel : Z.land md IN_DELETE <> 0)
    (Hcreate : watchEvent w mc nm s gs = Some (None, gs1, s1))
    (Hnew : gs1 <> gs) :
  exists f,
    dev_open (w (filepath_Join dirName nm)) = inr f /\
    opens s1 = filepath_Join dirName nm :: opens s /\
    closes s1 = closes s /\
    watchEvent w md nm s1 gs1
    = Some (None, gs, if f =? 0 then s1 else sys_close s1 f).
Proof.
  unfold watchEvent in Hcreate. rewrite Hm in Hcreate. cbn [negb] in Hcreate.
  cbv zeta in Hcreate.
  destruct (Z.eqb_spec (Z.land mc (Z.lor IN_CREATE IN_ATTRIB)) 0) as [|_];
    [contradiction|]. cbn [negb] in Hcreate.
  destruct (openGamepad_effect w s gs (filepath_Join dirName nm))
    as (err & gs' & s' & E & Hg & _).
  rewrite Hcreate in E. injection E as <- <- <-.
  destruct Hg as [->|(gp & -> & Hp & _ & Hfresh & Hopen & Hopens & Hcls)];
    [contradiction|].
  exists (fd (native gp)). split; [exact Hopen|]. split; [exact Hopens|].
  split; [apply Hcls; reflexivity|].
  unfold watchEvent. rewrite Hm. cbn [negb]. cbv zeta.
  rewrite Hmd. cbn [Z.eqb negb].
  destruct (Z.eqb_spec (Z.land md IN_DELETE) 0) as [|_]; [contradiction|].
  cbn [negb]. fold (hasPath (filepath_Join dirName nm)).
  rewrite (find_app_last gs gp _ Hfresh Hp), (remove_app_last gs gp _ Hfresh Hp).
  unfold close. cbv beta iota. destruct (fd (native gp) =? 0); reflexivity.
Qed.

Lemma watch_create_then_delete_witness :
  reEvent_MatchString "event0" = true /\
  Z.land IN_CREATE (Z.lor IN_CREATE IN_ATTRIB) <> 0 /\
  Z.land IN_DELETE (Z.lor IN_CREATE IN_ATTRIB) = 0 /\
  Z.land IN_DELETE IN_DELETE <> 0 /\
  watchEvent sampleWorld IN_CREATE "event0" noCalls []
  = Some (None, arrivedPads, sys_open noCalls samplePath) /\
  arrivedPads <> [] /\
  exists f,
    dev_open (sampleWorld (filepath_Join dirName "event0")) = inr f /\
    opens (sys_open noCalls samplePath)
    = filepath_Join dirName "event0" :: opens noCalls /\
    closes (sys_open noCalls samplePath) = closes noCalls /\
    watchEvent sampleWorld IN_DELETE "event0" (sys_open noCalls samplePath) arrivedPads
    = Some (None, [], if f =? 0 then sys_open noCalls samplePath
                      else sys_close (sys_open noCalls samplePath) f).
Proof.
  assert (H2 : Z.land IN_CREATE (Z.lor IN_CREATE IN_ATTRIB) <> 0)
    by (vm_compute; discriminate).
  assert (H4 : Z.land IN_DELETE IN_DELETE <> 0) by (vm_compute; discriminate).
  assert (H5 : watchEvent sampleWorld IN_CREATE "event0" noCalls []
               = Some (None, arrivedPads, sys_open noCalls samplePath))
    by (vm_compute; reflexivity).
  assert (H6 : arrivedPads <> []) by (vm_compute; discriminate).
  split; [reflexivity|]. split; [exact H2|]. split; [reflexivity|].
  split; [exact H4|]. split; [exact H5|]. split; [exact H6|].
  exact (watch_create_then_delete sampleWorld IN_CREATE IN_DELETE "event0"
           noCalls (sys_open noCalls samplePath) [] arrivedPads
           eq_refl H2 eq_refl H4 H5 H6).
Defined.
